(** * appbase: the plugin lifecycle controller and its configuration merge

    A shallow embedding of [application.cpp].  C++ objects become records,
    member functions become computations in a state-and-exception monad
    whose state survives a [throw] (as the heap of a C++ process does), and
    the parts of Boost the file calls are modelled after their documented
    behaviour in the modules [boost], [bpo], [bpo_detail] and [bfs].  The
    plugin side of the interface ([abstract_plugin], in plugin.hpp) is not
    part of the sources at hand and follows the specification; the
    definitions concerned say so.

    The first part holds the definitions, in the order of the source; the
    second part the properties: lookup, shutdown, startup, the merge of the
    option sources, the redundancy check, the missing config file, plugin
    activation, and the default-config template; then the further
    properties of the file: what follows a shutdown, the option schema, the
    template option by option, the options that only print, the warning,
    the comparators, the paths of the command line, and what
    initialization leaves alone. *)

From Stdlib Require Import String Ascii List ZArith Bool Lia.
From Stdlib Require Import Floats.SpecFloat.
Import ListNotations.
Local Open Scope string_scope.
Local Open Scope list_scope.

(** ** Exceptions *)

(** The exception objects that travel through [application.cpp]. *)
Inductive exception : Type :=
| runtime_error (what : string)          (* std::runtime_error *)
| out_of_range (what : string)           (* std::out_of_range *)
| bad_any_cast                           (* boost::bad_any_cast *)
| program_options_error (what : string)  (* bpo::error and its subclasses *)
| invalid_state_error (what : string)    (* lifecycle step requested out of order *)
| plugin_error (what : string).          (* whatever a plugin author throws *)

Inductive result (A : Type) : Type :=
| Ok (a : A)
| Throw (e : exception).
Arguments Ok {A} a.
Arguments Throw {A} e.

Definition rbind {A B} (r : result A) (k : A -> result B) : result B :=
  match r with
  | Ok a => k a
  | Throw e => Throw e
  end.

Declare Scope result_scope.
Delimit Scope result_scope with result.
Notation "x <-- c ; k" := (rbind c (fun x => k))
  (at level 61, c at next level, right associativity) : result_scope.

(** ** boost::any and the value types of the option schema *)

Module boost.

(** [std::type_index] of the value held by a [boost::any]. *)
Inductive type_index : Type :=
| ti_void                      (* typeid(void): the empty any *)
| ti_string
| ti_bool
| ti_uint32
| ti_uint64
| ti_int
| ti_double
| ti_vector_string
| ti_path
| ti_other (mangled : string). (* any other C++ type *)

Inductive any : Type :=
| any_empty
| any_string (s : string)
| any_bool (b : bool)
| any_uint32 (n : Z)
| any_uint64 (n : Z)
| any_int (n : Z)
| any_double (x : spec_float)
| any_vector_string (l : list string)
| any_path (p : string)
| any_other (mangled : string) (repr : string).

(** [any::type()]. *)
Definition type (a : any) : type_index :=
  match a with
  | any_empty => ti_void
  | any_string _ => ti_string
  | any_bool _ => ti_bool
  | any_uint32 _ => ti_uint32
  | any_uint64 _ => ti_uint64
  | any_int _ => ti_int
  | any_double _ => ti_double
  | any_vector_string _ => ti_vector_string
  | any_path _ => ti_path
  | any_other m _ => ti_other m
  end.

(** [any::empty()]. *)
Definition empty (a : any) : bool :=
  match a with any_empty => true | _ => false end.

Definition type_index_eqb (a b : type_index) : bool :=
  match a, b with
  | ti_void, ti_void | ti_string, ti_string | ti_bool, ti_bool
  | ti_uint32, ti_uint32 | ti_uint64, ti_uint64 | ti_int, ti_int
  | ti_double, ti_double | ti_vector_string, ti_vector_string
  | ti_path, ti_path => true
  | ti_other m, ti_other n => String.eqb m n
  | _, _ => false
  end.

Fixpoint list_string_eqb (l1 l2 : list string) : bool :=
  match l1, l2 with
  | [], [] => true
  | x :: l1', y :: l2' => String.eqb x y && list_string_eqb l1' l2'
  | _, _ => false
  end.

End boost.
Import boost.

(** ** std::map<std::string, T>

    An association list kept in key order, as [std::map] iterates. *)

Definition smap (T : Type) := list (string * T).

Fixpoint smap_find {T} (k : string) (m : smap T) : option T :=
  match m with
  | [] => None
  | (k', x) :: m' => if String.eqb k k' then Some x else smap_find k m'
  end.

Definition smap_count {T} (k : string) (m : smap T) : nat :=
  match smap_find k m with Some _ => 1 | None => 0 end.

(** [m[k] = x]: assigns in place or inserts at the key's position. *)
Fixpoint smap_set {T} (k : string) (x : T) (m : smap T) : smap T :=
  match m with
  | [] => [(k, x)]
  | (k', x') :: m' =>
      match String.compare k k' with
      | Eq => (k, x) :: m'
      | Lt => (k, x) :: m
      | Gt => (k', x') :: smap_set k x m'
      end
  end.

(** [m.erase(k)]. *)
Definition smap_erase {T} (k : string) (m : smap T) : smap T :=
  filter (fun kv => negb (String.eqb k (fst kv))) m.

Definition string_is_empty (s : string) : bool :=
  match s with EmptyString => true | String _ _ => false end.

Fixpoint mem_string (x : string) (l : list string) : bool :=
  match l with
  | [] => false
  | y :: l' => String.eqb x y || mem_string x l'
  end.

(** ** boost::program_options

    The part of Boost.ProgramOptions that [application.cpp] relies on,
    after the library's documentation and [variables_map.cpp]. *)

Module bpo.

(** [value_semantic]: how the tokens of one option become a typed value. *)
Record value_semantic : Type := {
  name : string;                  (* name(): "arg", or "arg (=text)" with a default *)
  max_tokens : nat;               (* 0 for a switch that takes no argument *)
  is_composing : bool;
  is_required : bool;
  apply_default : option any;     (* Some d: apply_default stores d and returns true *)
  parse : any -> list string -> result any;
                                  (* parse(value_store, new_tokens, utf8) *)
  notify : any -> option exception
}.

Record option_description : Type := {
  long_name : string;
  description : string;
  semantic : value_semantic
}.

(** [option_description::format_parameter]. *)
Definition format_parameter (od : option_description) : string :=
  if Nat.eqb (max_tokens (semantic od)) 0 then "" else name (semantic od).

(** [options_description]: [options()] is the flat list of everything added. *)
Definition options_description := list option_description.

(** [basic_option<char>]. *)
Record basic_option : Type := {
  string_key : string;
  value : list string;
  unregistered : bool
}.

Record parsed_options : Type := {
  options : list basic_option
}.

Record variable_value : Type := {
  v : any;
  m_defaulted : bool;
  m_value_semantic : option value_semantic
}.

Definition empty_variable_value : variable_value :=
  {| v := any_empty; m_defaulted := false; m_value_semantic := None |}.

Record variables_map : Type := {
  m : smap variable_value;
  m_final : list string;
  m_required : list string
}.

Definition empty_variables_map : variables_map :=
  {| m := []; m_final := []; m_required := [] |}.

(** [variables_map::count]. *)
Definition count (vm : variables_map) (key : string) : nat :=
  smap_count key (m vm).

(** [variables_map::operator[]]: an empty value for an absent key. *)
Definition get (vm : variables_map) (key : string) : variable_value :=
  match smap_find key (m vm) with
  | Some x => x
  | None => empty_variable_value
  end.

(** [variables_map::at]. *)
Definition at_ (vm : variables_map) (key : string) : result variable_value :=
  match smap_find key (m vm) with
  | Some x => Ok x
  | None => Throw (out_of_range "map::at")
  end.

(** [variable_value::as<std::string>()]. *)
Definition as_string (x : variable_value) : result string :=
  match v x with
  | any_string s => Ok s
  | _ => Throw bad_any_cast
  end.

(** [variable_value::as<std::vector<std::string>>()]. *)
Definition as_vector_string (x : variable_value) : result (list string) :=
  match v x with
  | any_vector_string l => Ok l
  | _ => Throw bad_any_cast
  end.

(** [options_description::find(name, false)]: the one option of that long
    name; none is [unknown_option], several are [ambiguous_option]. *)
Definition find (desc : options_description) (key : string)
  : result option_description :=
  match filter (fun d => String.eqb (long_name d) key) desc with
  | [] => Throw (program_options_error ("unrecognised option '" ++ key ++ "'"))
  | [d] => Ok d
  | _ :: _ :: _ =>
      Throw (program_options_error ("option '" ++ key ++ "' is ambiguous"))
  end.

(** First loop of [store]: convert and store one given option.  The second
    component collects [new_final]. *)
Definition store_option (desc : options_description) (o : basic_option)
    (acc : variables_map * list string) : result (variables_map * list string) :=
  let (xm, new_final) := acc in
  let option_name := string_key o in
  if string_is_empty option_name then Ok acc
  else if unregistered o then Ok acc
  else if mem_string option_name (m_final xm) then Ok acc
  else
    (d <-- find desc option_name;
     let v0 := get xm option_name in
     let v1 := if m_defaulted v0 then empty_variable_value else v0 in
     x <-- parse (semantic d) (v v1) (value o);
     let v2 := {| v := x; m_defaulted := false;
                  m_value_semantic := Some (semantic d) |} in
     let xm' := {| m := smap_set option_name v2 (m xm);
                   m_final := m_final xm;
                   m_required := m_required xm |} in
     Ok (xm', if is_composing (semantic d) then new_final
              else option_name :: new_final))%result.

Fixpoint store_options (desc : options_description) (os : list basic_option)
    (acc : variables_map * list string) : result (variables_map * list string) :=
  match os with
  | [] => Ok acc
  | o :: os' =>
      (acc' <-- store_option desc o acc; store_options desc os' acc')%result
  end.

(** Second loop of [store]: defaults for the keys still absent, and the
    record of required options. *)
Definition store_default (xm : variables_map) (d : option_description)
  : variables_map :=
  let key := long_name d in
  if string_is_empty key then xm
  else
    let m1 :=
      match smap_count key (m xm), apply_default (semantic d) with
      | O, Some def =>
          smap_set key {| v := def; m_defaulted := true;
                          m_value_semantic := Some (semantic d) |} (m xm)
      | _, _ => m xm
      end in
    {| m := m1;
       m_final := m_final xm;
       m_required := if is_required (semantic d) && negb (mem_string key (m_required xm))
                     then key :: m_required xm else m_required xm |}.

(** [bpo::store(options, xm)] with [desc] the description the options were
    parsed against. *)
Definition store (opts : parsed_options) (desc : options_description)
    (xm : variables_map) : result variables_map :=
  (acc <-- store_options desc (options opts) (xm, []);
   let (xm1, new_final) := acc in
   let xm2 := {| m := m xm1;
                 m_final := m_final xm1 ++ new_final;
                 m_required := m_required xm1 |} in
   Ok (fold_left store_default desc xm2))%result.

(** [variables_map::notify]: every required option has a value, then each
    option's notifier runs. *)
Fixpoint run_notifiers (l : list (string * variable_value)) : result unit :=
  match l with
  | [] => Ok tt
  | (_, x) :: l' =>
      match m_value_semantic x with
      | Some sem =>
          match notify sem (v x) with
          | Some e => Throw e
          | None => run_notifiers l'
          end
      | None => run_notifiers l'
      end
  end.

Fixpoint check_required (vm : variables_map) (req : list string) : result unit :=
  match req with
  | [] => Ok tt
  | key :: req' =>
      match smap_find key (m vm) with
      | Some x =>
          if boost.empty (v x)
          then Throw (program_options_error ("the option '" ++ key ++ "' is required but missing"))
          else check_required vm req'
      | None => Throw (program_options_error ("the option '" ++ key ++ "' is required but missing"))
      end
  end.

Definition notify_all (vm : variables_map) : result unit :=
  (_ <-- check_required vm (m_required vm); run_notifiers (m vm))%result.

(** *** Validators of [typed_value<T>] ([value_semantic.cpp]) *)

Definition check_first_occurrence (x : any) : result unit :=
  if boost.empty x then Ok tt
  else Throw (program_options_error "option cannot be specified more than once").

Definition get_single_string (xs : list string) (allow_empty : bool)
  : result string :=
  match xs with
  | [] => if allow_empty then Ok ""
          else Throw (program_options_error "at least one value required")
  | [s] => Ok s
  | _ :: _ :: _ => Throw (program_options_error "multiple values not allowed")
  end.

Definition tolower (c : ascii) : ascii :=
  let n := nat_of_ascii c in
  if Nat.leb 65 n && Nat.leb n 90 then ascii_of_nat (n + 32) else c.

Fixpoint string_tolower (s : string) : string :=
  match s with
  | EmptyString => EmptyString
  | String c s' => String (tolower c) (string_tolower s')
  end.

Definition validate_string (x : any) (xs : list string) : result any :=
  (_ <-- check_first_occurrence x;
   s <-- get_single_string xs false;
   Ok (any_string s))%result.

Definition validate_bool (x : any) (xs : list string) : result any :=
  (_ <-- check_first_occurrence x;
   s0 <-- get_single_string xs true;
   let s := string_tolower s0 in
   if string_is_empty s || String.eqb s "on" || String.eqb s "yes"
      || String.eqb s "1" || String.eqb s "true"
   then Ok (any_bool true)
   else if String.eqb s "off" || String.eqb s "no"
           || String.eqb s "0" || String.eqb s "false"
   then Ok (any_bool false)
   else Throw (program_options_error ("the argument ('" ++ s ++ "') is invalid")))%result.

Definition digit_of (c : ascii) : option Z :=
  let n := Z.of_nat (nat_of_ascii c) in
  if ((48 <=? n) && (n <=? 57))%Z then Some (n - 48)%Z else None.

Fixpoint digits_value (acc : Z) (s : string) : option Z :=
  match s with
  | EmptyString => Some acc
  | String c s' =>
      match digit_of c with
      | Some d => digits_value (10 * acc + d)%Z s'
      | None => None
      end
  end.

(** [boost::lexical_cast<int>]: an optional sign and decimal digits, the
    whole string, within the range of [int]. *)
Definition lexical_cast_int (s : string) : option Z :=
  let unsigned_part (t : string) :=
    if string_is_empty t then None else digits_value 0 t in
  let r :=
    match s with
    | String "-"%char t => option_map Z.opp (unsigned_part t)
    | String "+"%char t => unsigned_part t
    | _ => unsigned_part s
    end in
  match r with
  | Some z => if ((- 2147483648 <=? z) && (z <=? 2147483647))%Z then Some z else None
  | None => None
  end.

Definition validate_int (x : any) (xs : list string) : result any :=
  (_ <-- check_first_occurrence x;
   s <-- get_single_string xs false;
   match lexical_cast_int s with
   | Some z => Ok (any_int z)
   | None => Throw (program_options_error ("the argument ('" ++ s ++ "') is invalid"))
   end)%result.

(** [validate] for [std::vector<std::string>]: every token is appended to
    the vector already stored. *)
Definition validate_vector_string (x : any) (xs : list string) : result any :=
  match x with
  | any_empty => Ok (any_vector_string xs)
  | any_vector_string l => Ok (any_vector_string (l ++ xs))
  | _ => Throw bad_any_cast
  end.

(** [bpo::value<T>()], with [validate] the validator of [T]. *)
Definition typed_value (validate : any -> list string -> result any)
  : value_semantic :=
  {| name := "arg"; max_tokens := 1; is_composing := false;
     is_required := false; apply_default := None; parse := validate;
     notify := fun _ => None |}.

(** [->default_value(d, textual)]. *)
Definition default_value (d : any) (textual : string) (sem : value_semantic)
  : value_semantic :=
  {| name := if string_is_empty textual then "arg"
             else "arg (=" ++ textual ++ ")";
     max_tokens := max_tokens sem; is_composing := is_composing sem;
     is_required := is_required sem; apply_default := Some d;
     parse := parse sem; notify := notify sem |}.

(** [->composing()]. *)
Definition composing (sem : value_semantic) : value_semantic :=
  {| name := name sem; max_tokens := max_tokens sem; is_composing := true;
     is_required := is_required sem; apply_default := apply_default sem;
     parse := parse sem; notify := notify sem |}.

(** [->zero_tokens()]. *)
Definition zero_tokens (sem : value_semantic) : value_semantic :=
  {| name := name sem; max_tokens := 0; is_composing := is_composing sem;
     is_required := is_required sem; apply_default := apply_default sem;
     parse := parse sem; notify := notify sem |}.

(** [bpo::bool_switch()]. *)
Definition bool_switch : value_semantic :=
  zero_tokens (default_value (any_bool false) "0" (typed_value validate_bool)).

(** [untyped_value(true)]: the semantic of an option declared without a
    value, such as [help]. *)
Definition untyped_value : value_semantic :=
  {| name := "arg"; max_tokens := 0; is_composing := false;
     is_required := false; apply_default := None;
     parse := fun x xs =>
       (_ <-- check_first_occurrence x;
        s <-- get_single_string xs true;
        Ok (any_string s))%result;
     notify := fun _ => None |}.

End bpo.

(** ** boost::filesystem

    Paths are POSIX pathnames; normalisation is left to the library. *)

Module bfs.

Definition path := string.

Record filesystem : Type := {
  files : smap string;           (* regular files and their contents *)
  directories : list path
}.

Definition exists_ (fs : filesystem) (p : path) : bool :=
  Nat.ltb 0 (smap_count p (files fs)) || mem_string p (directories fs).

Definition is_absolute (p : path) : bool :=
  match p with String "/"%char _ => true | _ => false end.

Definition is_relative (p : path) : bool := negb (is_absolute p).

Fixpoint ends_with_separator (p : path) : bool :=
  match p with
  | EmptyString => false
  | String c EmptyString => Ascii.eqb c "/"%char
  | String _ p' => ends_with_separator p'
  end.

(** [operator/]: appends, with a separator when neither side brings one. *)
Definition append (p q : path) : path :=
  if string_is_empty q then p
  else if string_is_empty p || ends_with_separator p || is_absolute q
  then (p ++ q)%string
  else (p ++ "/" ++ q)%string.

(** The elements a path iterates over (version 3 of the library): the root
    directory of an absolute path, then the names between separators, a run
    of separators counting as one, and [.] after a trailing separator. *)
Fixpoint names_from (current : list ascii) (l : list ascii) : list string :=
  match l with
  | [] =>
      match current with
      | [] => []
      | _ :: _ => [string_of_list_ascii (rev current)]
      end
  | c :: l' =>
      if Ascii.eqb c "/"%char
      then
        match current with
        | [] => names_from [] l'
        | _ :: _ => string_of_list_ascii (rev current) :: names_from [] l'
        end
      else names_from (c :: current) l'
  end.

Definition elements (p : path) : list string :=
  let names := names_from [] (list_ascii_of_string p) in
  (if is_absolute p then ["/"] else [])
  ++ names
  ++ match names with
     | [] => []
     | _ :: _ => if ends_with_separator p then ["."] else []
     end.

Fixpoint compare_elements (l1 l2 : list string) : comparison :=
  match l1, l2 with
  | [], [] => Eq
  | [], _ :: _ => Lt
  | _ :: _, [] => Gt
  | x :: l1', y :: l2' =>
      match String.compare x y with
      | Eq => compare_elements l1' l2'
      | c => c
      end
  end.

(** [path::compare]: element by element, each pair as strings. *)
Definition compare (p q : path) : comparison :=
  compare_elements (elements p) (elements q).

(** [path::make_preferred]: the identity on POSIX. *)
Definition make_preferred (p : path) : path := p.

Fixpoint parent_chars (l : list ascii) : list ascii :=
  match l with
  | [] => []
  | c :: l' =>
      if existsb (Ascii.eqb "/"%char) l' then c :: parent_chars l' else []
  end.

(** [path::parent_path]: everything before the last separator. *)
Definition parent_path (p : path) : path :=
  string_of_list_ascii (parent_chars (list_ascii_of_string p)).

Definition create_directories (p : path) (fs : filesystem) : filesystem :=
  {| files := files fs; directories := p :: directories fs |}.

(** Writing a whole file through a [std::ofstream]. *)
Definition write_file (p : path) (content : string) (fs : filesystem)
  : filesystem :=
  {| files := smap_set p content (files fs); directories := directories fs |}.

Definition read_file (fs : filesystem) (p : path) : option string :=
  smap_find p (files fs).

End bfs.

(** ** Plugins and the application object *)

(** Modelled from the spec: [abstract_plugin::state] of plugin.hpp, which is
    not under src/; "registered, initialized, started, stopped". *)
Inductive state : Type := registered | initialized | started | stopped.

(** Modelled from the spec: the plugin behind an [abstract_plugin*]
    (plugin.hpp is not under src/): "unique name", and the hooks
    "declare_options, initialize, startup, shutdown" its author supplied.  A
    hook returns ([None]) or throws ([Some e]).  The mutable [_state] of the
    object is kept in [plugin_states] below, under the plugin's name. *)
Record abstract_plugin : Type := {
  name : string;
  plugin_set_program_options :
    bpo.options_description * bpo.options_description;  (* (cli, cfg) *)
  plugin_initialize : bpo.variables_map -> option exception;
  plugin_startup : option exception;                    (* Some e: throws e *)
  plugin_shutdown : option exception
}.

(** What the plugins and the registry go through, in order. *)
Inductive event : Type :=
| ev_initialize (plugin : string)  (* the initialize hook of the plugin ran *)
| ev_startup (plugin : string)     (* its startup hook ran *)
| ev_shutdown (plugin : string)    (* its shutdown hook ran *)
| ev_erase (plugin : string).      (* plugins.erase(name) *)

Definition comparator := any -> any -> result bool.

(** [any_type_compare_map]: an [unordered_map] from [type_index]. *)
Definition any_type_compare_map := list (type_index * comparator).

Record application_impl : Type := {
  _app_options : bpo.options_description;
  _cfg_options : bpo.options_description;
  _data_dir : bfs.path;
  _config_dir : bfs.path;
  _logging_conf : bfs.path;
  _version : Z;
  _any_compare_map : any_type_compare_map
}.

Record io_service : Type := { io_stopped : bool }.

Record application : Type := {
  my : application_impl;
  plugins : smap abstract_plugin;             (* name -> owned plugin *)
  initialized_plugins : list abstract_plugin; (* in the order initialized *)
  running_plugins : list abstract_plugin;     (* in the order started *)
  io_serv : option io_service                 (* None once reset *)
}.

(** The process around the singleton [app()]. *)
Record process : Type := {
  the_app : application;
  plugin_states : smap state;
  filesystem : bfs.filesystem;
  current_path : bfs.path;
  cout : string;                 (* std::cout and printf *)
  cerr : string;
  trace : list event
}.

Definition with_app (f : application -> application) (s : process) : process :=
  {| the_app := f (the_app s); plugin_states := plugin_states s;
     filesystem := filesystem s; current_path := current_path s;
     cout := cout s; cerr := cerr s; trace := trace s |}.

Definition with_my (f : application_impl -> application_impl)
    (a : application) : application :=
  {| my := f (my a); plugins := plugins a;
     initialized_plugins := initialized_plugins a;
     running_plugins := running_plugins a; io_serv := io_serv a |}.

Definition with_plugin_states (f : smap state -> smap state) (s : process)
  : process :=
  {| the_app := the_app s; plugin_states := f (plugin_states s);
     filesystem := filesystem s; current_path := current_path s;
     cout := cout s; cerr := cerr s; trace := trace s |}.

Definition with_filesystem (f : bfs.filesystem -> bfs.filesystem)
    (s : process) : process :=
  {| the_app := the_app s; plugin_states := plugin_states s;
     filesystem := f (filesystem s); current_path := current_path s;
     cout := cout s; cerr := cerr s; trace := trace s |}.

Definition with_cout (f : string -> string) (s : process) : process :=
  {| the_app := the_app s; plugin_states := plugin_states s;
     filesystem := filesystem s; current_path := current_path s;
     cout := f (cout s); cerr := cerr s; trace := trace s |}.

Definition with_cerr (f : string -> string) (s : process) : process :=
  {| the_app := the_app s; plugin_states := plugin_states s;
     filesystem := filesystem s; current_path := current_path s;
     cout := cout s; cerr := f (cerr s); trace := trace s |}.

Definition with_trace (f : list event -> list event) (s : process) : process :=
  {| the_app := the_app s; plugin_states := plugin_states s;
     filesystem := filesystem s; current_path := current_path s;
     cout := cout s; cerr := cerr s; trace := f (trace s) |}.

(** ** The monad of member functions

    A computation runs on the process and ends with a value or a thrown
    exception; what it did to the process before throwing stays done. *)

Definition M (A : Type) : Type := process -> result A * process.

Definition ret {A} (a : A) : M A := fun s => (Ok a, s).

Definition bind {A B} (c : M A) (k : A -> M B) : M B :=
  fun s =>
    match c s with
    | (Ok a, s') => k a s'
    | (Throw e, s') => (Throw e, s')
    end.

Definition throw {A} (e : exception) : M A := fun s => (Throw e, s).

(** [try { c } catch (...) { handler }]. *)
Definition try_catch {A} (c : M A) (handler : exception -> M A) : M A :=
  fun s =>
    match c s with
    | (Ok a, s') => (Ok a, s')
    | (Throw e, s') => handler e s'
    end.

Definition gets {A} (f : process -> A) : M A := fun s => (Ok (f s), s).

Definition modify (f : process -> process) : M unit := fun s => (Ok tt, f s).

Definition lift {A} (r : result A) : M A := fun s => (r, s).

Declare Scope monad_scope.
Delimit Scope monad_scope with monad.
Notation "x <- c ;; k" := (bind c (fun x => k))
  (at level 61, c at next level, right associativity) : monad_scope.
Notation "c ;; k" := (bind c (fun _ => k))
  (at level 61, right associativity) : monad_scope.
Local Open Scope monad_scope.

(** A range-based [for] whose body may throw. *)
Fixpoint for_each {A} (body : A -> M unit) (l : list A) : M unit :=
  match l with
  | [] => ret tt
  | x :: l' => body x ;; for_each body l'
  end.

Definition log (e : event) : M unit := modify (with_trace (fun t => t ++ [e])).

(** Modelled from the spec: [abstract_plugin::get_state], declared in
    plugin.hpp, which is not under src/.  A plugin has a "current lifecycle
    state" and is added "in state registered". *)
Definition get_state (p : abstract_plugin) : M state :=
  gets (fun s => match smap_find (name p) (plugin_states s) with
                 | Some st => st
                 | None => registered
                 end).

Definition set_state (p : abstract_plugin) (st : state) : M unit :=
  modify (with_plugin_states (smap_set (name p) st)).

(** Modelled from the spec: [application::plugin_initialized], defined in
    application.hpp, which is not under src/: the plugin is appended "to the
    initialized-order list". *)
Definition plugin_initialized (p : abstract_plugin) : M unit :=
  modify (with_app (fun a =>
    {| my := my a; plugins := plugins a;
       initialized_plugins := initialized_plugins a ++ [p];
       running_plugins := running_plugins a; io_serv := io_serv a |})).

(** Modelled from the spec: [application::plugin_started], defined in
    application.hpp, which is not under src/: the plugin is appended "to the
    started-order list". *)
Definition plugin_started (p : abstract_plugin) : M unit :=
  modify (with_app (fun a =>
    {| my := my a; plugins := plugins a;
       initialized_plugins := initialized_plugins a;
       running_plugins := running_plugins a ++ [p]; io_serv := io_serv a |})).

(** Modelled from the spec: [abstract_plugin::initialize], whose body is in
    plugin.hpp and not under src/.  "Legal only from state registered; calls
    the plugin's initialization hook with its slice of resolved options,
    transitions it to initialized, and appends it to the initialized-order
    list.  Calling it on a plugin not in registered state is a no-op." *)
Definition abstract_plugin_initialize (options : bpo.variables_map)
    (p : abstract_plugin) : M unit :=
  st <- get_state p ;;
  match st with
  | registered =>
      log (ev_initialize (name p)) ;;
      match plugin_initialize p options with
      | Some e => throw e
      | None => set_state p initialized ;; plugin_initialized p
      end
  | _ => ret tt
  end.

(** Modelled from the spec: [abstract_plugin::startup], whose body is in
    plugin.hpp and not under src/.  "For every plugin in initialized order
    whose state is initialized, invokes its startup hook and transitions it
    to started, appending to the started-order list"; "attempting startup
    on a plugin still registered is forbidden (fails with
    InvalidStateError)". *)
Definition abstract_plugin_startup (p : abstract_plugin) : M unit :=
  st <- get_state p ;;
  match st with
  | initialized =>
      log (ev_startup (name p)) ;;
      match plugin_startup p with
      | Some e => throw e
      | None => set_state p started ;; plugin_started p
      end
  | registered => throw (invalid_state_error (name p))
  | _ => ret tt
  end.

(** Modelled from the spec: [abstract_plugin::shutdown], whose body is in
    plugin.hpp and not under src/.  The shutdown hook is invoked and the
    plugin goes from started to stopped. *)
Definition abstract_plugin_shutdown (p : abstract_plugin) : M unit :=
  log (ev_shutdown (name p)) ;;
  match plugin_shutdown p with
  | Some e => throw e
  | None => set_state p stopped
  end.

(** ** application.cpp: lookup and lifecycle *)

(** [application::find_plugin]; [None] is the null pointer. *)
Definition find_plugin (nm : string) : M (option abstract_plugin) :=
  gets (fun s => smap_find nm (plugins (the_app s))).

(** [application::get_plugin]. *)
Definition get_plugin (nm : string) : M abstract_plugin :=
  ptr <- find_plugin nm ;;
  match ptr with
  | None => throw (runtime_error ("unable to find plugin: " ++ nm))
  | Some p => ret p
  end.

(** [plugins.erase(name)], the body of the second loop of [shutdown]. *)
Definition erase_plugin (nm : string) : M unit :=
  log (ev_erase nm) ;;
  modify (with_app (fun a =>
    {| my := my a; plugins := smap_erase nm (plugins a);
       initialized_plugins := initialized_plugins a;
       running_plugins := running_plugins a; io_serv := io_serv a |})).

(** [application::shutdown]. *)
Definition shutdown : M unit :=
  running <- gets (fun s => running_plugins (the_app s)) ;;
  for_each abstract_plugin_shutdown (rev running) ;;
  for_each (fun p => erase_plugin (name p)) (rev running) ;;
  modify (with_app (fun a =>
    {| my := my a; plugins := []; initialized_plugins := [];
       running_plugins := []; io_serv := None |})).

(** [application::startup]. *)
Definition startup : M unit :=
  try_catch
    (ps <- gets (fun s => initialized_plugins (the_app s)) ;;
     for_each abstract_plugin_startup ps)
    (fun e => shutdown ;; throw e).

(** ** Strings and streams *)

Definition newline : ascii := "010"%char.
Definition tab : ascii := "009"%char.
Definition double_quote : ascii := "034"%char.

(** [std::endl]. *)
Definition endl : string := String newline EmptyString.

(** [boost::replace_all(s, search, format)] for a one-character [search]. *)
Fixpoint replace_all (s : string) (search : ascii) (format : string) : string :=
  match s with
  | EmptyString => EmptyString
  | String c s' =>
      if Ascii.eqb c search then (format ++ replace_all s' search format)%string
      else String c (replace_all s' search format)
  end.

Definition size_max : Z := (2 ^ 64 - 1)%Z.

(** [std::string::erase(pos, n)]; [pos] is a [size_t], and a [pos] past the
    end throws [std::out_of_range]. *)
Definition string_erase (s : string) (pos : Z) (n : Z) : result string :=
  let size := Z.of_nat (String.length s) in
  if (size <? pos)%Z then Throw (out_of_range "basic_string::erase")
  else
    let p := Z.to_nat pos in
    let k := Z.to_nat (Z.min n (size - pos)) in
    Ok (substring 0 p s ++ substring (p + k) (String.length s - (p + k)) s)%string.

(** [is_any_of(seps)] and [boost::split] without token compression: every
    separator ends a token, so an empty input gives one empty token. *)
Fixpoint split_chars (seps : list ascii) (current : list ascii) (l : list ascii)
  : list string :=
  match l with
  | [] => [string_of_list_ascii (rev current)]
  | c :: l' =>
      if existsb (Ascii.eqb c) seps
      then string_of_list_ascii (rev current) :: split_chars seps [] l'
      else split_chars seps (c :: current) l'
  end.

Definition split (input : string) (seps : string) : list string :=
  split_chars (list_ascii_of_string seps) [] (list_ascii_of_string input).

(** The characters [trim_ws] takes off: space, tab, carriage return and
    line feed ([" \t\r\n"]). *)
Definition trimmed_char (c : ascii) : bool :=
  let n := nat_of_ascii c in
  Nat.eqb n 32 || Nat.eqb n 9 || Nat.eqb n 13 || Nat.eqb n 10.

Fixpoint trim_left (s : string) : string :=
  match s with
  | EmptyString => EmptyString
  | String c s' => if trimmed_char c then trim_left s' else s
  end.

Fixpoint trim_right (s : string) : string :=
  match s with
  | EmptyString => EmptyString
  | String c s' =>
      match trim_right s' with
      | EmptyString => if trimmed_char c then EmptyString else String c EmptyString
      | t => String c t
      end
  end.

(** [trim_ws] of the config-file reader. *)
Definition trim_ws (s : string) : string := trim_right (trim_left s).

(** The part of [s] before the first [c], and the part after it if any. *)
Fixpoint cut_at (c : ascii) (s : string) : string * option string :=
  match s with
  | EmptyString => (EmptyString, None)
  | String d s' =>
      if Ascii.eqb d c then (EmptyString, Some s')
      else let (before, after) := cut_at c s' in (String d before, after)
  end.

Fixpoint last_char (s : string) : option ascii :=
  match s with
  | EmptyString => None
  | String c EmptyString => Some c
  | String _ s' => last_char s'
  end.

(** The lines [std::getline] reads from a stream holding [s]. *)
Fixpoint lines_from (current : list ascii) (l : list ascii) : list string :=
  match l with
  | [] => match current with
          | [] => []
          | _ :: _ => [string_of_list_ascii (rev current)]
          end
  | c :: l' =>
      if Ascii.eqb c newline
      then string_of_list_ascii (rev current) :: lines_from [] l'
      else lines_from (c :: current) l'
  end.

Definition getlines (s : string) : list string :=
  lines_from [] (list_ascii_of_string s).

(** [os << path]: the pathname between double quotes, with [&] as escape. *)
Fixpoint quoted_chars (s : string) : string :=
  match s with
  | EmptyString => EmptyString
  | String c s' =>
      if Ascii.eqb c double_quote || Ascii.eqb c "&"%char
      then String "&"%char (String c (quoted_chars s'))
      else String c (quoted_chars s')
  end.

Definition quoted (p : bfs.path) : string :=
  String double_quote (quoted_chars p ++ String double_quote EmptyString).

(** ** Reading a config file ([bpo::parse_config_file])

    After [config_file.cpp]: a line loses its [#] comment and the white space
    around it; an empty line is skipped, [[name]] opens a section, [key =
    value] is an option, and anything else is a syntax error. *)

Module bpo_detail.

Definition strip_comment (line : string) : string := fst (cut_at "#"%char line).

Definition is_section (s : string) : bool :=
  match s with
  | String "["%char _ =>
      match last_char s with
      | Some c => Ascii.eqb c "]"%char
      | None => false
      end
  | _ => false
  end.

Definition section_prefix (s : string) : string :=
  let inner := substring 1 (String.length s - 2) s in
  match last_char inner with
  | Some "."%char => inner
  | _ => (inner ++ ".")%string
  end.

(** [common_config_file_iterator::get], run to the end of the stream. *)
Fixpoint config_file_options (allowed_options : list string)
    (allow_unregistered : bool) (m_prefix : string) (lines : list string)
  : result (list bpo.basic_option) :=
  match lines with
  | [] => Ok []
  | line :: rest =>
      let s := trim_ws (strip_comment line) in
      if string_is_empty s
      then config_file_options allowed_options allow_unregistered m_prefix rest
      else if is_section s
      then config_file_options allowed_options allow_unregistered
             (section_prefix s) rest
      else
        match cut_at "="%char s with
        | (before, Some after) =>
            let key := (m_prefix ++ trim_ws before)%string in
            let val := trim_ws after in
            let is_registered := mem_string key allowed_options in
            if negb is_registered && negb allow_unregistered
            then Throw (program_options_error ("unrecognised option '" ++ key ++ "'"))
            else
              (more <-- config_file_options allowed_options allow_unregistered
                          m_prefix rest;
               Ok ({| bpo.string_key := key; bpo.value := [val];
                      bpo.unregistered := negb is_registered |} :: more))%result
        | (_, None) =>
            Throw (program_options_error ("the options configuration file contains an invalid line '" ++ s ++ "'"))
        end
  end.

End bpo_detail.

(** [bpo::parse_config_file<char>(filename, desc, allow_unregistered)]. *)
Definition parse_config_file (fs : bfs.filesystem) (filename : bfs.path)
    (desc : bpo.options_description) (allow_unregistered : bool)
  : result bpo.parsed_options :=
  match bfs.read_file fs filename with
  | None =>
      Throw (program_options_error ("can not read options configuration file '" ++ filename ++ "'"))
  | Some content =>
      if existsb (fun d => string_is_empty (bpo.long_name d)) desc
      then Throw (program_options_error "abbreviated option names are not permitted in options configuration files")
      else
        (os <-- bpo_detail.config_file_options (map bpo.long_name desc)
                  allow_unregistered "" (getlines content);
         Ok {| bpo.options := os |})%result
  end.

(** ** application.cpp: the option schema *)

(** The comparator [register_any_type<T>] stores: both operands are cast to
    [T] and compared with [==]. *)
Definition any_equal (T : type_index) : comparator :=
  fun a b =>
    match T, a, b with
    | ti_string, any_string x, any_string y => Ok (String.eqb x y)
    | ti_bool, any_bool x, any_bool y => Ok (Bool.eqb x y)
    | ti_uint32, any_uint32 x, any_uint32 y => Ok (Z.eqb x y)
    | ti_uint64, any_uint64 x, any_uint64 y => Ok (Z.eqb x y)
    | ti_int, any_int x, any_int y => Ok (Z.eqb x y)
    | ti_double, any_double x, any_double y => Ok (SFeqb x y)
    | ti_vector_string, any_vector_string x, any_vector_string y =>
        Ok (list_string_eqb x y)
    | ti_path, any_path x, any_path y =>
        Ok (match bfs.compare x y with Eq => true | _ => false end)
    | _, _, _ => Throw bad_any_cast
    end.

Fixpoint compare_map_find (T : type_index) (cm : any_type_compare_map)
  : option comparator :=
  match cm with
  | [] => None
  | (T', cmp) :: cm' =>
      if type_index_eqb T T' then Some cmp else compare_map_find T cm'
  end.

(** [unordered_map::emplace]: nothing happens when the key is present. *)
Definition emplace (T : type_index) (cmp : comparator)
    (cm : any_type_compare_map) : any_type_compare_map :=
  match compare_map_find T cm with
  | Some _ => cm
  | None => cm ++ [(T, cmp)]
  end.

(** [unordered_map::at]. *)
Definition compare_map_at (cm : any_type_compare_map) (T : type_index)
  : result comparator :=
  match compare_map_find T cm with
  | Some cmp => Ok cmp
  | None => Throw (out_of_range "unordered_map::at")
  end.

(** [application_impl::register_any_type<T>]. *)
Definition register_any_type (T : type_index) (impl : application_impl)
  : application_impl :=
  {| _app_options := _app_options impl; _cfg_options := _cfg_options impl;
     _data_dir := _data_dir impl; _config_dir := _config_dir impl;
     _logging_conf := _logging_conf impl; _version := _version impl;
     _any_compare_map := emplace T (any_equal T) (_any_compare_map impl) |}.

(** The constructor [application_impl::application_impl]; [_version] has no
    initializer, so the value it starts with is the caller's. *)
Definition new_application_impl (version : Z) : application_impl :=
  register_any_type ti_path
  (register_any_type ti_vector_string
  (register_any_type ti_double
  (register_any_type ti_int
  (register_any_type ti_uint64
  (register_any_type ti_uint32
  (register_any_type ti_bool
  (register_any_type ti_string
     {| _app_options := []; _cfg_options := [];
        _data_dir := "data-dir"; _config_dir := "config-dir";
        _logging_conf := "logging.json"; _version := version;
        _any_compare_map := [] |}))))))).

(** [application::application]. *)
Definition new_application (version : Z) : application :=
  {| my := new_application_impl version; plugins := [];
     initialized_plugins := []; running_plugins := [];
     io_serv := Some {| io_stopped := false |} |}.

Definition make_option (long : string) (sem : bpo.value_semantic)
    (desc : string) : bpo.option_description :=
  {| bpo.long_name := long; bpo.description := desc; bpo.semantic := sem |}.

(** "Application Config Options". *)
Definition app_cfg_opts : bpo.options_description :=
  [ make_option "plugin" (bpo.composing (bpo.typed_value bpo.validate_vector_string))
      "Plugin(s) to enable, may be specified multiple times" ].

(** "Application Command Line Options". *)
Definition app_cli_opts : bpo.options_description :=
  [ make_option "help" bpo.untyped_value "Print this help message and exit.";
    make_option "version" bpo.untyped_value "Print version information.";
    make_option "print-default-config" bpo.untyped_value
      "Print default configuration template";
    make_option "data-dir" (bpo.typed_value bpo.validate_string)
      "Directory containing program runtime data";
    make_option "config-dir" (bpo.typed_value bpo.validate_string)
      "Directory containing configuration files such as config.ini";
    make_option "config"
      (bpo.default_value (any_string "config.ini") "config.ini"
         (bpo.typed_value bpo.validate_string))
      "Configuration file name relative to config-dir";
    make_option "logconf"
      (bpo.default_value (any_string "logging.json") "logging.json"
         (bpo.typed_value bpo.validate_string))
      "Logging configuration file name/path for library users" ].

Definition set_options (app_options cfg_options : bpo.options_description)
    (impl : application_impl) : application_impl :=
  {| _app_options := app_options; _cfg_options := cfg_options;
     _data_dir := _data_dir impl; _config_dir := _config_dir impl;
     _logging_conf := _logging_conf impl; _version := _version impl;
     _any_compare_map := _any_compare_map impl |}.

(** The body of the loop of [application::set_program_options]. *)
Definition add_plugin_options (impl : application_impl)
    (plug : string * abstract_plugin) : application_impl :=
  let (plugin_cli_opts, plugin_cfg_opts) :=
    plugin_set_program_options (snd plug) in
  let impl1 :=
    match plugin_cfg_opts with
    | [] => impl
    | _ :: _ => set_options (_app_options impl ++ plugin_cfg_opts)
                            (_cfg_options impl ++ plugin_cfg_opts) impl
    end in
  match plugin_cli_opts with
  | [] => impl1
  | _ :: _ => set_options (_app_options impl1 ++ plugin_cli_opts)
                          (_cfg_options impl1) impl1
  end.

(** [application::set_program_options]. *)
Definition set_program_options : M unit :=
  modify (with_app (fun a =>
    with_my (fun impl =>
      let impl1 := fold_left add_plugin_options (plugins a) impl in
      set_options (_app_options impl1 ++ app_cfg_opts ++ app_cli_opts)
                  (_cfg_options impl1 ++ app_cfg_opts) impl1) a)).

(** ** application.cpp: the default-config template *)

(** A [std::ostream], as the text written to it so far. *)
Definition ostream := string.

(** The first loop of [print_default_config]: which plugin declared each
    config option. *)
Definition option_to_plug_of (registry : smap abstract_plugin) : smap string :=
  fold_left
    (fun acc plug =>
       fold_left
         (fun acc' opt => smap_set (bpo.long_name opt) (name (snd plug)) acc')
         (snd (plugin_set_program_options (snd plug))) acc)
    registry [].

(** The body of the second loop of [print_default_config]. *)
Definition print_option (option_to_plug : smap string)
    (od : bpo.option_description) (os : ostream) : result unit * ostream :=
  let os1 :=
    if string_is_empty (bpo.description od) then os
    else
      (os ++ "# " ++ replace_all (bpo.description od) newline (String newline "# ")
          ++ match smap_find (bpo.long_name od) option_to_plug with
             | Some plug => " (" ++ plug ++ ")"
             | None => ""
             end
          ++ endl)%string in
  match bpo.apply_default (bpo.semantic od) with
  | None =>
      (Ok tt, (os1 ++ "# " ++ bpo.long_name od ++ " = " ++ endl ++ endl)%string)
  | Some store =>
      let example := bpo.format_parameter od in
      if string_is_empty example
      then (Ok tt, (os1 ++ "# " ++ bpo.long_name od ++ " = " ++ "false"
                        ++ endl ++ endl)%string)
      else if type_index_eqb (boost.type store) ti_bool
      then (Ok tt, (os1 ++ "# " ++ bpo.long_name od ++ " = "
                        ++ match store with
                           | any_bool true => "true"
                           | _ => "false"
                           end
                        ++ endl ++ endl)%string)
      else
        match
          (example1 <-- string_erase example 0 6;
           string_erase example1
             ((Z.of_nat (String.length example1) - 1) mod 2 ^ 64)%Z
             size_max)%result
        with
        | Ok example2 =>
            (Ok tt, (os1 ++ "# " ++ bpo.long_name od ++ " = " ++ example2
                         ++ endl ++ endl)%string)
        | Throw e => (Throw e, os1)
        end
  end.

Fixpoint print_options (option_to_plug : smap string)
    (ods : list bpo.option_description) (os : ostream) : result unit * ostream :=
  match ods with
  | [] => (Ok tt, os)
  | od :: rest =>
      match print_option option_to_plug od os with
      | (Ok _, os') => print_options option_to_plug rest os'
      | (Throw e, os') => (Throw e, os')
      end
  end.

(** [application::print_default_config(os)]. *)
Definition print_default_config (a : application) (os : ostream)
  : result unit * ostream :=
  print_options (option_to_plug_of (plugins a)) (_cfg_options (my a)) os.

(** [print_default_config(cout)]. *)
Definition print_default_config_cout : M unit :=
  fun s =>
    let (r, os) := print_default_config (the_app s) (cout s) in
    (r, with_cout (fun _ => os) s).

(** [application::write_default_config]; the stream opens the file empty and
    whatever was printed is in it when the stream goes away. *)
Definition write_default_config (cfg_file : bfs.path) : M unit :=
  parent_exists <- gets (fun s => bfs.exists_ (filesystem s) (bfs.parent_path cfg_file)) ;;
  (if parent_exists then ret tt
   else modify (with_filesystem (bfs.create_directories (bfs.parent_path cfg_file)))) ;;
  fun s =>
    let (r, text) := print_default_config (the_app s) "" in
    (r, with_filesystem (bfs.write_file (bfs.make_preferred cfg_file) text) s).

(** ** application.cpp: values redundantly set to their default *)

(** [type_info::name()], in the Itanium C++ ABI. *)
Definition type_name (T : type_index) : string :=
  match T with
  | ti_void => "v"
  | ti_string => "NSt7__cxx1112basic_stringIcSt11char_traitsIcESaIcEEE"
  | ti_bool => "b"
  | ti_uint32 => "j"
  | ti_uint64 => "m"
  | ti_int => "i"
  | ti_double => "d"
  | ti_vector_string =>
      "St6vectorINSt7__cxx1112basic_stringIcSt11char_traitsIcESaIcEEESaIS5_EE"
  | ti_path => "N5boost10filesystem4pathE"
  | ti_other mangled => mangled
  end.

Definition printf (text : string) : M unit :=
  modify (with_cout (fun os => os ++ text)%string).

Definition cerr_print (text : string) : M unit :=
  modify (with_cerr (fun os => os ++ text)%string).

Definition cout_print (text : string) : M unit :=
  modify (with_cout (fun os => os ++ text)%string).

(** The option of the parsed config file the inner loop stops at: the first
    one whose key is the long name. *)
Fixpoint first_with_key (key : string) (opts : list bpo.basic_option)
  : option bpo.basic_option :=
  match opts with
  | [] => None
  | opt :: opts' =>
      if String.eqb (bpo.string_key opt) key then Some opt
      else first_with_key key opts'
  end.

(** The body of the loop over [my->_cfg_options.options()], lines 201-221. *)
Definition check_set_but_default (opts_from_config : bpo.parsed_options)
    (set_but_default_list : list string) (od : bpo.option_description)
  : M (list string) :=
  match bpo.apply_default (bpo.semantic od) with
  | None => ret set_but_default_list
  | Some default_val =>
      match first_with_key (bpo.long_name od) (bpo.options opts_from_config) with
      | None => ret set_but_default_list
      | Some opt =>
          config_val <- lift (bpo.parse (bpo.semantic od) any_empty (bpo.value opt)) ;;
          cm <- gets (fun s => _any_compare_map (my (the_app s))) ;;
          try_catch
            (cmp <- lift (compare_map_at cm (boost.type default_val)) ;;
             same <- lift (cmp default_val config_val) ;;
             ret (if same : bool
                  then set_but_default_list ++ [bpo.string_key opt]
                  else set_but_default_list))
            (fun e =>
               match e with
               | out_of_range _ =>
                   printf ("!!config item's " ++ bpo.string_key opt ++ " type ("
                           ++ type_name (boost.type default_val)
                           ++ ") is not registered for default comparison!" ++ endl) ;;
                   ret set_but_default_list
               | _ => throw e
               end)
      end
  end.

Fixpoint collect_set_but_default (opts_from_config : bpo.parsed_options)
    (set_but_default_list : list string) (ods : list bpo.option_description)
  : M (list string) :=
  match ods with
  | [] => ret set_but_default_list
  | od :: rest =>
      l <- check_set_but_default opts_from_config set_but_default_list od ;;
      collect_set_but_default opts_from_config l rest
  end.

(** The names on the warning's lines, lines 226-235; [chars_on_line] counts
    the characters of the names since the last line break. *)
Fixpoint print_set_but_default (l : list string) (chars_on_line : nat) : string :=
  match l with
  | [] => ""
  | it :: rest =>
      let sep := match rest with [] => "" | _ :: _ => ", " end in
      let n := chars_on_line + String.length it in
      if Nat.ltb 65 n
      then it ++ sep ++ endl ++ "             " ++ print_set_but_default rest 0
      else it ++ sep ++ print_set_but_default rest n
  end.

(** Lines 222-239. *)
Definition warn_set_but_default (set_but_default_list : list string) : M unit :=
  match set_but_default_list with
  | [] => ret tt
  | _ :: _ =>
      cerr_print
        ("APPBASE: Warning: The following configuration items in the config.ini file are redundantly set to" ++ endl
         ++ "         their default value:" ++ endl
         ++ "             "
         ++ print_set_but_default set_but_default_list 0
         ++ endl
         ++ "         Explicit values will override future changes to application defaults. Consider commenting out or" ++ endl
         ++ "         removing these items." ++ endl)
  end.

(** ** application.cpp: initialization *)

(** The separators [" \t,"] of [--plugin]. *)
Definition plugin_separators : string := String " "%char (String tab ",").

(** Lines 241-251: the plugins named by the [plugin] option. *)
Definition initialize_named_plugins (options : bpo.variables_map) : M unit :=
  if Nat.ltb 0 (bpo.count options "plugin")
  then
    x <- lift (bpo.at_ options "plugin") ;;
    plugin_args <- lift (bpo.as_vector_string x) ;;
    for_each
      (fun arg =>
         for_each
           (fun nm => p <- get_plugin nm ;; abstract_plugin_initialize options p)
           (split arg plugin_separators))
      plugin_args
  else ret tt.

(** The body of the loop over [autostart_plugins], lines 253-255. *)
Definition initialize_if_registered (options : bpo.variables_map)
    (plugin : option abstract_plugin) : M unit :=
  match plugin with
  | None => ret tt
  | Some p =>
      st <- get_state p ;;
      match st with
      | registered => abstract_plugin_initialize options p
      | _ => ret tt
      end
  end.

(** Lines 252-263: the autostart plugins and [bpo::notify], inside the
    [try] whose handler reports and gives up. *)
Definition initialize_autostart_plugins (options : bpo.variables_map)
    (autostart_plugins : list (option abstract_plugin)) : M bool :=
  try_catch
    (for_each (initialize_if_registered options) autostart_plugins ;;
     lift (bpo.notify_all options) ;;
     ret true)
    (fun _ => cerr_print ("Failed to initialize" ++ endl) ;; ret false).

(** Lines 241-263: both ways a plugin gets initialized. *)
Definition activate_plugins (options : bpo.variables_map)
    (autostart_plugins : list (option abstract_plugin)) : M bool :=
  initialize_named_plugins options ;;
  initialize_autostart_plugins options autostart_plugins.

(** Lines 196-263: from reading the config file to the end. *)
Definition configure (options : bpo.variables_map) (config_file_name : bfs.path)
    (autostart_plugins : list (option abstract_plugin)) : M bool :=
  cfg_options <- gets (fun s => _cfg_options (my (the_app s))) ;;
  fs <- gets filesystem ;;
  opts_from_config <-
    lift (parse_config_file fs (bfs.make_preferred config_file_name) cfg_options false) ;;
  options' <- lift (bpo.store opts_from_config cfg_options options) ;;
  set_but_default_list <- collect_set_but_default opts_from_config [] cfg_options ;;
  warn_set_but_default set_but_default_list ;;
  activate_plugins options' autostart_plugins.

Definition set_dirs (data_dir config_dir logging_conf : bfs.path)
    (impl : application_impl) : application_impl :=
  {| _app_options := _app_options impl; _cfg_options := _cfg_options impl;
     _data_dir := data_dir; _config_dir := config_dir;
     _logging_conf := logging_conf; _version := _version impl;
     _any_compare_map := _any_compare_map impl |}.

(** Lines 156-166 and 168-174: a directory given on the command line,
    made absolute against the current directory. *)
Definition directory_option (options : bpo.variables_map) (key : string)
    (current : bfs.path) : M bfs.path :=
  if Nat.ltb 0 (bpo.count options key)
  then
    workaround <- lift (bpo.as_string (bpo.get options key)) ;;
    cwd <- gets current_path ;;
    ret (if bfs.is_relative workaround then bfs.append cwd workaround
         else workaround)
  else ret current.

(** Lines 176-185: a file name, relative to the config directory. *)
Definition file_option (options : bpo.variables_map) (key : string) : M bfs.path :=
  workaround <- lift (bpo.as_string (bpo.get options key)) ;;
  config_dir <- gets (fun s => _config_dir (my (the_app s))) ;;
  ret (if bfs.is_relative workaround then bfs.append config_dir workaround
       else workaround).

(** Lines 156-185: the directories and file names of the command line; the
    result is [config_file_name]. *)
Definition resolve_paths (options : bpo.variables_map) : M bfs.path :=
  impl <- gets (fun s => my (the_app s)) ;;
  data_dir <- directory_option options "data-dir" (_data_dir impl) ;;
  modify (with_app (with_my (fun i =>
    set_dirs data_dir (_config_dir i) (_logging_conf i) i))) ;;
  config_dir <- directory_option options "config-dir" (_config_dir impl) ;;
  modify (with_app (with_my (fun i =>
    set_dirs (_data_dir i) config_dir (_logging_conf i) i))) ;;
  logconf <- file_option options "logconf" ;;
  modify (with_app (with_my (fun i =>
    set_dirs (_data_dir i) (_config_dir i) logconf i))) ;;
  file_option options "config".

(** Lines 156-263: after the options that only print. *)
Definition initialize_with_options (options : bpo.variables_map)
    (autostart_plugins : list (option abstract_plugin)) : M bool :=
  config_file_name <- resolve_paths options ;;
  present <- gets (fun s => bfs.exists_ (filesystem s) config_file_name) ;;
  config_dir <- gets (fun s => _config_dir (my (the_app s))) ;;
  if present : bool
  then configure options config_file_name autostart_plugins
  else
    match bfs.compare config_file_name (bfs.append config_dir "config.ini") with
    | Eq =>
        write_default_config config_file_name ;;
        configure options config_file_name autostart_plugins
    | _ =>
        cout_print ("Config file " ++ quoted config_file_name ++ " missing." ++ endl) ;;
        ret false
    end.

Section initialize.

(** [bpo::parse_command_line(argc, argv, desc)]. *)
Variable parse_command_line :
  list string -> bpo.options_description -> result bpo.parsed_options.

(** [os << options_description]: the help text. *)
Variable print_options_description : bpo.options_description -> string.

(** [appbase_version_string] of version.hpp. *)
Variable appbase_version_string : string.

(** [application::version_string]. *)
Definition version_string : M string := ret appbase_version_string.

(** [application::initialize_impl]. *)
Definition initialize_impl (argv : list string)
    (autostart_plugins : list (option abstract_plugin)) : M bool :=
  set_program_options ;;
  app_options <- gets (fun s => _app_options (my (the_app s))) ;;
  cmdline <- lift (parse_command_line argv app_options) ;;
  options <- lift (bpo.store cmdline app_options bpo.empty_variables_map) ;;
  if Nat.ltb 0 (bpo.count options "help")
  then cout_print (print_options_description app_options ++ endl) ;; ret false
  else if Nat.ltb 0 (bpo.count options "version")
  then version <- version_string ;; cout_print (version ++ endl) ;; ret false
  else if Nat.ltb 0 (bpo.count options "print-default-config")
  then print_default_config_cout ;; ret false
  else initialize_with_options options autostart_plugins.

End initialize.

(** ** Vocabulary of the statements about the merge *)

(** The option [o] is one [store] acts on for [key]. *)
Definition explicit (key : string) (o : bpo.basic_option) : bool :=
  String.eqb (bpo.string_key o) key && negb (bpo.unregistered o).

(** The token lists a source gives for [key], in order. *)
Definition given (opts : bpo.parsed_options) (key : string) : list (list string) :=
  map bpo.value (filter (explicit key) (bpo.options opts)).

(** The value a semantic makes of several occurrences, from [x] on. *)
Fixpoint parse_all (sem : bpo.value_semantic) (x : any)
    (occurrences : list (list string)) : result any :=
  match occurrences with
  | [] => Ok x
  | tokens :: rest =>
      (x' <-- bpo.parse sem x tokens; parse_all sem x' rest)%result
  end.

(** The default the schema declares for [key]. *)
Fixpoint declared_default (desc : bpo.options_description) (key : string)
  : option any :=
  match desc with
  | [] => None
  | d :: desc' =>
      if String.eqb (bpo.long_name d) key
      then match bpo.apply_default (bpo.semantic d) with
           | Some def => Some def
           | None => declared_default desc' key
           end
      else declared_default desc' key
  end.

(** The resolved value of [key]. *)
Definition resolved (vm : bpo.variables_map) (key : string) : option any :=
  option_map bpo.v (smap_find key (bpo.m vm)).



(** ** Vocabulary of the statements about plugin activation *)

(** The [_state] of the plugin object named [nm]. *)
Definition state_of (nm : string) (s : process) : state :=
  match smap_find nm (plugin_states s) with
  | Some st => st
  | None => registered
  end.

Definition is_registered (st : state) : bool :=
  match st with registered => true | _ => false end.

(** What [initialize] does to the process when the hook returns. *)
Definition initialize_effect (s : process) (p : abstract_plugin) : process :=
  if is_registered (state_of (name p) s)
  then
    with_app (fun a =>
      {| my := my a; plugins := plugins a;
         initialized_plugins := initialized_plugins a ++ [p];
         running_plugins := running_plugins a; io_serv := io_serv a |})
      (with_plugin_states (smap_set (name p) initialized)
         (with_trace (fun t => t ++ [ev_initialize (name p)]) s))
  else s.

(** How many times the initialize hook of [nm] ran. *)
Fixpoint count_initialize (nm : string) (t : list event) : nat :=
  match t with
  | [] => 0
  | ev_initialize n :: t' =>
      (if String.eqb n nm then 1 else 0) + count_initialize nm t'
  | _ :: t' => count_initialize nm t'
  end.

(** The names the values of [--plugin] hold. *)
Definition plugin_names (args : list string) : list string :=
  flat_map (fun arg => split arg plugin_separators) args.

(** The plugins behind the non-null pointers of the autostart list. *)
Fixpoint non_null (l : list (option abstract_plugin)) : list abstract_plugin :=
  match l with
  | [] => []
  | Some p :: l' => p :: non_null l'
  | None :: l' => non_null l'
  end.

(** The body of the inner loop of lines 248-249. *)
Definition initialize_by_name (options : bpo.variables_map) (nm : string)
  : M unit :=
  p <- get_plugin nm ;; abstract_plugin_initialize options p.

(** The value [store] parses the next occurrence onto. *)
Definition start_value (xm : bpo.variables_map) (key : string) : any :=
  if bpo.m_defaulted (bpo.get xm key) then any_empty else bpo.v (bpo.get xm key).

(** ** Vocabulary of the statements about the template *)

(** Where a reader of the template is: at the start of a line, or inside a
    comment that runs to the end of the line. *)
Inductive position : Type := line_start | in_comment.

(** Reading [s] from a position; [None] when a line starts with anything
    but [#]. *)
Fixpoint scan (at_ : position) (s : string) : option position :=
  match s with
  | EmptyString => Some at_
  | String c s' =>
      if Ascii.eqb c newline then scan line_start s'
      else
        match at_ with
        | in_comment => scan in_comment s'
        | line_start =>
            if Ascii.eqb c "#"%char then scan in_comment s' else None
        end
  end.

Fixpoint no_newline (s : string) : bool :=
  match s with
  | EmptyString => true
  | String c s' => negb (Ascii.eqb c newline) && no_newline s'
  end.

(** The text of the template does not leave its comments: no long name, no
    parameter text and no plugin name holds a line break. *)
Definition single_line_schema (a : application) : Prop :=
  (forall od, In od (_cfg_options (my a)) ->
     no_newline (bpo.long_name od) = true /\
     no_newline (bpo.name (bpo.semantic od)) = true) /\
  (forall kv, In kv (plugins a) -> no_newline (name (snd kv)) = true).

(** The values a map holds after the defaults of [desc] alone. *)
Definition defaults_only (desc : bpo.options_description) : bpo.variables_map :=
  fold_left bpo.store_default desc bpo.empty_variables_map.

(** ** A small host for concrete runs *)

(** A command line of [--name=value] and [--name] tokens, [argv[0]] left
    out; the stand-in for [bpo::parse_command_line] in the runs below. *)
Fixpoint parse_long_options (argv : list string) (desc : bpo.options_description)
  : result bpo.parsed_options :=
  match argv with
  | [] => Ok {| bpo.options := [] |}
  | String "-"%char (String "-"%char token) :: argv' =>
      let (key, val) := cut_at "="%char token in
      if mem_string key (map bpo.long_name desc)
      then
        (rest <-- parse_long_options argv' desc;
         Ok {| bpo.options :=
                 {| bpo.string_key := key;
                    bpo.value := match val with Some x => [x] | None => [] end;
                    bpo.unregistered := false |} :: bpo.options rest |})%result
      else Throw (program_options_error ("unrecognised option '--" ++ key ++ "'"))
  | token :: _ =>
      Throw (program_options_error ("too many positional options: '" ++ token ++ "'"))
  end.

(** A plugin whose hooks return, with the config options it declares. *)
Definition quiet_plugin (nm : string) (cfg : bpo.options_description)
  : abstract_plugin :=
  {| name := nm; plugin_set_program_options := ([], cfg);
     plugin_initialize := fun _ => None;
     plugin_startup := None; plugin_shutdown := None |}.

(** A plugin whose hooks throw where an exception is given. *)
Definition throwing_plugin (nm : string) (on_initialize on_startup on_shutdown : option exception)
  : abstract_plugin :=
  {| name := nm; plugin_set_program_options := ([], []);
     plugin_initialize := fun _ => on_initialize;
     plugin_startup := on_startup; plugin_shutdown := on_shutdown |}.

(** The application with [registry] registered and nothing initialized. *)
Definition host (registry : list abstract_plugin) : application :=
  {| my := new_application_impl 0;
     plugins := fold_left (fun m p => smap_set (name p) p m) registry [];
     initialized_plugins := []; running_plugins := [];
     io_serv := Some {| io_stopped := false |} |}.

(** A process about to call [initialize_impl], with the files given. *)
Definition fresh_process (registry : list abstract_plugin)
    (files : smap string) : process :=
  {| the_app := host registry; plugin_states := [];
     filesystem := {| bfs.files := files; bfs.directories := ["config-dir"] |};
     current_path := "/home/user"; cout := ""; cerr := ""; trace := [] |}.

(** A process in which [running] were initialized and started, in order. *)
Definition running_process (running : list abstract_plugin) : process :=
  {| the_app :=
       {| my := new_application_impl 0;
          plugins := fold_left (fun m p => smap_set (name p) p m) running [];
          initialized_plugins := running; running_plugins := running;
          io_serv := Some {| io_stopped := false |} |};
     plugin_states := fold_left (fun m p => smap_set (name p) started m) running [];
     filesystem := {| bfs.files := []; bfs.directories := [] |};
     current_path := "/home/user"; cout := ""; cerr := ""; trace := [] |}.

(** A process in which [ready] were initialized, in order, and none started. *)
Definition initialized_process (ready : list abstract_plugin) : process :=
  {| the_app :=
       {| my := new_application_impl 0;
          plugins := fold_left (fun m p => smap_set (name p) p m) ready [];
          initialized_plugins := ready; running_plugins := [];
          io_serv := Some {| io_stopped := false |} |};
     plugin_states := fold_left (fun m p => smap_set (name p) initialized m) ready [];
     filesystem := {| bfs.files := []; bfs.directories := [] |};
     current_path := "/home/user"; cout := ""; cerr := ""; trace := [] |}.

(** [initialize_impl] of the small host. *)
Definition run_initialize_impl (argv : list string)
    (autostart_plugins : list (option abstract_plugin)) : M bool :=
  initialize_impl parse_long_options (fun _ => "") "appbase 1.0" argv
    autostart_plugins.

(** The options of the examples in the specification. *)
Definition option_foo : bpo.option_description :=
  make_option "foo"
    (bpo.default_value (any_bool false) "0" (bpo.typed_value bpo.validate_bool))
    "A switch".

Definition option_bar : bpo.option_description :=
  make_option "bar"
    (bpo.default_value (any_int 10) "10" (bpo.typed_value bpo.validate_int))
    "A number".

Definition plugin_A : abstract_plugin := quiet_plugin "A" [option_foo].
Definition plugin_B : abstract_plugin := quiet_plugin "B" [option_bar].
Definition plugin_C : abstract_plugin := quiet_plugin "C" [].

(** The host with plugin B alone, its schema built. *)
Definition bar_process : process :=
  snd (set_program_options (fresh_process [plugin_B] [])).

(** A parsed config file of the one line [bar = text]. *)
Definition bar_line (text : string) : bpo.basic_option :=
  {| bpo.string_key := "bar"; bpo.value := [text]; bpo.unregistered := false |}.

Definition bar_config (text : string) : bpo.parsed_options :=
  {| bpo.options := [bar_line text] |}.

(** The types [application_impl] registers a comparator for. *)
Definition registered_type (T : type_index) : bool :=
  match T with
  | ti_string | ti_bool | ti_uint32 | ti_uint64 | ti_int | ti_double
  | ti_vector_string | ti_path => true
  | ti_void | ti_other _ => false
  end.

(** The line [printf] writes for an option whose type has no comparator. *)
Definition not_registered_warning (opt : bpo.basic_option) (default_val : any)
  : string :=
  "!!config item's " ++ bpo.string_key opt ++ " type ("
  ++ type_name (boost.type default_val)
  ++ ") is not registered for default comparison!" ++ endl.

(** An option whose value is of a type of the plugin's own. *)
Definition option_level : bpo.option_description :=
  make_option "level"
    (bpo.default_value (any_other "9log_level" "info") "info"
       (bpo.typed_value (fun _ xs =>
          (s <-- bpo.get_single_string xs false;
           Ok (any_other "9log_level" s))%result)))
    "A level".

Definition level_process : process :=
  snd (set_program_options (fresh_process [quiet_plugin "L" [option_level]] [])).

Definition level_line : bpo.basic_option :=
  {| bpo.string_key := "level"; bpo.value := ["info"]; bpo.unregistered := false |}.

(** A plugin whose initialize hook throws. *)
Definition plugin_bad : abstract_plugin :=
  throwing_plugin "bad" (Some (plugin_error "boom")) None None.

(** The resolved options in which [--plugin] holds [args]. *)
Definition options_with_plugins (args : list string) : bpo.variables_map :=
  {| bpo.m :=
       [("plugin",
         {| bpo.v := any_vector_string args; bpo.m_defaulted := false;
            bpo.m_value_semantic := None |})];
     bpo.m_final := []; bpo.m_required := [] |}.

(** The resolved options of a command line that names a config file. *)
Definition options_with_config (file : string) : bpo.variables_map :=
  {| bpo.m :=
       [("config",
         {| bpo.v := any_string file; bpo.m_defaulted := false;
            bpo.m_value_semantic := None |});
        ("logconf",
         {| bpo.v := any_string "logging.json"; bpo.m_defaulted := true;
            bpo.m_value_semantic := None |})];
     bpo.m_final := ["config"]; bpo.m_required := [] |}.

(** [initialize_impl] with the throwing plugin in the autostart list. *)
Definition bad_autostart_run : result bool * process :=
  run_initialize_impl [] [Some plugin_bad] (fresh_process [plugin_bad] []).

(** A plugin whose startup hook throws, and one whose shutdown hook does. *)
Definition plugin_no_start : abstract_plugin :=
  throwing_plugin "X" None (Some (plugin_error "no start")) None.

Definition plugin_no_stop : abstract_plugin :=
  throwing_plugin "Y" None None (Some (plugin_error "no stop")).

(** The schema, the command line and the config file of the precedence
    example: [foo] defaults to false, the file says true, the command line
    says false. *)
Definition foo_cfg_options : bpo.options_description :=
  option_foo :: app_cfg_opts.

Definition foo_app_options : bpo.options_description :=
  option_foo :: app_cfg_opts ++ app_cli_opts.

Definition one_option (key text : string) : bpo.parsed_options :=
  {| bpo.options :=
       [{| bpo.string_key := key; bpo.value := [text];
           bpo.unregistered := false |}] |}.

(** The command line stored, then the config file. *)
Definition merged (app_options cfg_options : bpo.options_description)
    (cmdline from_config : bpo.parsed_options) : result bpo.variables_map :=
  (vm1 <-- bpo.store cmdline app_options bpo.empty_variables_map;
   bpo.store from_config cfg_options vm1)%result.

(** The map after the command line [--foo=false], and after the config
    file [foo = true] as well. *)
Definition foo_vm1 : bpo.variables_map :=
  match bpo.store (one_option "foo" "false") foo_app_options
          bpo.empty_variables_map with
  | Ok vm => vm
  | Throw _ => bpo.empty_variables_map
  end.

Definition foo_vm2 : bpo.variables_map :=
  match bpo.store (one_option "foo" "true") foo_cfg_options foo_vm1 with
  | Ok vm => vm
  | Throw _ => bpo.empty_variables_map
  end.

(** The resolved paths of a command line that names a config file. *)
Definition resolved_process (file : string) : process :=
  snd (resolve_paths (options_with_config file) (fresh_process [plugin_A] [])).

(** A string option whose default is two lines long, as
    [bpo::value<std::string>()->default_value("hello\nworld")] declares. *)
Definition two_lines : string := "hello" ++ endl ++ "world".

Definition option_motd : bpo.option_description :=
  make_option "motd"
    (bpo.default_value (any_string two_lines) two_lines
       (bpo.typed_value bpo.validate_string))
    "Message of the day".

(** A string option whose default is the empty string, as
    [bpo::value<std::string>()->default_value("")] declares. *)
Definition option_tag : bpo.option_description :=
  make_option "tag"
    (bpo.default_value (any_string "") "" (bpo.typed_value bpo.validate_string))
    "Tag".

(** The application with one plugin that declares [od], its schema built. *)
Definition app_with_option (od : bpo.option_description) : application :=
  the_app (snd (set_program_options (fresh_process [quiet_plugin "P" [od]] []))).

(** The host with one plugin that declares [tag], its schema built. *)
Definition tag_process : process :=
  snd (set_program_options (fresh_process [quiet_plugin "P" [option_tag]] [])).

(** The file system that holds [text] as [config.ini]. *)
Definition config_ini (text : string) : bfs.filesystem :=
  {| bfs.files := [("config.ini", text)]; bfs.directories := [] |}.

(** ** application.cpp: the accessors *)

(** [application::set_version]. *)
Definition set_version (version : Z) : M unit :=
  modify (with_app (with_my (fun i =>
    {| _app_options := _app_options i; _cfg_options := _cfg_options i;
       _data_dir := _data_dir i; _config_dir := _config_dir i;
       _logging_conf := _logging_conf i; _version := version;
       _any_compare_map := _any_compare_map i |}))).

(** [application::version]. *)
Definition version : M Z := gets (fun s => _version (my (the_app s))).

(** [application::set_default_data_dir]. *)
Definition set_default_data_dir (data_dir : bfs.path) : M unit :=
  modify (with_app (with_my (fun i =>
    set_dirs data_dir (_config_dir i) (_logging_conf i) i))).

(** [application::set_default_config_dir]. *)
Definition set_default_config_dir (config_dir : bfs.path) : M unit :=
  modify (with_app (with_my (fun i =>
    set_dirs (_data_dir i) config_dir (_logging_conf i) i))).

(** [application::get_logging_conf]. *)
Definition get_logging_conf : M bfs.path :=
  gets (fun s => _logging_conf (my (the_app s))).

(** [application::data_dir]. *)
Definition data_dir : M bfs.path := gets (fun s => _data_dir (my (the_app s))).

(** [application::config_dir]. *)
Definition config_dir : M bfs.path := gets (fun s => _config_dir (my (the_app s))).

(** ** Vocabulary of the statements about the rest of the file *)

(** The application object [shutdown] leaves behind. *)
Definition cleared (a : application) : application :=
  {| my := my a; plugins := []; initialized_plugins := [];
     running_plugins := []; io_serv := None |}.

(** The options the plugins of a registry declare, in registry order: what
    one call of [set_program_options] adds for them to [_cfg_options] and to
    [_app_options]. *)
Definition plugin_cfg_options (registry : smap abstract_plugin)
  : bpo.options_description :=
  flat_map (fun plug => snd (plugin_set_program_options (snd plug))) registry.

Definition plugin_app_options (registry : smap abstract_plugin)
  : bpo.options_description :=
  flat_map (fun plug => snd (plugin_set_program_options (snd plug))
                        ++ fst (plugin_set_program_options (snd plug)))
    registry.

(** The plugin declares a config option of the long name [key]. *)
Definition declares (plug : abstract_plugin) (key : string) : bool :=
  existsb (fun opt => String.eqb (bpo.long_name opt) key)
    (snd (plugin_set_program_options plug)).

(** The option is one whose parameter text the two [erase] calls of
    [print_default_config] are applied to. *)
Definition erased_parameter (od : bpo.option_description) : bool :=
  match bpo.apply_default (bpo.semantic od) with
  | None => false
  | Some store =>
      negb (string_is_empty (bpo.format_parameter od))
      && negb (type_index_eqb (boost.type store) ti_bool)
  end.

(** ... and its parameter text is too short to be of the form
    ["arg (=...)"]: six characters or fewer. *)
Definition parameter_too_short (od : bpo.option_description) : bool :=
  erased_parameter od && Nat.leb (String.length (bpo.format_parameter od)) 6.

(** The first lines an option gets in the template: its description. *)
Definition description_lines (option_to_plug : smap string)
    (od : bpo.option_description) : string :=
  if string_is_empty (bpo.description od) then ""
  else
    "# " ++ replace_all (bpo.description od) newline (String newline "# ")
    ++ match smap_find (bpo.long_name od) option_to_plug with
       | Some plug => " (" ++ plug ++ ")"
       | None => ""
       end
    ++ endl.

(** The characters of the names of a warning. *)
Definition name_chars (l : list string) : nat :=
  fold_right (fun n acc => String.length n + acc) 0 l.

(** [p] made absolute against [base]: lines 163-164, 171-172, 178-179 and
    184-185. *)
Definition against (base p : bfs.path) : bfs.path :=
  if bfs.is_relative p then bfs.append base p else p.

(** What the resolved options hold for a directory option: nothing, or a
    string. *)
Definition directory_given (options : bpo.variables_map) (key : string)
  : result (option string) :=
  if Nat.ltb 0 (bpo.count options key)
  then (d <-- bpo.as_string (bpo.get options key); Ok (Some d))%result
  else Ok None.

Definition directory_after (given_dir : option string) (cwd current : bfs.path)
  : bfs.path :=
  match given_dir with
  | Some d => against cwd d
  | None => current
  end.

(** How many characters of [l] are separators. *)
Definition count_separators (seps : list ascii) (l : list ascii) : nat :=
  length (filter (fun c => existsb (Ascii.eqb c) seps) l).

(** The command line [--version --data-dir=elsewhere] of the small host,
    parsed and stored. *)
Definition version_argv : list string := ["--version"; "--data-dir=elsewhere"].

Definition version_cmdline : bpo.parsed_options :=
  match parse_long_options version_argv
          (_app_options (my (the_app bar_process))) with
  | Ok c => c
  | Throw _ => {| bpo.options := [] |}
  end.

Definition version_options : bpo.variables_map :=
  match bpo.store version_cmdline (_app_options (my (the_app bar_process)))
          bpo.empty_variables_map with
  | Ok vm => vm
  | Throw _ => bpo.empty_variables_map
  end.

(** * Properties *)

(** ** Containers *)

Lemma type_index_eqb_eq (a b : type_index) : type_index_eqb a b = true <-> a = b.
Proof.
  destruct a, b; simpl; split; intro H;
    try reflexivity; try discriminate H.
  - apply String.eqb_eq in H. now subst.
  - injection H as ->. apply String.eqb_refl.
Qed.

Lemma type_index_eqb_refl (a : type_index) : type_index_eqb a a = true.
Proof. now apply type_index_eqb_eq. Qed.

Lemma list_string_eqb_eq (l1 l2 : list string) :
  list_string_eqb l1 l2 = true <-> l1 = l2.
Proof.
  revert l2; induction l1 as [|x l1 IH]; intros [|y l2]; simpl;
    split; intro H; try reflexivity; try discriminate H.
  - apply andb_true_iff in H as [Hx Hl].
    apply String.eqb_eq in Hx. apply IH in Hl. now subst.
  - injection H as -> ->. rewrite String.eqb_refl. now apply IH.
Qed.

Lemma compare_neq_eqb (a b : string) :
  String.compare a b <> Eq -> String.eqb a b = false.
Proof.
  intro H. apply String.eqb_neq. intros ->. apply H.
  pose proof (String.compare_antisym b b) as Ha.
  destruct (String.compare b b); simpl in Ha; congruence.
Qed.

Lemma smap_find_set_same {T} (k : string) (x : T) (m : smap T) :
  smap_find k (smap_set k x m) = Some x.
Proof.
  induction m as [|[k' x'] m IH]; simpl.
  - now rewrite String.eqb_refl.
  - destruct (String.compare k k') eqn:E; simpl.
    + now rewrite String.eqb_refl.
    + now rewrite String.eqb_refl.
    + rewrite compare_neq_eqb by congruence. exact IH.
Qed.

Lemma smap_find_set_other {T} (k k0 : string) (x : T) (m : smap T) :
  k0 <> k -> smap_find k0 (smap_set k x m) = smap_find k0 m.
Proof.
  intro Hne. apply String.eqb_neq in Hne.
  induction m as [|[k' x'] m IH]; simpl.
  - now rewrite Hne.
  - destruct (String.compare k k') eqn:E; simpl.
    + apply String.compare_eq_iff in E. subst k'. now rewrite Hne.
    + now rewrite Hne.
    + destruct (String.eqb k0 k'); [reflexivity | exact IH].
Qed.

Lemma smap_find_erase_same {T} (k : string) (m : smap T) :
  smap_find k (smap_erase k m) = None.
Proof.
  induction m as [|[k' x'] m IH]; simpl; [reflexivity|].
  destruct (String.eqb k k') eqn:E; simpl; [exact IH|].
  now rewrite E.
Qed.

Lemma mem_string_In (x : string) (l : list string) :
  mem_string x l = true <-> In x l.
Proof.
  induction l as [|y l IH]; simpl.
  - split; [discriminate | contradiction].
  - rewrite orb_true_iff, IH, String.eqb_eq. split; intros [H|H]; auto.
Qed.

(** ** Lookup in the registry *)

(** C10.  [find_plugin] never throws and leaves the process alone: it returns
    what the registry holds under the name, the null pointer exactly for the
    names that are absent.  [get_plugin] throws [std::runtime_error] for
    exactly those names, and returns the registered plugin for every name
    that is present. *)
Theorem find_plugin_get_plugin (s : process) (nm : string) :
  find_plugin nm s = (Ok (smap_find nm (plugins (the_app s))), s) /\
  get_plugin nm s =
    match smap_find nm (plugins (the_app s)) with
    | None => (Throw (runtime_error ("unable to find plugin: " ++ nm)), s)
    | Some p => (Ok p, s)
    end.
Proof.
  split; [reflexivity|].
  unfold get_plugin, bind, find_plugin, gets.
  destruct (smap_find nm (plugins (the_app s))); reflexivity.
Qed.

(** ** Shutdown *)

Ltac run_step :=
  unfold bind, ret, throw, gets, modify, lift, log, set_state, get_state,
    plugin_started, plugin_initialized, erase_plugin; simpl.

Lemma smap_find_set_stopped (k n : string) (st : smap state) :
  smap_find n st = Some stopped ->
  smap_find n (smap_set k stopped st) = Some stopped.
Proof.
  intro H. destruct (string_dec n k) as [->|Hne].
  - apply smap_find_set_same.
  - now rewrite smap_find_set_other.
Qed.

(** A plugin that is stopped stays so while shutdown hooks run. *)
Lemma shutdown_hooks_keep_stopped (l : list abstract_plugin) (s s' : process)
    (n : string) :
  Forall (fun p => plugin_shutdown p = None) l ->
  for_each abstract_plugin_shutdown l s = (Ok tt, s') ->
  smap_find n (plugin_states s) = Some stopped ->
  smap_find n (plugin_states s') = Some stopped.
Proof.
  revert s. induction l as [|p l IH]; intros s Hl; simpl.
  - unfold ret. now intros [= <-].
  - inversion Hl as [|? ? Hp Hl']; subst.
    unfold abstract_plugin_shutdown at 1. run_step. rewrite Hp. simpl.
    intros Hrun Hn. eapply IH; [exact Hl' | exact Hrun |].
    simpl. now apply smap_find_set_stopped.
Qed.

(** The first loop of [shutdown] over plugins whose hooks return: every hook
    runs, in the order of the list, and the application object is untouched. *)
Lemma shutdown_hooks_run (l : list abstract_plugin) (s : process) :
  Forall (fun p => plugin_shutdown p = None) l ->
  exists s',
    for_each abstract_plugin_shutdown l s = (Ok tt, s') /\
    the_app s' = the_app s /\
    trace s' = trace s ++ map ev_shutdown (map name l) /\
    (forall p, In p l -> smap_find (name p) (plugin_states s') = Some stopped).
Proof.
  revert s. induction l as [|p l IH]; intros s Hl; simpl.
  - exists s. repeat split; auto using app_nil_r. contradiction.
  - inversion Hl as [|? ? Hp Hl']; subst.
    unfold abstract_plugin_shutdown at 1. run_step. rewrite Hp. simpl.
    destruct (IH (with_plugin_states (smap_set (name p) stopped)
                    (with_trace (fun t => t ++ [ev_shutdown (name p)]) s)) Hl')
      as (s' & Hrun & Happ & Htr & Hst).
    exists s'. rewrite Hrun. repeat split.
    + exact Happ.
    + rewrite Htr. simpl. now rewrite <- app_assoc.
    + intros q [<-|Hq]; [|now apply Hst].
      eapply shutdown_hooks_keep_stopped; [exact Hl' | exact Hrun |].
      simpl. apply smap_find_set_same.
Qed.

Lemma for_each_cons {A} (body : A -> M unit) (x : A) (l : list A) (s : process) :
  for_each body (x :: l) s =
  match body x s with
  | (Ok _, s') => for_each body l s'
  | (Throw e, s') => (Throw e, s')
  end.
Proof. reflexivity. Qed.

Lemma for_each_app {A} (body : A -> M unit) (l1 l2 : list A) (s : process) :
  for_each body (l1 ++ l2) s =
  match for_each body l1 s with
  | (Ok _, s') => for_each body l2 s'
  | (Throw e, s') => (Throw e, s')
  end.
Proof.
  revert s. induction l1 as [|x l1 IH]; intro s; [reflexivity|].
  rewrite <- app_comm_cons, !for_each_cons.
  destruct (body x s) as [[[]|e] s1]; [apply IH | reflexivity].
Qed.

Lemma erase_plugin_run (nm : string) (s : process) :
  erase_plugin nm s =
  (Ok tt,
   with_app (fun a =>
     {| my := my a; plugins := smap_erase nm (plugins a);
        initialized_plugins := initialized_plugins a;
        running_plugins := running_plugins a; io_serv := io_serv a |})
     (with_trace (fun t => t ++ [ev_erase nm]) s)).
Proof. reflexivity. Qed.

(** The second loop of [shutdown]: one erasure per entry, in order. *)
Lemma erase_loop_run (l : list abstract_plugin) (s : process) :
  exists s',
    for_each (fun p => erase_plugin (name p)) l s = (Ok tt, s') /\
    trace s' = trace s ++ map ev_erase (map name l) /\
    plugin_states s' = plugin_states s /\
    filesystem s' = filesystem s /\ cout s' = cout s /\ cerr s' = cerr s /\
    my (the_app s') = my (the_app s) /\
    running_plugins (the_app s') = running_plugins (the_app s) /\
    initialized_plugins (the_app s') = initialized_plugins (the_app s).
Proof.
  revert s. induction l as [|p l IH]; intros s.
  - exists s. simpl. repeat split; auto using app_nil_r.
  - rewrite for_each_cons, erase_plugin_run.
    match goal with |- context [for_each _ l ?s0] => destruct (IH s0)
      as (s' & Hrun & Htr & H1 & H2 & H3 & H4 & H5 & H6 & H7) end.
    exists s'. rewrite Hrun. simpl in *. repeat split; auto.
    rewrite Htr. now rewrite <- app_assoc.
Qed.

(** What [shutdown] does when every shutdown hook returns. *)
Lemma shutdown_run (s : process) :
  Forall (fun p => plugin_shutdown p = None) (running_plugins (the_app s)) ->
  exists s',
    shutdown s = (Ok tt, s') /\
    trace s' = trace s
               ++ map ev_shutdown (rev (map name (running_plugins (the_app s))))
               ++ map ev_erase (rev (map name (running_plugins (the_app s)))) /\
    plugins (the_app s') = [] /\
    initialized_plugins (the_app s') = [] /\
    running_plugins (the_app s') = [] /\
    io_serv (the_app s') = None /\
    (forall p, In p (running_plugins (the_app s)) ->
               smap_find (name p) (plugin_states s') = Some stopped).
Proof.
  intro Hall. unfold shutdown.
  set (running := running_plugins (the_app s)) in *.
  assert (Hrev : Forall (fun p => plugin_shutdown p = None) (rev running))
    by (apply Forall_forall; intros p Hp; apply in_rev in Hp;
        revert p Hp; now apply Forall_forall).
  destruct (shutdown_hooks_run _ s Hrev) as (s1 & Hrun1 & Happ1 & Htr1 & Hst1).
  destruct (erase_loop_run (rev running) s1)
    as (s2 & Hrun2 & Htr2 & Hst2 & _).
  unfold bind at 1. unfold gets at 1. fold running.
  unfold bind at 1. rewrite Hrun1.
  unfold bind at 1. rewrite Hrun2.
  eexists. split; [reflexivity|]. simpl.
  rewrite Htr2, Htr1, !map_rev, <- app_assoc.
  repeat split; auto.
  intros p Hp. rewrite Hst2. apply Hst1. now apply in_rev in Hp.
Qed.

(** C1.  When [shutdown] runs with plugins started and their shutdown hooks
    return (the hooks are required not to throw), it invokes the shutdown
    hook of every started plugin in the exact reverse of the started order;
    when the last hook has returned, the registry and the lists are still as
    they were; only then are the entries erased from the registry, in the
    same reverse order, and the registry and the initialized and started
    lists left empty. *)
Theorem shutdown_reverse_order (s : process) :
  Forall (fun p => plugin_shutdown p = None) (running_plugins (the_app s)) ->
  exists s1 s',
    for_each abstract_plugin_shutdown (rev (running_plugins (the_app s))) s
      = (Ok tt, s1) /\
    trace s1 = trace s
               ++ map ev_shutdown (rev (map name (running_plugins (the_app s)))) /\
    the_app s1 = the_app s /\
    shutdown s = (Ok tt, s') /\
    trace s' = trace s1
               ++ map ev_erase (rev (map name (running_plugins (the_app s)))) /\
    plugins (the_app s') = [] /\
    initialized_plugins (the_app s') = [] /\
    running_plugins (the_app s') = [].
Proof.
  intro Hall.
  destruct (shutdown_run s Hall) as (s' & H1 & H2 & H3 & H4 & H5 & _).
  assert (Hrev : Forall (fun p => plugin_shutdown p = None)
                   (rev (running_plugins (the_app s))))
    by (apply Forall_forall; intros p Hp; apply in_rev in Hp;
        revert p Hp; now apply Forall_forall).
  destruct (shutdown_hooks_run _ s Hrev) as (s1 & Hrun1 & Happ1 & Htr1 & _).
  exists s1, s'. rewrite map_rev in Htr1.
  repeat split; auto.
  rewrite H2, Htr1. now rewrite app_assoc.
Qed.

(** A shutdown hook that throws ends [shutdown] at once: the plugins started
    before it are not shut down, and nothing is erased or cleared. *)
Lemma shutdown_stops_at_throw (s : process) (pre post : list abstract_plugin)
    (p : abstract_plugin) (e : exception) :
  running_plugins (the_app s) = pre ++ p :: post ->
  Forall (fun q => plugin_shutdown q = None) post ->
  plugin_shutdown p = Some e ->
  exists s',
    shutdown s = (Throw e, s') /\
    trace s' = trace s ++ map ev_shutdown (rev (map name post))
                       ++ [ev_shutdown (name p)] /\
    the_app s' = the_app s.
Proof.
  intros Hrun Hpost Hp. unfold shutdown.
  unfold bind at 1. unfold gets at 1. rewrite Hrun.
  rewrite rev_app_distr. simpl rev. rewrite <- app_assoc. simpl app.
  assert (Hrev : Forall (fun q => plugin_shutdown q = None) (rev post))
    by (apply Forall_forall; intros q Hq; apply in_rev in Hq;
        revert q Hq; now apply Forall_forall).
  destruct (shutdown_hooks_run _ s Hrev) as (s1 & Hrun1 & Happ1 & Htr1 & _).
  unfold bind at 1. rewrite for_each_app, Hrun1, for_each_cons.
  unfold abstract_plugin_shutdown at 1. run_step. rewrite Hp. simpl.
  eexists. split; [reflexivity|]. simpl. split.
  - now rewrite Htr1, map_rev, <- app_assoc.
  - exact Happ1.
Qed.

(** ** Startup *)

Lemma abstract_plugin_startup_ok (p : abstract_plugin) (s : process) :
  smap_find (name p) (plugin_states s) = Some initialized ->
  plugin_startup p = None ->
  abstract_plugin_startup p s =
  (Ok tt,
   with_app (fun a =>
     {| my := my a; plugins := plugins a;
        initialized_plugins := initialized_plugins a;
        running_plugins := running_plugins a ++ [p]; io_serv := io_serv a |})
     (with_plugin_states (smap_set (name p) started)
        (with_trace (fun t => t ++ [ev_startup (name p)]) s))).
Proof.
  intros Hst Hp. unfold abstract_plugin_startup. run_step.
  rewrite Hst. simpl. now rewrite Hp.
Qed.

Lemma abstract_plugin_startup_throw (p : abstract_plugin) (s : process)
    (e : exception) :
  smap_find (name p) (plugin_states s) = Some initialized ->
  plugin_startup p = Some e ->
  abstract_plugin_startup p s =
  (Throw e, with_trace (fun t => t ++ [ev_startup (name p)]) s).
Proof.
  intros Hst Hp. unfold abstract_plugin_startup. run_step.
  rewrite Hst. simpl. now rewrite Hp.
Qed.

(** The loop of [startup] over initialized plugins whose hooks return. *)
Lemma startup_hooks_run (l : list abstract_plugin) (s : process) :
  NoDup (map name l) ->
  (forall p, In p l -> smap_find (name p) (plugin_states s) = Some initialized) ->
  Forall (fun p => plugin_startup p = None) l ->
  exists s',
    for_each abstract_plugin_startup l s = (Ok tt, s') /\
    trace s' = trace s ++ map ev_startup (map name l) /\
    running_plugins (the_app s') = running_plugins (the_app s) ++ l /\
    initialized_plugins (the_app s') = initialized_plugins (the_app s) /\
    plugins (the_app s') = plugins (the_app s) /\
    (forall n, ~ In n (map name l) ->
               smap_find n (plugin_states s') = smap_find n (plugin_states s)).
Proof.
  revert s. induction l as [|p l IH]; intros s Hnd Hst Hok.
  - exists s. simpl. repeat split; auto using app_nil_r.
  - simpl in Hnd. inversion Hnd as [|? ? Hnotin Hnd']; subst.
    inversion Hok as [|? ? Hp Hok']; subst.
    rewrite for_each_cons, abstract_plugin_startup_ok by (auto; apply Hst; now left).
    match goal with |- context [for_each _ l ?s0] => destruct (IH s0)
      as (s' & Hrun & Htr & Hr & Hi & Hpl & Hother) end; auto.
    { intros q Hq. simpl. rewrite smap_find_set_other.
      - apply Hst. now right.
      - intro Heq. apply Hnotin. rewrite <- Heq. now apply in_map. }
    exists s'. rewrite Hrun. simpl in *. repeat split; auto.
    + rewrite Htr. now rewrite <- app_assoc.
    + rewrite Hr. now rewrite <- app_assoc.
    + intros n Hn. rewrite Hother by tauto.
      apply smap_find_set_other. intro Heq. apply Hn. now left.
Qed.

(** C2.  If the startup hook of a plugin throws [e] while [startup] walks the
    initialized-order list, the controller runs [shutdown]: every plugin
    started before the failing one (and any started earlier) gets its
    shutdown hook called, in reverse order of start, the registry and both
    lists are emptied, and [e] itself is thrown on to the caller.  The
    shutdown hooks are required not to throw. *)
Theorem startup_failure_unwinds (s : process) (pre post : list abstract_plugin)
    (p : abstract_plugin) (e : exception) :
  initialized_plugins (the_app s) = pre ++ p :: post ->
  NoDup (map name (pre ++ [p])) ->
  (forall q, In q (pre ++ [p]) ->
             smap_find (name q) (plugin_states s) = Some initialized) ->
  Forall (fun q => plugin_startup q = None) pre ->
  plugin_startup p = Some e ->
  Forall (fun q => plugin_shutdown q = None) (running_plugins (the_app s) ++ pre) ->
  exists s',
    startup s = (Throw e, s') /\
    trace s' = trace s
               ++ map ev_startup (map name (pre ++ [p]))
               ++ map ev_shutdown (rev (map name (running_plugins (the_app s) ++ pre)))
               ++ map ev_erase (rev (map name (running_plugins (the_app s) ++ pre))) /\
    running_plugins (the_app s') = [] /\
    initialized_plugins (the_app s') = [] /\
    plugins (the_app s') = [] /\
    (forall q, In q pre -> smap_find (name q) (plugin_states s') = Some stopped).
Proof.
  intros Hinit Hnd Hst Hpre Hp Hdown.
  assert (Hnd_pre : NoDup (map name pre)).
  { rewrite map_app in Hnd. now apply NoDup_app_remove_r in Hnd. }
  destruct (startup_hooks_run pre s Hnd_pre) as (s1 & Hrun1 & Htr1 & Hr1 & Hi1 & Hpl1 & Hother1); auto.
  { intros q Hq. apply Hst. apply in_or_app. now left. }
  assert (Hp_state : smap_find (name p) (plugin_states s1) = Some initialized).
  { rewrite Hother1.
    - apply Hst. apply in_or_app. right. now left.
    - rewrite map_app in Hnd. simpl in Hnd.
      apply NoDup_remove_2 in Hnd. rewrite app_nil_r in Hnd. exact Hnd. }
  set (s2 := with_trace (fun t => t ++ [ev_startup (name p)]) s1).
  assert (Hdown2 : Forall (fun q => plugin_shutdown q = None)
                     (running_plugins (the_app s2))).
  { simpl. now rewrite Hr1. }
  destruct (shutdown_run s2 Hdown2) as (s3 & Hrun3 & Htr3 & Hpl3 & Hi3 & Hr3 & _ & Hst3).
  exists s3. split.
  - unfold startup, try_catch. unfold bind at 1. unfold gets at 1.
    rewrite Hinit, for_each_app, Hrun1, for_each_cons.
    rewrite (abstract_plugin_startup_throw _ _ _ Hp_state Hp).
    fold s2. unfold bind at 1. rewrite Hrun3. reflexivity.
  - repeat split; auto.
    + rewrite Htr3. simpl. rewrite Htr1, Hr1, !map_app. simpl.
      now rewrite <- !app_assoc.
    + intros q Hq. apply Hst3. simpl. rewrite Hr1. apply in_or_app. now right.
Qed.

(** ** The merge of the option sources: [bpo::store] *)

Lemma string_is_empty_true (s : string) : string_is_empty s = true <-> s = "".
Proof. destruct s; simpl; split; congruence. Qed.

Lemma store_options_cons (desc : bpo.options_description) (o : bpo.basic_option)
    (os : list bpo.basic_option) (acc : bpo.variables_map * list string) :
  bpo.store_options desc (o :: os) acc =
  match bpo.store_option desc o acc with
  | Ok acc' => bpo.store_options desc os acc'
  | Throw e => Throw e
  end.
Proof. reflexivity. Qed.

(** An option that is not [key]'s leaves the value of [key] alone. *)
Lemma store_option_other (desc : bpo.options_description) (o : bpo.basic_option)
    (xm xm' : bpo.variables_map) (nf nf' : list string) (key : string) :
  bpo.store_option desc o (xm, nf) = Ok (xm', nf') ->
  explicit key o = false ->
  smap_find key (bpo.m xm') = smap_find key (bpo.m xm) /\
  bpo.m_final xm' = bpo.m_final xm /\
  (forall k, In k nf -> In k nf') /\
  (In key nf' -> In key nf).
Proof.
  unfold bpo.store_option, explicit. intros H Hex.
  destruct (string_is_empty (bpo.string_key o)); [injection H as <- <-; auto|].
  destruct (bpo.unregistered o) eqn:Hun; [injection H as <- <-; auto|].
  destruct (mem_string (bpo.string_key o) (bpo.m_final xm));
    [injection H as <- <-; auto|].
  rewrite andb_true_r in Hex. apply String.eqb_neq in Hex.
  destruct (bpo.find desc (bpo.string_key o)) as [d|e]; simpl in H; [|discriminate].
  destruct (bpo.parse (bpo.semantic d) _ (bpo.value o)) as [x|e]; simpl in H;
    [|discriminate].
  injection H as <- <-. simpl. repeat split.
  - apply smap_find_set_other. congruence.
  - intros k Hk. destruct (bpo.is_composing (bpo.semantic d)); simpl; auto.
  - destruct (bpo.is_composing (bpo.semantic d)); simpl; auto.
    intros [Heq|Hin]; [contradiction | exact Hin].
Qed.

(** An option of [key] that is not final yet is parsed onto the value in
    place and stored as an explicit value. *)
Lemma store_option_same (desc : bpo.options_description) (o : bpo.basic_option)
    (xm xm' : bpo.variables_map) (nf nf' : list string) (key : string) :
  bpo.store_option desc o (xm, nf) = Ok (xm', nf') ->
  explicit key o = true ->
  key <> "" ->
  mem_string key (bpo.m_final xm) = false ->
  exists d x,
    bpo.find desc key = Ok d /\
    bpo.parse (bpo.semantic d) (start_value xm key) (bpo.value o) = Ok x /\
    smap_find key (bpo.m xm') =
      Some {| bpo.v := x; bpo.m_defaulted := false;
              bpo.m_value_semantic := Some (bpo.semantic d) |} /\
    bpo.m_final xm' = bpo.m_final xm /\
    (forall k, In k nf -> In k nf') /\
    (bpo.is_composing (bpo.semantic d) = false -> In key nf') /\
    (bpo.is_composing (bpo.semantic d) = true -> In key nf' -> In key nf).
Proof.
  unfold bpo.store_option, explicit. intros H Hex Hne Hfin.
  apply andb_true_iff in Hex as [Hkey Hun].
  apply String.eqb_eq in Hkey. subst key.
  apply negb_true_iff in Hun. rewrite Hun, Hfin in H.
  destruct (string_is_empty (bpo.string_key o)) eqn:He;
    [apply string_is_empty_true in He; contradiction|].
  destruct (bpo.find desc (bpo.string_key o)) as [d|e]; simpl in H; [|discriminate].
  unfold start_value.
  destruct (bpo.parse (bpo.semantic d) _ (bpo.value o)) as [x|e] eqn:Hp;
    simpl in H; [|discriminate].
  injection H as <- <-. exists d, x. simpl. repeat split.
  - destruct (bpo.m_defaulted (bpo.get xm (bpo.string_key o))); exact Hp.
  - apply smap_find_set_same.
  - intros k Hk. destruct (bpo.is_composing (bpo.semantic d)); simpl; auto.
  - intros ->. now left.
  - intros ->. auto.
Qed.

(** A key that is final already is not touched. *)
Lemma store_option_final (desc : bpo.options_description) (o : bpo.basic_option)
    (xm xm' : bpo.variables_map) (nf nf' : list string) (key : string) :
  bpo.store_option desc o (xm, nf) = Ok (xm', nf') ->
  mem_string key (bpo.m_final xm) = true ->
  smap_find key (bpo.m xm') = smap_find key (bpo.m xm) /\
  bpo.m_final xm' = bpo.m_final xm /\
  (forall k, In k nf -> In k nf') /\
  (In key nf' -> In key nf).
Proof.
  intros H Hfin. destruct (explicit key o) eqn:Hex.
  - unfold explicit in Hex. apply andb_true_iff in Hex as [Hkey _].
    apply String.eqb_eq in Hkey. subst key.
    unfold bpo.store_option in H. rewrite Hfin in H.
    destruct (string_is_empty (bpo.string_key o)); [injection H as <- <-; auto|].
    destruct (bpo.unregistered o); injection H as <- <-; auto.
  - eapply store_option_other; eauto.
Qed.

Lemma store_options_final (desc : bpo.options_description)
    (os : list bpo.basic_option) (xm xm' : bpo.variables_map)
    (nf nf' : list string) (key : string) :
  bpo.store_options desc os (xm, nf) = Ok (xm', nf') ->
  mem_string key (bpo.m_final xm) = true ->
  smap_find key (bpo.m xm') = smap_find key (bpo.m xm) /\
  bpo.m_final xm' = bpo.m_final xm /\
  (In key nf' -> In key nf).
Proof.
  revert xm nf. induction os as [|o os IH]; intros xm nf H Hfin.
  - injection H as <- <-. auto.
  - rewrite store_options_cons in H.
    destruct (bpo.store_option desc o (xm, nf)) as [[xm1 nf1]|e] eqn:Hstep;
      [|discriminate].
    destruct (store_option_final _ _ _ _ _ _ _ Hstep Hfin) as (Hf & Hfinal & _ & Hnf).
    destruct (IH _ _ H) as (Hf' & Hfinal' & Hnf'); [now rewrite Hfinal|].
    rewrite Hf', Hfinal', Hf, Hfinal. auto.
Qed.

Lemma store_option_mono (desc : bpo.options_description) (o : bpo.basic_option)
    (xm xm' : bpo.variables_map) (nf nf' : list string) (k : string) :
  bpo.store_option desc o (xm, nf) = Ok (xm', nf') -> In k nf -> In k nf'.
Proof.
  unfold bpo.store_option. intros H Hk.
  destruct (string_is_empty (bpo.string_key o)); [now injection H as <- <-|].
  destruct (bpo.unregistered o); [now injection H as <- <-|].
  destruct (mem_string (bpo.string_key o) (bpo.m_final xm));
    [now injection H as <- <-|].
  destruct (bpo.find desc (bpo.string_key o)) as [d|e]; simpl in H; [|discriminate].
  destruct (bpo.parse (bpo.semantic d) _ (bpo.value o)) as [x|e]; simpl in H;
    [|discriminate].
  injection H as <- <-.
  destruct (bpo.is_composing (bpo.semantic d)); simpl; auto.
Qed.

Lemma store_options_mono (desc : bpo.options_description)
    (os : list bpo.basic_option) (xm xm' : bpo.variables_map)
    (nf nf' : list string) (k : string) :
  bpo.store_options desc os (xm, nf) = Ok (xm', nf') -> In k nf -> In k nf'.
Proof.
  revert xm nf. induction os as [|o os IH]; intros xm nf H Hk.
  - now injection H as <- <-.
  - rewrite store_options_cons in H.
    destruct (bpo.store_option desc o (xm, nf)) as [[xm1 nf1]|e] eqn:Hstep;
      [|discriminate].
    eapply IH; [exact H|]. eapply store_option_mono; eauto.
Qed.

(** The first loop of [store], seen from one key that is not final: without
    an occurrence the value stays; with occurrences they are parsed one onto
    the other, starting from the value in place unless it is a default. *)
Lemma store_options_spec (desc : bpo.options_description)
    (os : list bpo.basic_option) (xm xm' : bpo.variables_map)
    (nf nf' : list string) (key : string) :
  bpo.store_options desc os (xm, nf) = Ok (xm', nf') ->
  key <> "" ->
  mem_string key (bpo.m_final xm) = false ->
  bpo.m_final xm' = bpo.m_final xm /\
  match map bpo.value (filter (explicit key) os) with
  | [] =>
      smap_find key (bpo.m xm') = smap_find key (bpo.m xm) /\
      (In key nf' -> In key nf)
  | occurrences =>
      exists d x,
        bpo.find desc key = Ok d /\
        parse_all (bpo.semantic d) (start_value xm key) occurrences = Ok x /\
        smap_find key (bpo.m xm') =
          Some {| bpo.v := x; bpo.m_defaulted := false;
                  bpo.m_value_semantic := Some (bpo.semantic d) |} /\
        (bpo.is_composing (bpo.semantic d) = false -> In key nf') /\
        (bpo.is_composing (bpo.semantic d) = true -> In key nf' -> In key nf)
  end.
Proof.
  revert xm nf. induction os as [|o os IH]; intros xm nf H Hne Hfin.
  - injection H as <- <-. simpl. auto.
  - rewrite store_options_cons in H.
    destruct (bpo.store_option desc o (xm, nf)) as [[xm1 nf1]|e] eqn:Hstep;
      [|discriminate].
    simpl filter. destruct (explicit key o) eqn:Hex.
    + destruct (store_option_same _ _ _ _ _ _ _ Hstep Hex Hne Hfin)
        as (d & x1 & Hfind & Hparse & Hval & Hfinal & Hmono & Hnc & Hc).
      assert (Hfin1 : mem_string key (bpo.m_final xm1) = false)
        by now rewrite Hfinal.
      destruct (IH _ _ H Hne Hfin1) as (Hfinal' & Hrest).
      split; [congruence|].
      assert (Hstart : start_value xm1 key = x1).
      { unfold start_value, bpo.get. now rewrite Hval. }
      simpl map. exists d.
      destruct (map bpo.value (filter (explicit key) os)) as [|t ts] eqn:Hocc.
      * destruct Hrest as (Hsame & Hnf). exists x1. simpl.
        rewrite Hparse. simpl. rewrite Hsame. repeat split; auto.
        -- intros Hcomp. eapply store_options_mono; [exact H | auto].
      * destruct Hrest as (d' & x & Hfind' & Hparse' & Hval' & Hnc' & Hc').
        assert (d' = d) by congruence. subst d'.
        exists x. simpl. rewrite Hparse. simpl. rewrite <- Hstart.
        repeat split; auto.
    + destruct (store_option_other _ _ _ _ _ _ _ Hstep Hex) as (Hsame & Hfinal & Hmono & Hnf).
      assert (Hfin1 : mem_string key (bpo.m_final xm1) = false)
        by now rewrite Hfinal.
      destruct (IH _ _ H Hne Hfin1) as (Hfinal' & Hrest).
      split; [congruence|].
      assert (Hstart : start_value xm1 key = start_value xm key).
      { unfold start_value, bpo.get. now rewrite Hsame. }
      destruct (map bpo.value (filter (explicit key) os)) as [|t ts].
      * destruct Hrest as (Hsame' & Hnf'). split; [congruence | auto].
      * destruct Hrest as (d & x & Hfind & Hparse & Hval & Hnc & Hc).
        exists d, x. rewrite <- Hstart. repeat split; auto.
Qed.

(** The second loop of [store] keeps every value that is there. *)
Lemma store_default_keeps (desc : bpo.options_description)
    (xm : bpo.variables_map) (key : string) (x : bpo.variable_value) :
  smap_find key (bpo.m xm) = Some x ->
  smap_find key (bpo.m (fold_left bpo.store_default desc xm)) = Some x.
Proof.
  revert xm. induction desc as [|d desc IH]; intros xm Hx; [exact Hx|].
  simpl. apply IH. unfold bpo.store_default.
  destruct (string_is_empty (bpo.long_name d)); [exact Hx|]. simpl.
  destruct (string_dec key (bpo.long_name d)) as [->|Hne].
  - unfold smap_count. now rewrite Hx.
  - destruct (smap_count (bpo.long_name d) (bpo.m xm)); [|exact Hx].
    destruct (bpo.apply_default (bpo.semantic d)); [|exact Hx].
    now rewrite smap_find_set_other.
Qed.

Lemma store_default_final (desc : bpo.options_description)
    (xm : bpo.variables_map) :
  bpo.m_final (fold_left bpo.store_default desc xm) = bpo.m_final xm.
Proof.
  revert xm. induction desc as [|d desc IH]; intro xm; [reflexivity|].
  simpl. rewrite IH. unfold bpo.store_default.
  now destruct (string_is_empty (bpo.long_name d)).
Qed.

(** A key without a value gets the declared default, marked as defaulted. *)
Lemma store_default_applies (desc : bpo.options_description)
    (xm : bpo.variables_map) (key : string) :
  key <> "" ->
  smap_find key (bpo.m xm) = None ->
  match smap_find key (bpo.m (fold_left bpo.store_default desc xm)) with
  | Some x => bpo.m_defaulted x = true /\ declared_default desc key = Some (bpo.v x)
  | None => declared_default desc key = None
  end.
Proof.
  intro Hne. revert xm. induction desc as [|d desc IH]; intros xm Hx.
  - simpl. now rewrite Hx.
  - simpl. unfold bpo.store_default at 2.
    destruct (String.eqb (bpo.long_name d) key) eqn:Hk.
    + apply String.eqb_eq in Hk. rewrite Hk.
      destruct (string_is_empty key) eqn:He;
        [apply string_is_empty_true in He; contradiction|].
      unfold smap_count. rewrite Hx.
      destruct (bpo.apply_default (bpo.semantic d)) as [def|] eqn:Hd.
      * erewrite store_default_keeps; [|simpl; apply smap_find_set_same].
        simpl. auto.
      * apply IH. exact Hx.
    + apply String.eqb_neq in Hk.
      destruct (string_is_empty (bpo.long_name d)); [now apply IH|].
      apply IH. simpl.
      destruct (smap_count (bpo.long_name d) (bpo.m xm)); [|exact Hx].
      destruct (bpo.apply_default (bpo.semantic d)); [|exact Hx].
      rewrite smap_find_set_other; [exact Hx | congruence].
Qed.

Lemma mem_string_app (x : string) (l1 l2 : list string) :
  mem_string x (l1 ++ l2) = mem_string x l1 || mem_string x l2.
Proof.
  induction l1 as [|y l1 IH]; simpl; [reflexivity|].
  now rewrite IH, orb_assoc.
Qed.

Lemma mem_string_false (x : string) (l : list string) :
  mem_string x l = false <-> ~ In x l.
Proof.
  rewrite <- mem_string_In. destruct (mem_string x l); split; congruence.
Qed.

(** [store] leaves a final key as it is. *)
Lemma store_final_key (opts : bpo.parsed_options) (desc : bpo.options_description)
    (xm xm' : bpo.variables_map) (key : string) (x : bpo.variable_value) :
  bpo.store opts desc xm = Ok xm' ->
  mem_string key (bpo.m_final xm) = true ->
  smap_find key (bpo.m xm) = Some x ->
  smap_find key (bpo.m xm') = Some x /\ mem_string key (bpo.m_final xm') = true.
Proof.
  unfold bpo.store. intros H Hfin Hx.
  destruct (bpo.store_options desc (bpo.options opts) (xm, [])) as [[xm1 nf]|e] eqn:Hloop;
    simpl in H; [|discriminate].
  injection H as <-.
  destruct (store_options_final _ _ _ _ _ _ _ Hloop Hfin) as (Hsame & Hfinal & _).
  split.
  - apply store_default_keeps. simpl. now rewrite Hsame.
  - rewrite store_default_final. simpl. rewrite mem_string_app, Hfinal, Hfin.
    reflexivity.
Qed.

(** [store] on a key that is not final and that the source does not give. *)
Lemma store_absent_key (opts : bpo.parsed_options) (desc : bpo.options_description)
    (xm xm' : bpo.variables_map) (key : string) :
  bpo.store opts desc xm = Ok xm' ->
  key <> "" ->
  mem_string key (bpo.m_final xm) = false ->
  given opts key = [] ->
  mem_string key (bpo.m_final xm') = false /\
  match smap_find key (bpo.m xm) with
  | Some x => smap_find key (bpo.m xm') = Some x
  | None =>
      match smap_find key (bpo.m xm') with
      | Some x => bpo.m_defaulted x = true /\ declared_default desc key = Some (bpo.v x)
      | None => declared_default desc key = None
      end
  end.
Proof.
  unfold bpo.store, given. intros H Hne Hfin Hgiven.
  destruct (bpo.store_options desc (bpo.options opts) (xm, [])) as [[xm1 nf]|e] eqn:Hloop;
    simpl in H; [|discriminate].
  injection H as <-.
  destruct (store_options_spec _ _ _ _ _ _ _ Hloop Hne Hfin) as (Hfinal & Hcase).
  rewrite Hgiven in Hcase. destruct Hcase as (Hsame & Hnf).
  split.
  - rewrite store_default_final. simpl. rewrite mem_string_app, Hfinal, Hfin.
    simpl. apply mem_string_false. intro Hin. exact (Hnf Hin).
  - destruct (smap_find key (bpo.m xm)) as [x|] eqn:Hx.
    + apply store_default_keeps. simpl. now rewrite Hsame.
    + apply store_default_applies; [exact Hne|]. simpl. now rewrite Hsame.
Qed.

(** [store] on a key that is not final and that the source gives. *)
Lemma store_given_key (opts : bpo.parsed_options) (desc : bpo.options_description)
    (xm xm' : bpo.variables_map) (key : string) :
  bpo.store opts desc xm = Ok xm' ->
  key <> "" ->
  mem_string key (bpo.m_final xm) = false ->
  given opts key <> [] ->
  exists d x,
    bpo.find desc key = Ok d /\
    parse_all (bpo.semantic d) (start_value xm key) (given opts key) = Ok x /\
    smap_find key (bpo.m xm') =
      Some {| bpo.v := x; bpo.m_defaulted := false;
              bpo.m_value_semantic := Some (bpo.semantic d) |} /\
    mem_string key (bpo.m_final xm') = negb (bpo.is_composing (bpo.semantic d)).
Proof.
  unfold bpo.store, given. intros H Hne Hfin Hgiven.
  destruct (bpo.store_options desc (bpo.options opts) (xm, [])) as [[xm1 nf]|e] eqn:Hloop;
    simpl in H; [|discriminate].
  injection H as <-.
  destruct (store_options_spec _ _ _ _ _ _ _ Hloop Hne Hfin) as (Hfinal & Hcase).
  destruct (map bpo.value (filter (explicit key) (bpo.options opts))) as [|t ts];
    [contradiction|].
  destruct Hcase as (d & x & Hfind & Hparse & Hval & Hnc & Hc).
  exists d, x. repeat split; auto.
  - apply store_default_keeps. exact Hval.
  - rewrite store_default_final. simpl. rewrite mem_string_app, Hfinal, Hfin.
    simpl. destruct (bpo.is_composing (bpo.semantic d)); simpl.
    + apply mem_string_false. intro Hin. exact (Hc eq_refl Hin).
    + apply mem_string_In. now apply Hnc.
Qed.

Lemma start_value_empty_map (key : string) :
  start_value bpo.empty_variables_map key = any_empty.
Proof. reflexivity. Qed.

(** C3, as the code has it.  The command line is stored first and the config
    file second.  A key neither source gives resolves to its declared
    default; a key only the config file gives resolves to the config-file
    value; a key the command line gives resolves to the command-line value
    whatever the config file says, unless the option is composing: then the
    config-file occurrences are parsed onto the command-line value, and both
    are kept. *)
Theorem merge_precedence (app_options cfg_options : bpo.options_description)
    (cmdline from_config : bpo.parsed_options) (vm1 vm2 : bpo.variables_map)
    (key : string) :
  bpo.store cmdline app_options bpo.empty_variables_map = Ok vm1 ->
  bpo.store from_config cfg_options vm1 = Ok vm2 ->
  key <> "" ->
  match given cmdline key, given from_config key with
  | [], [] =>
      resolved vm2 key =
        match declared_default app_options key with
        | Some def => Some def
        | None => declared_default cfg_options key
        end
  | [], (_ :: _) as in_file =>
      exists d x,
        bpo.find cfg_options key = Ok d /\
        parse_all (bpo.semantic d) any_empty in_file = Ok x /\
        resolved vm2 key = Some x
  | (_ :: _) as on_command_line, [] =>
      exists d x,
        bpo.find app_options key = Ok d /\
        parse_all (bpo.semantic d) any_empty on_command_line = Ok x /\
        resolved vm2 key = Some x
  | (_ :: _) as on_command_line, (_ :: _) as in_file =>
      exists d x,
        bpo.find app_options key = Ok d /\
        parse_all (bpo.semantic d) any_empty on_command_line = Ok x /\
        if bpo.is_composing (bpo.semantic d)
        then exists d' x',
               bpo.find cfg_options key = Ok d' /\
               parse_all (bpo.semantic d') x in_file = Ok x' /\
               resolved vm2 key = Some x'
        else resolved vm2 key = Some x
  end.
Proof.
  intros H1 H2 Hne.
  assert (Hfin0 : mem_string key (bpo.m_final bpo.empty_variables_map) = false)
    by reflexivity.
  destruct (given cmdline key) as [|t1 ts1] eqn:Hcmd.
  - destruct (store_absent_key _ _ _ _ _ H1 Hne Hfin0 Hcmd) as (Hfin1 & Hv1).
    simpl in Hv1.
    assert (Hstart : start_value vm1 key = any_empty).
    { unfold start_value, bpo.get.
      destruct (smap_find key (bpo.m vm1)) as [x|]; [|reflexivity].
      destruct Hv1 as (Hd & _). now rewrite Hd. }
    destruct (given from_config key) as [|t2 ts2] eqn:Hcfg.
    + destruct (store_absent_key _ _ _ _ _ H2 Hne Hfin1 Hcfg) as (_ & Hv2).
      unfold resolved.
      destruct (smap_find key (bpo.m vm1)) as [x|].
      * rewrite Hv2. destruct Hv1 as (_ & ->). reflexivity.
      * rewrite Hv1. destruct (smap_find key (bpo.m vm2)) as [x|].
        -- destruct Hv2 as (_ & ->). reflexivity.
        -- now rewrite Hv2.
    + destruct (store_given_key _ _ _ _ _ H2 Hne Hfin1) as (d & x & Hfind & Hparse & Hval & _).
      { rewrite Hcfg. discriminate. }
      exists d, x. rewrite Hcfg, Hstart in Hparse.
      unfold resolved. rewrite Hval. auto.
  - destruct (store_given_key _ _ _ _ _ H1 Hne Hfin0) as (d & x & Hfind & Hparse & Hval & Hfin1).
    { rewrite Hcmd. discriminate. }
    rewrite Hcmd, start_value_empty_map in Hparse.
    assert (Hstart : start_value vm1 key = x).
    { unfold start_value, bpo.get. now rewrite Hval. }
    destruct (given from_config key) as [|t2 ts2] eqn:Hcfg.
    + exists d, x. repeat split; auto. unfold resolved.
      destruct (bpo.is_composing (bpo.semantic d)); simpl in Hfin1.
      * destruct (store_absent_key _ _ _ _ _ H2 Hne Hfin1 Hcfg) as (_ & Hv2).
        rewrite Hval in Hv2. now rewrite Hv2.
      * destruct (store_final_key _ _ _ _ _ _ H2 Hfin1 Hval) as (-> & _).
        reflexivity.
    + exists d, x. repeat split; auto.
      destruct (bpo.is_composing (bpo.semantic d)); simpl in Hfin1.
      * destruct (store_given_key _ _ _ _ _ H2 Hne Hfin1)
          as (d' & x' & Hfind' & Hparse' & Hval' & _).
        { rewrite Hcfg. discriminate. }
        exists d', x'. rewrite Hcfg, Hstart in Hparse'.
        unfold resolved. rewrite Hval'. auto.
      * destruct (store_final_key _ _ _ _ _ _ H2 Hfin1 Hval) as (Hv2 & _).
        unfold resolved. now rewrite Hv2.
Qed.

(** ** Values redundantly set to their default *)






Lemma warn_set_but_default_returns (l : list string) (s : process) :
  fst (warn_set_but_default l s) = Ok tt.
Proof. destruct l; reflexivity. Qed.






(** The example of the specification: [bar] has default 10. *)
Example bar_set_to_10_is_reported :
  fst (collect_set_but_default (bar_config "10") []
         (_cfg_options (my (the_app bar_process))) bar_process) = Ok ["bar"].
Proof. vm_compute. reflexivity. Qed.

Example bar_set_to_20_is_not_reported :
  fst (collect_set_but_default (bar_config "20") []
         (_cfg_options (my (the_app bar_process))) bar_process) = Ok [].
Proof. vm_compute. reflexivity. Qed.

(** C9.  The constructor registers a comparator for [std::string], [bool],
    [uint32_t], [uint64_t], [int], [double], [std::vector<std::string>] and
    [boost::filesystem::path], and for no other type.  In the redundancy
    check, an option whose default is of a type without a comparator gets a
    warning line of its own, its name is not appended to the list, and the
    turn of the loop returns normally. *)
Theorem unregistered_type_is_warned (version : Z) :
  (forall T,
     compare_map_find T (_any_compare_map (new_application_impl version)) =
     if registered_type T then Some (any_equal T) else None) /\
  (forall opts_from_config set_but_default_list od s default_val opt config_val,
     bpo.apply_default (bpo.semantic od) = Some default_val ->
     first_with_key (bpo.long_name od) (bpo.options opts_from_config) = Some opt ->
     bpo.parse (bpo.semantic od) any_empty (bpo.value opt) = Ok config_val ->
     compare_map_find (boost.type default_val) (_any_compare_map (my (the_app s)))
       = None ->
     check_set_but_default opts_from_config set_but_default_list od s =
     (Ok set_but_default_list,
      with_cout (fun os => os ++ not_registered_warning opt default_val)%string s)).
Proof.
  split.
  - intros [| | | | | | | | |m]; reflexivity.
  - intros opts acc od s def opt v Hdef Hopt Hparse Hcm.
    unfold check_set_but_default. rewrite Hdef, Hopt.
    unfold bind at 1, lift at 1. rewrite Hparse.
    unfold bind at 1, gets at 1, try_catch, bind at 1, lift at 1, compare_map_at.
    rewrite Hcm. reflexivity.
Qed.

Lemma unregistered_type_is_warned_witness :
  check_set_but_default {| bpo.options := [level_line] |} [] option_level
    level_process =
  (Ok [],
   with_cout (fun os => os ++ not_registered_warning level_line
                                (any_other "9log_level" "info"))%string
     level_process).
Proof.
  apply (proj2 (unregistered_type_is_warned 0) {| bpo.options := [level_line] |}
           [] option_level level_process (any_other "9log_level" "info")
           level_line (any_other "9log_level" "info"));
    reflexivity.
Defined.

(** ** A config file that is not there *)

Lemma initialize_with_options_missing (options : bpo.variables_map)
    (autostart_plugins : list (option abstract_plugin)) (s s1 : process)
    (config_file_name : bfs.path) :
  resolve_paths options s = (Ok config_file_name, s1) ->
  bfs.exists_ (filesystem s1) config_file_name = false ->
  initialize_with_options options autostart_plugins s =
  match bfs.compare config_file_name
          (bfs.append (_config_dir (my (the_app s1))) "config.ini") with
  | Eq =>
      (write_default_config config_file_name ;;
       configure options config_file_name autostart_plugins) s1
  | _ =>
      (Ok false,
       with_cout (fun os => os ++ "Config file " ++ quoted config_file_name
                               ++ " missing." ++ endl)%string s1)
  end.
Proof.
  intros Hpaths Hmissing.
  unfold initialize_with_options.
  unfold bind at 1. rewrite Hpaths.
  unfold bind at 1, gets at 1. rewrite Hmissing.
  unfold bind at 1, gets at 1.
  destruct (bfs.compare config_file_name
              (bfs.append (_config_dir (my (the_app s1))) "config.ini"));
    reflexivity.
Qed.

(** Lines 187-194 where rendering the template returns: when the resolved
    config file does not exist and its path is [config.ini] under the config
    directory, the default-config template is written to that path and
    initialization goes on to read it; for any other path, initialization
    prints that the file is missing and returns [false], leaving the file
    system as it was. *)
Theorem missing_config_file (options : bpo.variables_map)
    (autostart_plugins : list (option abstract_plugin)) (s s1 : process)
    (config_file_name : bfs.path) :
  resolve_paths options s = (Ok config_file_name, s1) ->
  bfs.exists_ (filesystem s1) config_file_name = false ->
  match bfs.compare config_file_name
          (bfs.append (_config_dir (my (the_app s1))) "config.ini") with
  | Eq =>
      forall text,
        print_default_config (the_app s1) "" = (Ok tt, text) ->
        exists s2,
          bfs.read_file (filesystem s2) config_file_name = Some text /\
          the_app s2 = the_app s1 /\
          initialize_with_options options autostart_plugins s =
          configure options config_file_name autostart_plugins s2
  | _ =>
      initialize_with_options options autostart_plugins s =
      (Ok false,
       with_cout (fun os => os ++ "Config file " ++ quoted config_file_name
                               ++ " missing." ++ endl)%string s1)
  end.
Proof.
  intros Hpaths Hmissing.
  rewrite (initialize_with_options_missing _ _ _ _ _ Hpaths Hmissing).
  destruct (bfs.compare config_file_name
              (bfs.append (_config_dir (my (the_app s1))) "config.ini"));
    try reflexivity.
  intros text Htext.
  unfold bind at 1, write_default_config, bind at 1, gets at 1.
  destruct (bfs.exists_ (filesystem s1) (bfs.parent_path config_file_name)).
  - unfold bind at 1, ret at 1. rewrite Htext.
    eexists. split; [|split; [|reflexivity]].
    + simpl. apply smap_find_set_same.
    + reflexivity.
  - unfold bind at 1, modify at 1. simpl the_app. rewrite Htext.
    eexists. split; [|split; [|reflexivity]].
    + simpl. apply smap_find_set_same.
    + reflexivity.
Qed.

(** ** Plugin activation *)

Lemma abstract_plugin_initialize_ok (options : bpo.variables_map)
    (p : abstract_plugin) (s : process) :
  plugin_initialize p options = None ->
  abstract_plugin_initialize options p s = (Ok tt, initialize_effect s p).
Proof.
  intro Hp. unfold abstract_plugin_initialize, initialize_effect, state_of.
  run_step. destruct (smap_find (name p) (plugin_states s)) as [[| | |]|];
    simpl; try reflexivity; now rewrite Hp.
Qed.

Lemma abstract_plugin_initialize_throw (options : bpo.variables_map)
    (p : abstract_plugin) (s : process) (e : exception) :
  state_of (name p) s = registered ->
  plugin_initialize p options = Some e ->
  abstract_plugin_initialize options p s =
  (Throw e, with_trace (fun t => t ++ [ev_initialize (name p)]) s).
Proof.
  intros Hst Hp. unfold abstract_plugin_initialize. unfold state_of in Hst.
  run_step. destruct (smap_find (name p) (plugin_states s)) as [st|];
    [subst st|]; simpl; now rewrite Hp.
Qed.

Lemma initialize_if_registered_ok (options : bpo.variables_map)
    (p : abstract_plugin) (s : process) :
  plugin_initialize p options = None ->
  initialize_if_registered options (Some p) s = (Ok tt, initialize_effect s p).
Proof.
  intro Hp. unfold initialize_if_registered.
  unfold bind, get_state, gets.
  destruct (smap_find (name p) (plugin_states s)) as [st|] eqn:Hst.
  - destruct st; try (unfold initialize_effect, state_of; rewrite Hst; reflexivity).
    now apply abstract_plugin_initialize_ok.
  - now apply abstract_plugin_initialize_ok.
Qed.

Lemma initialize_if_registered_throw (options : bpo.variables_map)
    (p : abstract_plugin) (s : process) (e : exception) :
  state_of (name p) s = registered ->
  plugin_initialize p options = Some e ->
  initialize_if_registered options (Some p) s =
  (Throw e, with_trace (fun t => t ++ [ev_initialize (name p)]) s).
Proof.
  intros Hst Hp. unfold initialize_if_registered.
  unfold bind, get_state, gets. pose proof Hst as Hst'. unfold state_of in Hst'.
  destruct (smap_find (name p) (plugin_states s)) as [st|];
    [subst st|]; now apply abstract_plugin_initialize_throw.
Qed.

Lemma initialize_effect_registry (s : process) (p : abstract_plugin) :
  plugins (the_app (initialize_effect s p)) = plugins (the_app s).
Proof.
  unfold initialize_effect. now destruct (is_registered (state_of (name p) s)).
Qed.

Lemma fold_initialize_effect_registry (ps : list abstract_plugin) (s : process) :
  plugins (the_app (fold_left initialize_effect ps s)) = plugins (the_app s).
Proof.
  revert s. induction ps as [|p ps IH]; intro s; [reflexivity|].
  simpl. now rewrite IH, initialize_effect_registry.
Qed.

(** The loop over names that are all registered, with hooks that return. *)
Lemma initialize_by_name_run (options : bpo.variables_map) (l : list string)
    (s : process) :
  (forall n, In n l ->
     exists p, smap_find n (plugins (the_app s)) = Some p /\ name p = n /\
               plugin_initialize p options = None) ->
  exists ps,
    map name ps = l /\
    for_each (initialize_by_name options) l s =
    (Ok tt, fold_left initialize_effect ps s).
Proof.
  revert s. induction l as [|n l IH]; intros s Hreg.
  - exists []. split; reflexivity.
  - destruct (Hreg n) as (p & Hfind & Hname & Hhook); [now left|].
    destruct (IH (initialize_effect s p)) as (ps & Hmap & Hrun).
    { intros n' Hn'. rewrite initialize_effect_registry. apply Hreg. now right. }
    exists (p :: ps). split; [simpl; congruence|].
    rewrite for_each_cons. unfold initialize_by_name at 1.
    unfold bind, get_plugin, find_plugin, gets, bind. rewrite Hfind.
    unfold ret. rewrite (abstract_plugin_initialize_ok _ _ _ Hhook).
    exact Hrun.
Qed.

(** The loop over the autostart list, with hooks that return. *)
Lemma initialize_autostart_run (options : bpo.variables_map)
    (l : list (option abstract_plugin)) (s : process) :
  (forall p, In (Some p) l -> plugin_initialize p options = None) ->
  for_each (initialize_if_registered options) l s =
  (Ok tt, fold_left initialize_effect (non_null l) s).
Proof.
  revert s. induction l as [|[p|] l IH]; intros s Hok.
  - reflexivity.
  - rewrite for_each_cons, initialize_if_registered_ok by (apply Hok; now left).
    simpl. apply IH. intros q Hq. apply Hok. now right.
  - rewrite for_each_cons. simpl. apply IH. intros q Hq. apply Hok. now right.
Qed.

Lemma count_initialize_app (nm : string) (t1 t2 : list event) :
  count_initialize nm (t1 ++ t2) = count_initialize nm t1 + count_initialize nm t2.
Proof.
  induction t1 as [|[n|n|n|n] t1 IH]; simpl; auto. rewrite IH. lia.
Qed.

Lemma initialize_effect_state_same (s : process) (p : abstract_plugin) :
  state_of (name p) (initialize_effect s p) =
  if is_registered (state_of (name p) s) then initialized
  else state_of (name p) s.
Proof.
  unfold initialize_effect.
  destruct (is_registered (state_of (name p) s)); [|reflexivity].
  unfold state_of. simpl. now rewrite smap_find_set_same.
Qed.

Lemma initialize_effect_state_other (s : process) (p : abstract_plugin)
    (n : string) :
  n <> name p -> state_of n (initialize_effect s p) = state_of n s.
Proof.
  intro Hne. unfold initialize_effect.
  destruct (is_registered (state_of (name p) s)); [|reflexivity].
  unfold state_of. simpl. now rewrite smap_find_set_other.
Qed.

Lemma initialize_effect_trace (s : process) (p : abstract_plugin) :
  trace (initialize_effect s p) =
  if is_registered (state_of (name p) s)
  then trace s ++ [ev_initialize (name p)] else trace s.
Proof.
  unfold initialize_effect.
  now destruct (is_registered (state_of (name p) s)).
Qed.

(** After any number of requests, the hook of a plugin has run once more
    than before if the plugin was requested while still registered, and as
    often as before otherwise. *)
Lemma fold_initialize_effect_count (ps : list abstract_plugin) (s : process)
    (n : string) :
  count_initialize n (trace (fold_left initialize_effect ps s)) =
    count_initialize n (trace s)
    + (if mem_string n (map name ps) && is_registered (state_of n s) then 1 else 0) /\
  state_of n (fold_left initialize_effect ps s) =
    if mem_string n (map name ps) && is_registered (state_of n s)
    then initialized else state_of n s.
Proof.
  revert s. induction ps as [|p ps IH]; intro s.
  - simpl. split; [lia | reflexivity].
  - simpl fold_left. destruct (IH (initialize_effect s p)) as (Hc & Hs).
    rewrite Hc, Hs. clear IH Hc Hs. simpl map. simpl mem_string.
    rewrite initialize_effect_trace.
    destruct (String.eqb n (name p)) eqn:Hn.
    + apply String.eqb_eq in Hn. subst n.
      rewrite initialize_effect_state_same.
      destruct (is_registered (state_of (name p) s)) eqn:Hreg; simpl.
      * rewrite andb_false_r, count_initialize_app. simpl.
        rewrite String.eqb_refl. split; [lia | reflexivity].
      * rewrite Hreg, andb_false_r. split; [lia | reflexivity].
    + apply String.eqb_neq in Hn.
      rewrite (initialize_effect_state_other s p n Hn). simpl orb.
      destruct (is_registered (state_of (name p) s)); [|split; reflexivity].
      rewrite count_initialize_app. simpl.
      assert (Hne : String.eqb (name p) n = false)
        by (apply String.eqb_neq; congruence).
      rewrite Hne. split; [lia | reflexivity].
Qed.

Lemma for_each_flat_map {A B} (f : A -> list B) (body : B -> M unit)
    (l : list A) (s : process) :
  for_each (fun x => for_each body (f x)) l s = for_each body (flat_map f l) s.
Proof.
  revert s. induction l as [|x l IH]; intro s; [reflexivity|].
  simpl flat_map. rewrite for_each_cons, for_each_app.
  destruct (for_each body (f x) s) as [[[]|e] s1]; [apply IH | reflexivity].
Qed.

(** Lines 241-251 when the [plugin] option holds [args]: one loop over the
    names the values split into. *)
Lemma initialize_named_plugins_names (options : bpo.variables_map)
    (x : bpo.variable_value) (args : list string) (s : process) :
  smap_find "plugin" (bpo.m options) = Some x ->
  bpo.v x = any_vector_string args ->
  initialize_named_plugins options s =
  for_each (initialize_by_name options) (plugin_names args) s.
Proof.
  intros Hx Hv. unfold initialize_named_plugins, bpo.count, smap_count.
  rewrite Hx. simpl Nat.ltb. cbv iota.
  unfold bind at 1, lift at 1, bpo.at_. rewrite Hx.
  unfold bind at 1, lift at 1, bpo.as_vector_string. rewrite Hv.
  unfold plugin_names. rewrite <- for_each_flat_map. reflexivity.
Qed.

Lemma initialize_by_name_unknown (options : bpo.variables_map) (nm : string)
    (s : process) :
  smap_find nm (plugins (the_app s)) = None ->
  initialize_by_name options nm s =
  (Throw (runtime_error ("unable to find plugin: " ++ nm)), s).
Proof.
  intro H. unfold initialize_by_name, bind, get_plugin, find_plugin, gets, bind.
  now rewrite H.
Qed.

(** C7.  When the [plugin] option holds [args]: every value is split on
    spaces, tabs and commas and each resulting name is looked up and
    initialized, in order; a name the registry does not hold throws the
    error of [get_plugin]; and when every name is registered and the hooks
    return, activation succeeds and the initialize hook of a plugin has run
    exactly once more if the plugin was named or is in the autostart list
    and was still registered, and not at all otherwise -- however often it
    is named, and whether or not it is also in the autostart list.  So
    [A,B] and [A B] name the same two plugins. *)
Theorem plugin_option_activation (options : bpo.variables_map)
    (x : bpo.variable_value) (args : list string)
    (autostart_plugins : list (option abstract_plugin)) (s : process) :
  smap_find "plugin" (bpo.m options) = Some x ->
  bpo.v x = any_vector_string args ->
  initialize_named_plugins options s =
    for_each (initialize_by_name options) (plugin_names args) s /\
  (forall pre nm post s1,
     plugin_names args = pre ++ nm :: post ->
     for_each (initialize_by_name options) pre s = (Ok tt, s1) ->
     smap_find nm (plugins (the_app s1)) = None ->
     initialize_named_plugins options s =
     (Throw (runtime_error ("unable to find plugin: " ++ nm)), s1)) /\
  ((forall n, In n (plugin_names args) ->
      exists p, smap_find n (plugins (the_app s)) = Some p /\ name p = n /\
                plugin_initialize p options = None) ->
   (forall p, In (Some p) autostart_plugins -> plugin_initialize p options = None) ->
   bpo.notify_all options = Ok tt ->
   exists s',
     activate_plugins options autostart_plugins s = (Ok true, s') /\
     forall n,
       count_initialize n (trace s') =
         count_initialize n (trace s)
         + (if (mem_string n (plugin_names args)
                || mem_string n (map name (non_null autostart_plugins)))
               && is_registered (state_of n s) then 1 else 0) /\
       state_of n s' =
         if (mem_string n (plugin_names args)
             || mem_string n (map name (non_null autostart_plugins)))
            && is_registered (state_of n s)
         then initialized else state_of n s) /\
  plugin_names ["A,B"] = ["A"; "B"] /\
  plugin_names ["A B"] = ["A"; "B"].
Proof.
  intros Hx Hv.
  pose proof (initialize_named_plugins_names options x args s Hx Hv) as Hnamed.
  split; [exact Hnamed|]. split; [|split; [|split; reflexivity]].
  - intros pre nm post s1 Hsplit Hpre Hnone.
    rewrite Hnamed, Hsplit, for_each_app, Hpre, for_each_cons.
    now rewrite initialize_by_name_unknown.
  - intros Hreg Hauto Hnotify.
    destruct (initialize_by_name_run options (plugin_names args) s Hreg)
      as (ps & Hmap & Hrun).
    exists (fold_left initialize_effect (ps ++ non_null autostart_plugins) s).
    split.
    + unfold activate_plugins, bind. rewrite Hnamed, Hrun.
      unfold initialize_autostart_plugins, try_catch, bind.
      rewrite (initialize_autostart_run _ _ _ Hauto).
      unfold lift. rewrite Hnotify. unfold ret. now rewrite fold_left_app.
    + intro n.
      destruct (fold_initialize_effect_count (ps ++ non_null autostart_plugins) s n)
        as (Hc & Hs).
      rewrite map_app, mem_string_app, Hmap in Hc, Hs. split; assumption.
Qed.

Lemma plugin_option_activation_witness :
  exists s',
    activate_plugins (options_with_plugins ["A,B"]) [Some plugin_A; Some plugin_C]
      (fresh_process [plugin_A; plugin_B; plugin_C] []) = (Ok true, s') /\
    forall n,
      count_initialize n (trace s') =
        count_initialize n []
        + (if (mem_string n ["A"; "B"] || mem_string n ["A"; "C"]) && true
           then 1 else 0) /\
      state_of n s' =
        if (mem_string n ["A"; "B"] || mem_string n ["A"; "C"]) && true
        then initialized else registered.
Proof.
  refine (proj1 (proj2 (proj2
    (plugin_option_activation (options_with_plugins ["A,B"])
       {| bpo.v := any_vector_string ["A,B"]; bpo.m_defaulted := false;
          bpo.m_value_semantic := None |}
       ["A,B"] [Some plugin_A; Some plugin_C]
       (fresh_process [plugin_A; plugin_B; plugin_C] []) eq_refl eq_refl))) _ _ eq_refl).
  - intros n [<-|[<-|[]]].
    + exists plugin_A. repeat split.
    + exists plugin_B. repeat split.
  - intros p [Hp|[Hp|[]]]; injection Hp as <-; reflexivity.
Defined.

(** The two spellings of the specification, with A in the autostart list as
    well: A and B are initialized, once each. *)
Example plugin_A_comma_B :
  let r := run_initialize_impl ["--plugin=A,B"] [Some plugin_A]
             (fresh_process [plugin_A; plugin_B; plugin_C] []) in
  fst r = Ok true /\
  trace (snd r) = [ev_initialize "A"; ev_initialize "B"] /\
  map name (initialized_plugins (the_app (snd r))) = ["A"; "B"].
Proof. vm_compute. repeat split. Qed.

Example plugin_A_space_B :
  let r := run_initialize_impl ["--plugin=A B"] [Some plugin_A]
             (fresh_process [plugin_A; plugin_B; plugin_C] []) in
  fst r = Ok true /\
  trace (snd r) = [ev_initialize "A"; ev_initialize "B"] /\
  map name (initialized_plugins (the_app (snd r))) = ["A"; "B"].
Proof. vm_compute. repeat split. Qed.

(** ** Exceptions from an initialize hook *)

(** C6, as the code has it.  An exception from the initialize hook of a
    plugin named by the [plugin] option leaves the activation as it was
    thrown.  An exception from the initialize hook of a plugin of the
    autostart list is caught: "Failed to initialize" goes to the standard
    error stream and the activation returns [false]. *)
Theorem initialize_hook_exception (options : bpo.variables_map) :
  (forall x args autostart_plugins pre nm post s s1 p e,
     smap_find "plugin" (bpo.m options) = Some x ->
     bpo.v x = any_vector_string args ->
     plugin_names args = pre ++ nm :: post ->
     for_each (initialize_by_name options) pre s = (Ok tt, s1) ->
     smap_find nm (plugins (the_app s1)) = Some p ->
     state_of (name p) s1 = registered ->
     plugin_initialize p options = Some e ->
     activate_plugins options autostart_plugins s =
     (Throw e, with_trace (fun t => t ++ [ev_initialize (name p)]) s1)) /\
  (forall autostart_plugins pre p post s s0 s1 e,
     initialize_named_plugins options s = (Ok tt, s0) ->
     autostart_plugins = pre ++ Some p :: post ->
     for_each (initialize_if_registered options) pre s0 = (Ok tt, s1) ->
     state_of (name p) s1 = registered ->
     plugin_initialize p options = Some e ->
     activate_plugins options autostart_plugins s =
     (Ok false,
      with_cerr (fun os => os ++ "Failed to initialize" ++ endl)%string
        (with_trace (fun t => t ++ [ev_initialize (name p)]) s1))).
Proof.
  split.
  - intros x args autostart pre nm post s s1 p e Hx Hv Hsplit Hpre Hfind Hst Hp.
    unfold activate_plugins, bind.
    rewrite (initialize_named_plugins_names options x args s Hx Hv).
    rewrite Hsplit, for_each_app, Hpre, for_each_cons.
    unfold initialize_by_name at 1.
    unfold bind, get_plugin, find_plugin, gets, bind. rewrite Hfind.
    unfold ret. now rewrite (abstract_plugin_initialize_throw _ _ _ _ Hst Hp).
  - intros autostart pre p post s s0 s1 e Hnamed -> Hpre Hst Hp.
    unfold activate_plugins, bind. rewrite Hnamed.
    unfold initialize_autostart_plugins, try_catch, bind.
    rewrite for_each_app, Hpre, for_each_cons.
    now rewrite (initialize_if_registered_throw _ _ _ _ Hst Hp).
Qed.

Lemma initialize_hook_exception_witness :
  activate_plugins (options_with_plugins ["bad"]) [] (fresh_process [plugin_bad] [])
    = (Throw (plugin_error "boom"),
       with_trace (fun t => t ++ [ev_initialize "bad"]) (fresh_process [plugin_bad] [])) /\
  activate_plugins bpo.empty_variables_map [Some plugin_bad]
    (fresh_process [plugin_bad] [])
    = (Ok false,
       with_cerr (fun os => os ++ "Failed to initialize" ++ endl)%string
         (with_trace (fun t => t ++ [ev_initialize "bad"])
            (fresh_process [plugin_bad] []))).
Proof.
  split.
  - exact (proj1 (initialize_hook_exception (options_with_plugins ["bad"]))
             {| bpo.v := any_vector_string ["bad"]; bpo.m_defaulted := false;
                bpo.m_value_semantic := None |}
             ["bad"] [] [] "bad" [] (fresh_process [plugin_bad] [])
             (fresh_process [plugin_bad] []) plugin_bad (plugin_error "boom")
             eq_refl eq_refl eq_refl eq_refl eq_refl eq_refl eq_refl).
  - exact (proj2 (initialize_hook_exception bpo.empty_variables_map)
             [Some plugin_bad] [] plugin_bad [] (fresh_process [plugin_bad] [])
             (fresh_process [plugin_bad] []) (fresh_process [plugin_bad] [])
             (plugin_error "boom") eq_refl eq_refl eq_refl eq_refl eq_refl).
Defined.

(** The claim C6 fails for the autostart list: the initialize hook of the
    autostart plugin runs and throws, and [initialize_impl] returns [false]
    to the host instead of letting the exception through. *)
Lemma autostart_exception_is_caught :
  plugin_initialize plugin_bad bpo.empty_variables_map = Some (plugin_error "boom") /\
  trace (snd bad_autostart_run) = [ev_initialize "bad"] /\
  fst bad_autostart_run = Ok false /\
  fst bad_autostart_run <> Throw (plugin_error "boom").
Proof. vm_compute. repeat split. discriminate. Qed.

(** Named by [--plugin], the same plugin lets its exception through. *)
Example named_exception_propagates :
  fst (run_initialize_impl ["--plugin=bad"] [] (fresh_process [plugin_bad] []))
  = Throw (plugin_error "boom").
Proof. vm_compute. reflexivity. Qed.

(** ** Concrete runs of the lifecycle *)

Lemma shutdown_reverse_order_witness :
  exists s1 s',
    for_each abstract_plugin_shutdown (rev [plugin_A; plugin_B; plugin_C])
      (running_process [plugin_A; plugin_B; plugin_C]) = (Ok tt, s1) /\
    trace s1 = [] ++ map ev_shutdown (rev ["A"; "B"; "C"]) /\
    the_app s1 = the_app (running_process [plugin_A; plugin_B; plugin_C]) /\
    shutdown (running_process [plugin_A; plugin_B; plugin_C]) = (Ok tt, s') /\
    trace s' = trace s1 ++ map ev_erase (rev ["A"; "B"; "C"]) /\
    plugins (the_app s') = [] /\
    initialized_plugins (the_app s') = [] /\
    running_plugins (the_app s') = [].
Proof.
  apply (shutdown_reverse_order (running_process [plugin_A; plugin_B; plugin_C])).
  repeat constructor.
Defined.

(** Start order [A, B, C]: the shutdown hooks run in the order [C, B, A],
    and the registry is emptied after the last of them. *)
Example shutdown_C_B_A :
  trace (snd (shutdown (running_process [plugin_A; plugin_B; plugin_C]))) =
  [ev_shutdown "C"; ev_shutdown "B"; ev_shutdown "A";
   ev_erase "C"; ev_erase "B"; ev_erase "A"].
Proof. reflexivity. Qed.

(** With a shutdown hook that throws, [shutdown] stops there. *)
Example shutdown_with_throwing_hook :
  fst (shutdown (running_process [plugin_A; plugin_no_stop; plugin_C]))
    = Throw (plugin_error "no stop") /\
  trace (snd (shutdown (running_process [plugin_A; plugin_no_stop; plugin_C])))
    = [ev_shutdown "C"; ev_shutdown "Y"] /\
  map name (running_plugins (the_app
    (snd (shutdown (running_process [plugin_A; plugin_no_stop; plugin_C])))))
    = ["A"; "Y"; "C"].
Proof. repeat split. Qed.

Lemma startup_failure_unwinds_witness :
  exists s',
    startup (initialized_process [plugin_A; plugin_B; plugin_no_start; plugin_C])
      = (Throw (plugin_error "no start"), s') /\
    trace s' = [] ++ map ev_startup (map name ([plugin_A; plugin_B] ++ [plugin_no_start]))
                  ++ map ev_shutdown (rev (map name ([] ++ [plugin_A; plugin_B])))
                  ++ map ev_erase (rev (map name ([] ++ [plugin_A; plugin_B]))) /\
    running_plugins (the_app s') = [] /\
    initialized_plugins (the_app s') = [] /\
    plugins (the_app s') = [] /\
    (forall q, In q [plugin_A; plugin_B] ->
               smap_find (name q) (plugin_states s') = Some stopped).
Proof.
  apply (startup_failure_unwinds
           (initialized_process [plugin_A; plugin_B; plugin_no_start; plugin_C])
           [plugin_A; plugin_B] [plugin_C] plugin_no_start (plugin_error "no start")).
  - reflexivity.
  - repeat constructor; simpl; intuition discriminate.
  - intros q [<-|[<-|[<-|[]]]]; reflexivity.
  - repeat constructor.
  - reflexivity.
  - repeat constructor.
Defined.

(** Startup fails on the third plugin: the two started before it are shut
    down, last started first, and the exception of the hook comes out. *)
Example startup_fails_on_third :
  fst (startup (initialized_process [plugin_A; plugin_B; plugin_no_start; plugin_C]))
    = Throw (plugin_error "no start") /\
  trace (snd (startup (initialized_process [plugin_A; plugin_B; plugin_no_start; plugin_C])))
    = [ev_startup "A"; ev_startup "B"; ev_startup "X";
       ev_shutdown "B"; ev_shutdown "A"; ev_erase "B"; ev_erase "A"].
Proof. repeat split. Qed.

(** ** Concrete runs of the merge *)

Lemma merge_precedence_witness :
  bpo.store (one_option "foo" "false") foo_app_options bpo.empty_variables_map
    = Ok foo_vm1 /\
  bpo.store (one_option "foo" "true") foo_cfg_options foo_vm1 = Ok foo_vm2 /\
  resolved foo_vm2 "foo" = Some (any_bool false).
Proof.
  split; [reflexivity|]. split; [reflexivity|].
  pose proof (merge_precedence foo_app_options foo_cfg_options
                (one_option "foo" "false") (one_option "foo" "true")
                foo_vm1 foo_vm2 "foo" eq_refl eq_refl ltac:(discriminate)) as H.
  simpl in H. destruct H as (d & x & Hfind & Hparse & Hres).
  injection Hfind as <-. injection Hparse as <-. exact Hres.
Defined.

(** The example of the specification: default false, config file true,
    command line false; the resolved value is false. *)
Example foo_command_line_wins :
  option_map (fun vm => resolved vm "foo")
    (match merged foo_app_options foo_cfg_options
             (one_option "foo" "false") (one_option "foo" "true") with
     | Ok vm => Some vm
     | Throw _ => None
     end)
  = Some (Some (any_bool false)).
Proof. reflexivity. Qed.

(** The claim C3 fails for the composing option [plugin]: with [A] on the
    command line and [B] in the config file, the resolved value is neither
    the command-line value nor the config-file value but both. *)
Lemma plugin_list_is_composed :
  given (one_option "plugin" "A") "plugin" = [["A"]] /\
  given (one_option "plugin" "B") "plugin" = [["B"]] /\
  bpo.validate_vector_string any_empty ["A"] = Ok (any_vector_string ["A"]) /\
  option_map (fun vm => resolved vm "plugin")
    (match merged foo_app_options foo_cfg_options
             (one_option "plugin" "A") (one_option "plugin" "B") with
     | Ok vm => Some vm
     | Throw _ => None
     end)
  = Some (Some (any_vector_string ["A"; "B"])) /\
  any_vector_string ["A"; "B"] <> any_vector_string ["A"].
Proof. repeat split. discriminate. Qed.

(** ** Concrete runs with a missing config file *)

Lemma missing_config_file_witness :
  initialize_with_options (options_with_config "custom.ini") []
    (fresh_process [plugin_A] []) =
  (Ok false,
   with_cout (fun os => os ++ "Config file " ++ quoted "config-dir/custom.ini"
                           ++ " missing." ++ endl)%string
     (resolved_process "custom.ini")).
Proof.
  exact (missing_config_file (options_with_config "custom.ini") []
           (fresh_process [plugin_A] []) (resolved_process "custom.ini")
           "config-dir/custom.ini" eq_refl eq_refl).
Defined.

(** [custom.ini] is missing: reported, nothing generated. *)
Example custom_ini_missing :
  fst (run_initialize_impl ["--config=custom.ini"] []
         (fresh_process [plugin_A] [])) = Ok false /\
  bfs.files (filesystem (snd (run_initialize_impl ["--config=custom.ini"] []
                                (fresh_process [plugin_A] [])))) = [].
Proof. vm_compute. split; reflexivity. Qed.

(** [config.ini] is missing: the template is written where it belongs and
    initialization goes on. *)
Example config_ini_generated :
  fst (run_initialize_impl [] [] (fresh_process [plugin_A] [])) = Ok true /\
  map fst (bfs.files (filesystem (snd (run_initialize_impl [] []
                                         (fresh_process [plugin_A] [])))))
  = ["config-dir/config.ini"].
Proof. vm_compute. split; reflexivity. Qed.

(** ** The default-config template read back *)

Lemma scan_app (at_ : position) (s1 s2 : string) :
  scan at_ (s1 ++ s2) =
  match scan at_ s1 with
  | Some at' => scan at' s2
  | None => None
  end.
Proof.
  revert at_. induction s1 as [|c s1 IH]; intro at_; simpl; [reflexivity|].
  destruct (Ascii.eqb c newline); [apply IH|].
  destruct at_; [|apply IH].
  destruct (Ascii.eqb c "#"%char); [apply IH | reflexivity].
Qed.

Lemma scan_no_newline (s : string) :
  no_newline s = true -> scan in_comment s = Some in_comment.
Proof.
  induction s as [|c s IH]; simpl; [reflexivity|].
  intro H. apply andb_true_iff in H as [Hc Hs].
  apply negb_true_iff in Hc. rewrite Hc. now apply IH.
Qed.

(** A description stays inside the comment, whatever line breaks it has. *)
Lemma scan_description (desc : string) :
  scan in_comment (replace_all desc newline (String newline "# ")) = Some in_comment.
Proof.
  induction desc as [|c desc IH]; simpl; [reflexivity|].
  destruct (Ascii.eqb c newline) eqn:Hc.
  - simpl. exact IH.
  - simpl. rewrite Hc. exact IH.
Qed.

Lemma no_newline_app (s1 s2 : string) :
  no_newline (s1 ++ s2) = no_newline s1 && no_newline s2.
Proof.
  induction s1 as [|c s1 IH]; simpl; [reflexivity|].
  now rewrite IH, andb_assoc.
Qed.

Lemma no_newline_substring (s : string) (n k : nat) :
  no_newline s = true -> no_newline (substring n k s) = true.
Proof.
  revert n k. induction s as [|c s IH]; intros n k H.
  - destruct n, k; reflexivity.
  - simpl in H. apply andb_true_iff in H as [Hc Hs].
    destruct n as [|n]; simpl.
    + destruct k as [|k]; simpl; [reflexivity|]. rewrite Hc. now apply IH.
    + now apply IH.
Qed.

Lemma no_newline_erase (s t : string) (pos n : Z) :
  no_newline s = true -> string_erase s pos n = Ok t -> no_newline t = true.
Proof.
  unfold string_erase. intros Hs.
  destruct (Z.of_nat (String.length s) <? pos)%Z; [discriminate|].
  intros [= <-]. rewrite no_newline_app, !no_newline_substring by exact Hs.
  reflexivity.
Qed.

(** One block of the template, written at the start of a line, ends at the
    start of a line and never leaves the comments. *)
Lemma print_option_scan (option_to_plug : smap string)
    (od : bpo.option_description) (os os' : ostream) :
  scan line_start os = Some line_start ->
  no_newline (bpo.long_name od) = true ->
  no_newline (bpo.name (bpo.semantic od)) = true ->
  (forall plug, smap_find (bpo.long_name od) option_to_plug = Some plug ->
                no_newline plug = true) ->
  print_option option_to_plug od os = (Ok tt, os') ->
  scan line_start os' = Some line_start.
Proof.
  intros Hos Hname Hparam Hplug. unfold print_option.
  set (os1 := if string_is_empty (bpo.description od) then os else _).
  assert (Hos1 : scan line_start os1 = Some line_start).
  { subst os1. destruct (string_is_empty (bpo.description od)); [exact Hos|].
    rewrite scan_app, Hos. cbn [append scan Ascii.eqb Bool.eqb newline].
    rewrite scan_app, scan_description, scan_app.
    destruct (smap_find (bpo.long_name od) option_to_plug) as [plug|] eqn:Hfind.
    - cbn [append scan Ascii.eqb Bool.eqb newline].
      rewrite scan_app, (scan_no_newline plug) by now apply Hplug.
      reflexivity.
    - reflexivity. }
  clearbody os1.
  assert (Hline : forall text,
            no_newline text = true ->
            scan line_start (os1 ++ "# " ++ bpo.long_name od ++ " = " ++ text
                                 ++ endl ++ endl) = Some line_start).
  { intros text Htext. rewrite scan_app, Hos1.
    cbn [append scan Ascii.eqb Bool.eqb newline].
    rewrite scan_app, (scan_no_newline _ Hname).
    cbn [append scan Ascii.eqb Bool.eqb newline].
    rewrite scan_app, (scan_no_newline _ Htext). reflexivity. }
  destruct (bpo.apply_default (bpo.semantic od)) as [store|].
  - destruct (string_is_empty (bpo.format_parameter od)) eqn:Hex.
    + intros [= <-]. now apply (Hline "false").
    + destruct (type_index_eqb (boost.type store) ti_bool).
      * intros [= <-]. apply Hline. now destruct store as [| |[|]| | | | | | |].
      * destruct (string_erase (bpo.format_parameter od) 0 6) as [ex1|e] eqn:H1;
          simpl; [|discriminate].
        destruct (string_erase ex1 _ size_max) as [ex2|e] eqn:H2; [|discriminate].
        intros [= <-]. apply Hline.
        eapply no_newline_erase; [|exact H2].
        eapply no_newline_erase; [|exact H1].
        unfold bpo.format_parameter.
        now destruct (Nat.eqb (bpo.max_tokens (bpo.semantic od)) 0).
  - intros [= <-]. now apply (Hline "").
Qed.

Lemma smap_find_set_cases {T} (k k0 : string) (x y : T) (m : smap T) :
  smap_find k0 (smap_set k x m) = Some y -> y = x \/ smap_find k0 m = Some y.
Proof.
  destruct (string_dec k0 k) as [->|Hne].
  - rewrite smap_find_set_same. intros [= <-]. now left.
  - rewrite smap_find_set_other by exact Hne. now right.
Qed.

(** The owner written next to an option is the name of a registered plugin. *)
Lemma option_to_plug_of_names (registry : smap abstract_plugin) (key plug : string) :
  smap_find key (option_to_plug_of registry) = Some plug ->
  exists kv, In kv registry /\ plug = name (snd kv).
Proof.
  unfold option_to_plug_of.
  assert (H : forall (acc : smap string),
    (forall k v, smap_find k acc = Some v ->
                 exists kv, In kv registry /\ v = name (snd kv)) ->
    forall rest, (forall kv, In kv rest -> In kv registry) ->
    forall k v,
      smap_find k
        (fold_left
           (fun acc0 plug0 =>
              fold_left
                (fun acc' opt => smap_set (bpo.long_name opt) (name (snd plug0)) acc')
                (snd (plugin_set_program_options (snd plug0))) acc0)
           rest acc) = Some v ->
      exists kv, In kv registry /\ v = name (snd kv)).
  { intros acc Hacc rest. revert acc Hacc.
    induction rest as [|p rest IH]; intros acc Hacc Hsub k v; simpl.
    - apply Hacc.
    - apply IH; [|intros kv Hkv; apply Hsub; now right].
      clear IH k v.
      assert (Hp : In p registry) by (apply Hsub; now left).
      generalize (snd (plugin_set_program_options (snd p))). intro opts.
      revert acc Hacc. induction opts as [|o opts IHo]; intros acc Hacc k v; simpl.
      + apply Hacc.
      + apply IHo. intros k' v' Hfind.
        apply smap_find_set_cases in Hfind as [->|Hfind]; [|now apply (Hacc k')].
        exists p. auto. }
  apply (H [] (fun k v (Hf : smap_find k [] = Some v) =>
                 ltac:(discriminate Hf)) registry (fun kv Hkv => Hkv)).
Qed.

(** A template that renders without an exception, from a schema whose names
    and parameter texts hold no line break, never leaves its comments. *)
Lemma print_default_config_scan (a : application) (text : string) :
  single_line_schema a ->
  print_default_config a "" = (Ok tt, text) ->
  scan line_start text = Some line_start.
Proof.
  intros (Hopts & Hplugs). unfold print_default_config.
  assert (Hstart : scan line_start "" = Some line_start) by reflexivity.
  revert Hstart. generalize ""%string as os.
  revert Hopts. generalize (_cfg_options (my a)) as ods.
  induction ods as [|od ods IH]; intros Hopts os Hos; simpl.
  - now intros [= <-].
  - destruct (print_option (option_to_plug_of (plugins a)) od os)
      as [[[]|e] os1] eqn:Hstep; [|discriminate].
    apply IH; [intros od' Hod'; apply Hopts; now right|].
    destruct (Hopts od) as (Hname & Hparam); [now left|].
    eapply print_option_scan; eauto.
    intros plug Hfind. apply option_to_plug_of_names in Hfind as (kv & Hkv & ->).
    now apply Hplugs.
Qed.

(** The reader skips a line that is empty or starts with [#]. *)
Lemma config_file_options_skip (allowed : list string) (allow_unregistered : bool)
    (m_prefix line : string) (rest : list string) :
  line = "" \/ (exists r, line = String "#"%char r) ->
  bpo_detail.config_file_options allowed allow_unregistered m_prefix (line :: rest) =
  bpo_detail.config_file_options allowed allow_unregistered m_prefix rest.
Proof.
  intros [->|(r & ->)]; reflexivity.
Qed.

Lemma string_of_rev_comment (cur : list ascii) :
  exists r, string_of_list_ascii (rev (cur ++ ["#"%char])) = String "#"%char r.
Proof.
  rewrite rev_app_distr. simpl. eauto.
Qed.

(** A text that never leaves its comments holds no option. *)
Lemma commented_lines_hold_no_option (allowed : list string)
    (allow_unregistered : bool) (m_prefix : string) (chars cur : list ascii)
    (at_ at' : position) :
  (at_ = line_start /\ cur = []) \/
  (at_ = in_comment /\ exists cur', cur = cur' ++ ["#"%char]) ->
  scan at_ (string_of_list_ascii chars) = Some at' ->
  bpo_detail.config_file_options allowed allow_unregistered m_prefix
    (lines_from cur chars) = Ok [].
Proof.
  revert cur at_. induction chars as [|c chars IH]; intros cur at_ Hcur Hscan.
  - simpl. destruct Hcur as [(_ & ->)|(_ & cur' & ->)]; [reflexivity|].
    destruct (cur' ++ ["#"%char]) eqn:E;
      [destruct cur'; discriminate E|]. rewrite <- E.
    destruct (string_of_rev_comment cur') as (r & ->). reflexivity.
  - simpl in Hscan. simpl lines_from.
    destruct (Ascii.eqb c newline) eqn:Hc.
    + rewrite config_file_options_skip.
      * apply (IH [] line_start); auto.
      * destruct Hcur as [(_ & ->)|(_ & cur' & ->)]; [now left|].
        right. apply string_of_rev_comment.
    + destruct Hcur as [(-> & ->)|(-> & cur' & ->)].
      * destruct (Ascii.eqb c "#"%char) eqn:Hhash; [|discriminate].
        apply Ascii.eqb_eq in Hhash. subst c.
        apply (IH ["#"%char] in_comment); [|exact Hscan].
        right. split; [reflexivity|]. now exists [].
      * apply (IH (c :: cur' ++ ["#"%char]) in_comment); [|exact Hscan].
        right. split; [reflexivity|]. now exists (c :: cur').
Qed.

Lemma empty_options_store_defaults (desc : bpo.options_description) :
  bpo.store {| bpo.options := [] |} desc bpo.empty_variables_map =
  Ok (defaults_only desc).
Proof. reflexivity. Qed.

(** The round trip of the template, where it holds.  If the template renders
    to [text] without an exception, and no long name, parameter text or
    plugin name of the schema holds a line break, and every config option
    has a long name, then reading [text] back against the schema gives no
    option at all, so that storing what was read resolves every key to the
    default the schema declares for it. *)
Theorem default_config_round_trip (a : application) (text : string)
    (fs : bfs.filesystem) (file : bfs.path) :
  single_line_schema a ->
  (forall od, In od (_cfg_options (my a)) -> bpo.long_name od <> "") ->
  print_default_config a "" = (Ok tt, text) ->
  bfs.read_file fs file = Some text ->
  parse_config_file fs file (_cfg_options (my a)) false
    = Ok {| bpo.options := [] |} /\
  bpo.store {| bpo.options := [] |} (_cfg_options (my a)) bpo.empty_variables_map
    = Ok (defaults_only (_cfg_options (my a))) /\
  forall od, In od (_cfg_options (my a)) ->
    resolved (defaults_only (_cfg_options (my a))) (bpo.long_name od)
    = declared_default (_cfg_options (my a)) (bpo.long_name od).
Proof.
  intros Hsingle Hnames Hrender Hread.
  split; [|split; [reflexivity|]].
  - unfold parse_config_file. rewrite Hread.
    assert (Hex : existsb (fun d => string_is_empty (bpo.long_name d))
                    (_cfg_options (my a)) = false).
    { apply not_true_is_false. intro Hex.
      apply existsb_exists in Hex as (d & Hd & He).
      apply string_is_empty_true in He. exact (Hnames d Hd He). }
    rewrite Hex. unfold getlines.
    erewrite commented_lines_hold_no_option; [reflexivity | now left |].
    rewrite string_of_list_ascii_of_string.
    eapply print_default_config_scan; eauto.
  - intros od Hod. unfold resolved, defaults_only.
    pose proof (store_default_applies (_cfg_options (my a)) bpo.empty_variables_map
                  (bpo.long_name od) (Hnames od Hod) eq_refl) as H.
    destruct (smap_find (bpo.long_name od)
                (bpo.m (fold_left bpo.store_default (_cfg_options (my a))
                          bpo.empty_variables_map))) as [x|].
    + destruct H as (_ & ->). reflexivity.
    + now rewrite H.
Qed.

Lemma default_config_round_trip_witness :
  parse_config_file
    (config_ini (snd (print_default_config (app_with_option option_bar) "")))
    "config.ini" (_cfg_options (my (app_with_option option_bar))) false
    = Ok {| bpo.options := [] |} /\
  resolved (defaults_only (_cfg_options (my (app_with_option option_bar)))) "bar"
    = declared_default (_cfg_options (my (app_with_option option_bar))) "bar".
Proof.
  assert (Hround := default_config_round_trip (app_with_option option_bar)
    (snd (print_default_config (app_with_option option_bar) ""))
    (config_ini (snd (print_default_config (app_with_option option_bar) "")))
    "config.ini").
  destruct Hround as (Hparse & _ & Hdefaults).
  - split.
    + intros od [<-|[<-|[]]]; split; reflexivity.
    + intros kv [<-|[]]. reflexivity.
  - intros od [<-|[<-|[]]]; discriminate.
  - vm_compute. reflexivity.
  - reflexivity.
  - split; [exact Hparse|]. apply (Hdefaults option_bar). now left.
Defined.

(** C8 at the inputs where it fails.  A string option whose default is two
    lines long: the template renders, its second line is outside any
    comment, and reading the template back throws instead of yielding the
    default.  A string option whose default is the empty string: the
    parameter text is ["arg"], not ["arg (=...)"], and rendering throws
    [std::out_of_range] from the second [erase]. *)
Theorem default_config_template_not_read_back :
  (exists text,
     print_default_config (app_with_option option_motd) "" = (Ok tt, text) /\
     parse_config_file (config_ini text) "config.ini"
       (_cfg_options (my (app_with_option option_motd))) false
     = Throw (program_options_error
                "the options configuration file contains an invalid line 'world'")) /\
  bpo.apply_default (bpo.semantic option_motd) = Some (any_string two_lines) /\
  bpo.apply_default (bpo.semantic option_tag) = Some (any_string "") /\
  fst (print_default_config (app_with_option option_tag) "")
  = Throw (out_of_range "basic_string::erase").
Proof.
  split; [|split; [|split]].
  - exists (snd (print_default_config (app_with_option option_motd) "")).
    split; vm_compute; reflexivity.
  - reflexivity.
  - reflexivity.
  - vm_compute. reflexivity.
Qed.

(** Started without a config file, such a host writes a [config.ini] that it
    cannot read, or fails while writing it. *)
Example generated_config_is_rejected :
  fst (run_initialize_impl [] [] (fresh_process [quiet_plugin "P" [option_motd]] []))
  = Throw (program_options_error
             "the options configuration file contains an invalid line 'world'") /\
  fst (run_initialize_impl [] [] (fresh_process [quiet_plugin "P" [option_tag]] []))
  = Throw (out_of_range "basic_string::erase").
Proof. vm_compute. split; reflexivity. Qed.

(** The template of the example host of the specification reads back. *)
Example bar_template_round_trip :
  exists text,
    print_default_config (app_with_option option_bar) "" = (Ok tt, text) /\
    parse_config_file (config_ini text) "config.ini"
      (_cfg_options (my (app_with_option option_bar))) false
    = Ok {| bpo.options := [] |} /\
    resolved (defaults_only (_cfg_options (my (app_with_option option_bar)))) "bar"
    = Some (any_int 10).
Proof.
  exists (snd (print_default_config (app_with_option option_bar) "")).
  split; [vm_compute; reflexivity|]. split; vm_compute; reflexivity.
Qed.


(** * Further properties of application.cpp *)

(** ** Shutdown and what follows it *)

(** The shutdown hooks change the state of the plugins they belong to and of
    no other. *)
Lemma shutdown_hooks_other_state (l : list abstract_plugin) (s s' : process)
    (n : string) :
  ~ In n (map name l) ->
  for_each abstract_plugin_shutdown l s = (Ok tt, s') ->
  smap_find n (plugin_states s') = smap_find n (plugin_states s).
Proof.
  revert s. induction l as [|p l IH]; intros s Hn; simpl.
  - unfold ret. now intros [= <-].
  - unfold abstract_plugin_shutdown at 1. run_step.
    destruct (plugin_shutdown p) as [e|]; simpl; [discriminate|].
    intro Hrun. rewrite (IH _ (fun H => Hn (or_intror H)) Hrun). simpl.
    apply smap_find_set_other. intro Heq. apply Hn. now left.
Qed.

(** Whatever [shutdown] returns normally from, it leaves the cleared
    application object behind. *)
Lemma shutdown_returns_cleared (s s' : process) :
  shutdown s = (Ok tt, s') -> exists s2, s' = with_app cleared s2.
Proof.
  unfold shutdown. unfold bind at 1. unfold gets at 1.
  unfold bind at 1.
  destruct (for_each abstract_plugin_shutdown _ s) as [[[]|e] s1]; [|discriminate].
  unfold bind at 1.
  destruct (for_each _ _ s1) as [[[]|e] s2]; [|discriminate].
  unfold modify. intros [= <-]. now exists s2.
Qed.

(** X1.  Once [shutdown] has returned normally, the application holds no
    plugin any more: [find_plugin] gives the null pointer and [get_plugin]
    throws for every name, [startup] returns without calling anything, and a
    second [shutdown] returns and leaves the process as it is. *)
Theorem after_shutdown (s s' : process) (nm : string) :
  shutdown s = (Ok tt, s') ->
  find_plugin nm s' = (Ok None, s') /\
  get_plugin nm s' = (Throw (runtime_error ("unable to find plugin: " ++ nm)), s') /\
  startup s' = (Ok tt, s') /\
  shutdown s' = (Ok tt, s').
Proof.
  intro H. apply shutdown_returns_cleared in H as (s2 & ->).
  destruct s2 as [a st fs cwd out err tr]. repeat split.
Qed.

Lemma after_shutdown_witness :
  let s' := snd (shutdown (running_process [plugin_A; plugin_B])) in
  find_plugin "A" s' = (Ok None, s') /\
  get_plugin "A" s' = (Throw (runtime_error ("unable to find plugin: " ++ "A")), s') /\
  startup s' = (Ok tt, s') /\
  shutdown s' = (Ok tt, s').
Proof.
  exact (after_shutdown (running_process [plugin_A; plugin_B])
           (snd (shutdown (running_process [plugin_A; plugin_B]))) "A" eq_refl).
Defined.

(** X2.  A plugin that is not in the started list (registered or initialized
    only) is dropped by [shutdown] without its shutdown hook being called
    and with its state left as it was: every event [shutdown] adds is the
    shutdown or the erasure of a started plugin, and afterwards the plugin
    is no longer found.  The shutdown hooks of the started plugins are
    required not to throw. *)
Theorem shutdown_skips_unstarted (s : process) (n : string) :
  Forall (fun p => plugin_shutdown p = None) (running_plugins (the_app s)) ->
  ~ In n (map name (running_plugins (the_app s))) ->
  exists s' events,
    shutdown s = (Ok tt, s') /\
    trace s' = trace s ++ events /\
    ~ In (ev_shutdown n) events /\ ~ In (ev_erase n) events /\
    smap_find n (plugin_states s') = smap_find n (plugin_states s) /\
    find_plugin n s' = (Ok None, s').
Proof.
  intros Hall Hn. unfold shutdown.
  set (running := running_plugins (the_app s)) in *.
  assert (Hrev : Forall (fun p => plugin_shutdown p = None) (rev running))
    by (apply Forall_forall; intros p Hp; apply in_rev in Hp;
        revert p Hp; now apply Forall_forall).
  assert (Hnrev : ~ In n (map name (rev running)))
    by (rewrite map_rev; intro H; apply in_rev in H; now apply Hn).
  destruct (shutdown_hooks_run _ s Hrev) as (s1 & Hrun1 & Happ1 & Htr1 & _).
  destruct (erase_loop_run (rev running) s1)
    as (s2 & Hrun2 & Htr2 & Hst2 & _).
  unfold bind at 1. unfold gets at 1. fold running.
  unfold bind at 1. rewrite Hrun1.
  unfold bind at 1. rewrite Hrun2.
  eexists. exists (map ev_shutdown (map name (rev running))
                   ++ map ev_erase (map name (rev running))).
  split; [reflexivity|]. simpl. repeat split.
  - now rewrite Htr2, Htr1, <- app_assoc.
  - intro H. apply in_app_or in H as [H|H].
    + apply in_map_iff in H as (x & [= ->] & Hx). now apply Hnrev.
    + apply in_map_iff in H as (x & [=] & _).
  - intro H. apply in_app_or in H as [H|H].
    + apply in_map_iff in H as (x & [=] & _).
    + apply in_map_iff in H as (x & [= ->] & Hx). now apply Hnrev.
  - rewrite Hst2. exact (shutdown_hooks_other_state _ _ _ _ Hnrev Hrun1).
Qed.

Lemma shutdown_skips_unstarted_witness :
  exists s' events,
    shutdown (initialized_process [plugin_A; plugin_B]) = (Ok tt, s') /\
    trace s' = trace (initialized_process [plugin_A; plugin_B]) ++ events /\
    ~ In (ev_shutdown "A") events /\ ~ In (ev_erase "A") events /\
    smap_find "A" (plugin_states s')
    = smap_find "A" (plugin_states (initialized_process [plugin_A; plugin_B])) /\
    find_plugin "A" s' = (Ok None, s').
Proof.
  apply (shutdown_skips_unstarted (initialized_process [plugin_A; plugin_B]) "A").
  - constructor.
  - intros [].
Defined.

(** X3.  A shutdown hook that throws ends [shutdown] at once, with the
    exception of the hook: the hooks of the plugins started after it have
    run, those of the plugins started before it are not called, nothing is
    erased or cleared, and every plugin is still found in the registry. *)
Theorem shutdown_throw_keeps_registry (s : process)
    (pre post : list abstract_plugin) (p : abstract_plugin) (e : exception) :
  running_plugins (the_app s) = pre ++ p :: post ->
  Forall (fun q => plugin_shutdown q = None) post ->
  plugin_shutdown p = Some e ->
  exists s',
    shutdown s = (Throw e, s') /\
    trace s' = trace s ++ map ev_shutdown (rev (map name post))
                       ++ [ev_shutdown (name p)] /\
    running_plugins (the_app s') = pre ++ p :: post /\
    initialized_plugins (the_app s') = initialized_plugins (the_app s) /\
    (forall nm, find_plugin nm s'
                = (Ok (smap_find nm (plugins (the_app s))), s')).
Proof.
  intros Hrun Hpost Hp.
  destruct (shutdown_stops_at_throw s pre post p e Hrun Hpost Hp)
    as (s' & H1 & Htr1 & Happ1).
  exists s'. unfold find_plugin, gets. rewrite Happ1. auto.
Qed.

Lemma shutdown_throw_keeps_registry_witness :
  exists s',
    shutdown (running_process [plugin_A; plugin_no_stop; plugin_C])
    = (Throw (plugin_error "no stop"), s') /\
    trace s' = [] ++ map ev_shutdown (rev (map name [plugin_C]))
                  ++ [ev_shutdown (name plugin_no_stop)] /\
    running_plugins (the_app s') = [plugin_A] ++ plugin_no_stop :: [plugin_C] /\
    initialized_plugins (the_app s') = [plugin_A; plugin_no_stop; plugin_C] /\
    (forall nm,
       find_plugin nm s'
       = (Ok (smap_find nm
                (plugins (the_app (running_process
                                     [plugin_A; plugin_no_stop; plugin_C])))), s')).
Proof.
  apply (shutdown_throw_keeps_registry
           (running_process [plugin_A; plugin_no_stop; plugin_C])
           [plugin_A] [plugin_C] plugin_no_stop (plugin_error "no stop")).
  - reflexivity.
  - repeat constructor.
  - reflexivity.
Defined.

(** ** Startup *)

(** X4.  When no startup hook throws, [startup] calls the hook of every
    initialized plugin, in the order of initialization, appends the plugins
    in that order to the started list, and returns; [shutdown] is not
    called, and the registry and the initialized list stay as they were. *)
Theorem startup_starts_in_order (s : process) :
  NoDup (map name (initialized_plugins (the_app s))) ->
  (forall p, In p (initialized_plugins (the_app s)) ->
             smap_find (name p) (plugin_states s) = Some initialized) ->
  Forall (fun p => plugin_startup p = None) (initialized_plugins (the_app s)) ->
  exists s',
    startup s = (Ok tt, s') /\
    trace s' = trace s ++ map ev_startup (map name (initialized_plugins (the_app s))) /\
    running_plugins (the_app s')
    = running_plugins (the_app s) ++ initialized_plugins (the_app s) /\
    initialized_plugins (the_app s') = initialized_plugins (the_app s) /\
    plugins (the_app s') = plugins (the_app s).
Proof.
  intros Hnd Hst Hok.
  destruct (startup_hooks_run _ s Hnd Hst Hok)
    as (s' & Hrun & Htr & Hr & Hi & Hpl & _).
  exists s'. repeat split; auto.
  unfold startup, try_catch. unfold bind at 1. unfold gets at 1.
  now rewrite Hrun.
Qed.

Lemma startup_starts_in_order_witness :
  exists s',
    startup (initialized_process [plugin_A; plugin_B; plugin_C]) = (Ok tt, s') /\
    trace s' = [] ++ map ev_startup (map name [plugin_A; plugin_B; plugin_C]) /\
    running_plugins (the_app s') = [] ++ [plugin_A; plugin_B; plugin_C] /\
    initialized_plugins (the_app s') = [plugin_A; plugin_B; plugin_C] /\
    plugins (the_app s')
    = plugins (the_app (initialized_process [plugin_A; plugin_B; plugin_C])).
Proof.
  apply (startup_starts_in_order (initialized_process [plugin_A; plugin_B; plugin_C])).
  - repeat constructor; simpl; intuition discriminate.
  - intros q [<-|[<-|[<-|[]]]]; reflexivity.
  - repeat constructor.
Defined.

(** ** The option schema *)

(** The loop of [set_program_options] over a registry. *)
Lemma add_plugin_options_fold (registry : smap abstract_plugin)
    (impl : application_impl) :
  fold_left add_plugin_options registry impl =
  set_options (_app_options impl ++ plugin_app_options registry)
              (_cfg_options impl ++ plugin_cfg_options registry) impl.
Proof.
  revert impl. induction registry as [|plug registry IH]; intro impl.
  - destruct impl. unfold set_options. simpl. now rewrite !app_nil_r.
  - simpl fold_left. rewrite IH. unfold add_plugin_options.
    unfold plugin_app_options, plugin_cfg_options. simpl flat_map.
    destruct (plugin_set_program_options (snd plug)) as [cli cfg].
    destruct cfg as [|o cfg], cli as [|c cli]; unfold set_options; simpl;
      rewrite ?app_nil_r, <- ?app_assoc; reflexivity.
Qed.

(** What the plugins add to the config-file options they add to the
    command-line options. *)
Lemma plugin_cfg_options_incl (registry : smap abstract_plugin) :
  incl (plugin_cfg_options registry ++ app_cfg_opts)
       (plugin_app_options registry ++ app_cfg_opts ++ app_cli_opts).
Proof.
  intros od Hod. apply in_app_or in Hod as [Hod|Hod].
  - apply in_or_app. left. unfold plugin_cfg_options in Hod.
    apply in_flat_map in Hod as (plug & Hplug & Hod).
    unfold plugin_app_options. apply in_flat_map. exists plug.
    split; [exact Hplug|]. apply in_or_app. now left.
  - apply in_or_app. right. apply in_or_app. now left.
Qed.

(** X5.  One call of [set_program_options] appends to the config-file
    options the config options of every registered plugin, in registry
    order, and then [plugin]; to the command-line options it appends, plugin
    by plugin, the config options and then the command-line-only options of
    the plugin, then [plugin] and the seven options of the application
    ([help] to [logconf]).  Whatever it adds to the config-file options it
    also adds to the command-line options, and nothing else of the
    application changes. *)
Theorem set_program_options_schema (s : process) :
  let s' := snd (set_program_options s) in
  fst (set_program_options s) = Ok tt /\
  _cfg_options (my (the_app s'))
  = _cfg_options (my (the_app s))
    ++ plugin_cfg_options (plugins (the_app s)) ++ app_cfg_opts /\
  _app_options (my (the_app s'))
  = _app_options (my (the_app s))
    ++ plugin_app_options (plugins (the_app s)) ++ app_cfg_opts ++ app_cli_opts /\
  incl (plugin_cfg_options (plugins (the_app s)) ++ app_cfg_opts)
       (plugin_app_options (plugins (the_app s)) ++ app_cfg_opts ++ app_cli_opts) /\
  plugins (the_app s') = plugins (the_app s) /\
  initialized_plugins (the_app s') = initialized_plugins (the_app s) /\
  _data_dir (my (the_app s')) = _data_dir (my (the_app s)) /\
  _config_dir (my (the_app s')) = _config_dir (my (the_app s)) /\
  _logging_conf (my (the_app s')) = _logging_conf (my (the_app s)) /\
  _any_compare_map (my (the_app s')) = _any_compare_map (my (the_app s)) /\
  filesystem s' = filesystem s /\ trace s' = trace s /\
  plugin_states s' = plugin_states s.
Proof.
  cbv zeta. split; [reflexivity|].
  split.
  { unfold set_program_options, modify. simpl.
    rewrite add_plugin_options_fold. simpl. now rewrite <- app_assoc. }
  split.
  { unfold set_program_options, modify. simpl.
    rewrite add_plugin_options_fold. simpl. now rewrite <- app_assoc. }
  split; [apply plugin_cfg_options_incl|].
  unfold set_program_options, modify. simpl.
  rewrite add_plugin_options_fold. repeat split.
Qed.

(** ** The default-config template, option by option *)

Lemma string_app_nil_r (s : string) : (s ++ "")%string = s.
Proof. induction s as [|c s IH]; simpl; congruence. Qed.

Lemma string_app_assoc (a b c : string) :
  ((a ++ b) ++ c)%string = (a ++ b ++ c)%string.
Proof. induction a as [|x a IH]; simpl; congruence. Qed.

Lemma string_length_app (a b : string) :
  String.length (a ++ b) = String.length a + String.length b.
Proof. induction a as [|x a IH]; simpl; congruence. Qed.

(** What [print_option] writes does not depend on what the stream holds. *)
Lemma print_option_stream (option_to_plug : smap string)
    (od : bpo.option_description) (os : ostream) :
  print_option option_to_plug od os =
  (fst (print_option option_to_plug od ""),
   (os ++ snd (print_option option_to_plug od ""))%string).
Proof.
  unfold print_option.
  destruct (string_is_empty (bpo.description od));
    destruct (bpo.apply_default (bpo.semantic od)) as [store|];
    try destruct (string_is_empty (bpo.format_parameter od));
    try destruct (type_index_eqb (boost.type store) ti_bool);
    try match goal with
        | |- context [match ?r with Ok _ => _ | Throw _ => _ end] => destruct r
        end;
    cbn [fst snd]; rewrite ?string_app_assoc, ?string_app_nil_r; reflexivity.
Qed.

Lemma print_options_stream (option_to_plug : smap string)
    (ods : list bpo.option_description) (os : ostream) :
  print_options option_to_plug ods os =
  (fst (print_options option_to_plug ods ""),
   (os ++ snd (print_options option_to_plug ods ""))%string).
Proof.
  revert os. induction ods as [|od ods IH]; intro os; simpl.
  - now rewrite string_app_nil_r.
  - rewrite (print_option_stream option_to_plug od os).
    destruct (print_option option_to_plug od "") as [[[]|e] t]; cbn [fst snd].
    + rewrite (IH (os ++ t)%string), (IH t). cbn [fst snd].
      now rewrite string_app_assoc.
    + reflexivity.
Qed.

(** X6.  [print_default_config] only appends to its stream, and what it
    appends, and whether it throws, does not depend on what the stream
    holds: printing to a stream that holds [os] gives [os] followed by the
    text printed to an empty stream.  In particular
    [--print-default-config] adds to standard output the very text that
    [write_default_config] puts into a file. *)
Theorem default_config_text (s : process) (os : ostream) :
  print_default_config (the_app s) os
  = (fst (print_default_config (the_app s) ""),
     (os ++ snd (print_default_config (the_app s) ""))%string) /\
  print_default_config_cout s
  = (fst (print_default_config (the_app s) ""),
     with_cout (fun out => out ++ snd (print_default_config (the_app s) ""))%string s).
Proof.
  assert (Hos : forall os',
    print_default_config (the_app s) os'
    = (fst (print_default_config (the_app s) ""),
       (os' ++ snd (print_default_config (the_app s) ""))%string))
    by (intro os'; apply print_options_stream).
  split; [apply Hos|].
  unfold print_default_config_cout. now rewrite (Hos (cout s)).
Qed.

Lemma smap_count_set {T} (k k0 : string) (x : T) (m : smap T) :
  Nat.ltb 0 (smap_count k0 m) = true ->
  Nat.ltb 0 (smap_count k0 (smap_set k x m)) = true.
Proof.
  unfold smap_count. destruct (string_dec k0 k) as [->|Hne].
  - now rewrite smap_find_set_same.
  - now rewrite smap_find_set_other.
Qed.

(** [write_default_config], computed. *)
Lemma write_default_config_run (cfg_file : bfs.path) (s : process) :
  write_default_config cfg_file s =
  (fst (print_default_config (the_app s) ""),
   with_filesystem
     (bfs.write_file cfg_file (snd (print_default_config (the_app s) "")))
     (if bfs.exists_ (filesystem s) (bfs.parent_path cfg_file) then s
      else with_filesystem (bfs.create_directories (bfs.parent_path cfg_file)) s)).
Proof.
  unfold write_default_config. unfold bind at 1. unfold gets at 1.
  unfold bind at 1.
  destruct (bfs.exists_ (filesystem s) (bfs.parent_path cfg_file));
    unfold ret, modify; cbn [the_app with_filesystem];
    now destruct (print_default_config (the_app s) "").
Qed.

(** X7.  [write_default_config], for a file whose path has a parent
    directory, leaves a file system in which that directory exists, the
    file holds the text of the template, every directory that existed still
    does, and every other file holds what it held; it touches neither the
    application object nor the standard streams, and returns or throws as
    [print_default_config] does: when rendering throws, the file is there
    all the same, with the text written up to that point.  (For a path
    without a parent directory [create_directories] is called on the empty
    path, which is the library's to accept or refuse.) *)
Theorem write_default_config_effect (cfg_file : bfs.path) (s : process) :
  bfs.parent_path cfg_file <> "" ->
  let s' := snd (write_default_config cfg_file s) in
  bfs.read_file (filesystem s') cfg_file
  = Some (snd (print_default_config (the_app s) "")) /\
  bfs.exists_ (filesystem s') cfg_file = true /\
  bfs.exists_ (filesystem s') (bfs.parent_path cfg_file) = true /\
  (forall d, bfs.exists_ (filesystem s) d = true ->
             bfs.exists_ (filesystem s') d = true) /\
  (forall f, f <> cfg_file ->
             bfs.read_file (filesystem s') f = bfs.read_file (filesystem s) f) /\
  the_app s' = the_app s /\ cout s' = cout s /\ cerr s' = cerr s /\
  trace s' = trace s /\
  fst (write_default_config cfg_file s) = fst (print_default_config (the_app s) "").
Proof.
  intros _. cbv zeta. rewrite write_default_config_run. cbn [fst snd].
  assert (Hkeep : forall fs d text,
    bfs.exists_ fs d = true ->
    bfs.exists_ (bfs.write_file cfg_file text fs) d = true).
  { intros fs d text Hd. unfold bfs.exists_ in *.
    cbn [bfs.write_file bfs.files bfs.directories].
    apply orb_true_iff in Hd as [Hd|Hd]; apply orb_true_iff.
    - left. now apply smap_count_set.
    - now right. }
  assert (Hfile : forall fs text,
    bfs.exists_ (bfs.write_file cfg_file text fs) cfg_file = true).
  { intros fs text. unfold bfs.exists_, smap_count.
    cbn [bfs.write_file bfs.files]. now rewrite smap_find_set_same. }
  assert (Hread : forall fs text,
    bfs.read_file (bfs.write_file cfg_file text fs) cfg_file = Some text).
  { intros fs text. unfold bfs.read_file. cbn [bfs.write_file bfs.files].
    apply smap_find_set_same. }
  destruct (bfs.exists_ (filesystem s) (bfs.parent_path cfg_file)) eqn:Hparent;
    cbn [filesystem with_filesystem the_app cout cerr trace];
    (split; [apply Hread|]); (split; [apply Hfile|]); (split; [apply Hkeep|]).
  - exact Hparent.
  - repeat split; auto.
    intros f Hf. unfold bfs.read_file. cbn [bfs.write_file bfs.files].
    now apply smap_find_set_other.
  - unfold bfs.exists_, bfs.create_directories. cbn [bfs.directories].
    simpl mem_string. rewrite String.eqb_refl. apply orb_true_r.
  - repeat split; auto.
    + intros d Hd. apply Hkeep. unfold bfs.exists_ in *.
      cbn [bfs.create_directories bfs.files bfs.directories].
      apply orb_true_iff in Hd as [Hd|Hd]; apply orb_true_iff; [now left|].
      right. simpl. rewrite Hd. apply orb_true_r.
    + intros f Hf. unfold bfs.read_file.
      cbn [bfs.write_file bfs.create_directories bfs.files].
      now apply smap_find_set_other.
Qed.

Lemma write_default_config_effect_witness :
  let s' := snd (write_default_config "config-dir/config.ini" bar_process) in
  bfs.read_file (filesystem s') "config-dir/config.ini"
  = Some (snd (print_default_config (the_app bar_process) "")) /\
  bfs.exists_ (filesystem s') "config-dir/config.ini" = true /\
  bfs.exists_ (filesystem s') (bfs.parent_path "config-dir/config.ini") = true /\
  (forall d, bfs.exists_ (filesystem bar_process) d = true ->
             bfs.exists_ (filesystem s') d = true) /\
  (forall f, f <> "config-dir/config.ini" ->
             bfs.read_file (filesystem s') f
             = bfs.read_file (filesystem bar_process) f) /\
  the_app s' = the_app bar_process /\ cout s' = cout bar_process /\
  cerr s' = cerr bar_process /\ trace s' = trace bar_process /\
  fst (write_default_config "config-dir/config.ini" bar_process)
  = fst (print_default_config (the_app bar_process) "").
Proof.
  apply (write_default_config_effect "config-dir/config.ini" bar_process).
  intro H. vm_compute in H. discriminate H.
Defined.

(** *** The two [erase] calls *)

Lemma substring_0_0 (s : string) : substring 0 0 s = "".
Proof. now destruct s. Qed.

Lemma substring_n_0 (n : nat) (s : string) : substring n 0 s = "".
Proof. revert n. induction s as [|c s IH]; intros [|n]; simpl; auto. Qed.

Lemma substring_all (s : string) : substring 0 (String.length s) s = s.
Proof. induction s as [|c s IH]; simpl; congruence. Qed.

Lemma substring_prefix (a b : string) :
  substring 0 (String.length a) (a ++ b) = a.
Proof.
  induction a as [|c a IH]; simpl; [apply substring_0_0 | congruence].
Qed.

Lemma substring_length (n m : nat) (s : string) :
  String.length (substring n m s) = Nat.min m (String.length s - n).
Proof.
  revert n m. induction s as [|c s IH]; intros [|n] [|m]; simpl; auto.
  now rewrite IH, Nat.sub_0_r.
Qed.

(** [example.erase(0, 6)] never throws and drops the first six characters,
    or all of them when there are fewer. *)
Lemma string_erase_front (s : string) :
  string_erase s 0 6 = Ok (substring 6 (String.length s - 6) s).
Proof.
  unfold string_erase.
  destruct (Z.ltb_spec (Z.of_nat (String.length s)) 0) as [H|_]; [lia|].
  rewrite Z.sub_0_r. change (Z.to_nat 0) with 0. rewrite substring_0_0.
  cbn [append Nat.add]. f_equal.
  destruct (Nat.le_gt_cases 6 (String.length s)) as [H|H].
  - rewrite Z.min_l by lia. reflexivity.
  - rewrite Z.min_r by lia. rewrite Nat2Z.id.
    replace (String.length s - String.length s) with 0 by lia.
    replace (String.length s - 6) with 0 by lia.
    now rewrite !substring_n_0.
Qed.

(** [example.erase(example.length() - 1)]: the last character goes. *)
Lemma string_erase_back (s : string) :
  s <> "" ->
  (Z.of_nat (String.length s) < 2 ^ 64)%Z ->
  string_erase s ((Z.of_nat (String.length s) - 1) mod 2 ^ 64)%Z size_max =
  Ok (substring 0 (String.length s - 1) s).
Proof.
  intros Hs Hsize. unfold string_erase.
  set (len := String.length s) in *.
  assert (Hlen : 1 <= len) by (unfold len; destruct s; simpl; [congruence|lia]).
  rewrite Z.mod_small by lia.
  destruct (Z.ltb_spec (Z.of_nat len) (Z.of_nat len - 1)) as [H|_]; [lia|].
  replace (Z.to_nat (Z.of_nat len - 1)) with (len - 1) by lia.
  replace (Z.to_nat (Z.min size_max (Z.of_nat len - (Z.of_nat len - 1)))) with 1
    by (unfold size_max; lia).
  replace (len - (len - 1 + 1)) with 0 by lia.
  now rewrite substring_n_0, string_app_nil_r.
Qed.

(** On the empty string the position [length() - 1] wraps around to the
    largest [size_t] and [erase] throws; on any other string it returns. *)
Lemma string_erase_back_throws (s : string) :
  match string_erase s ((Z.of_nat (String.length s) - 1) mod 2 ^ 64)%Z size_max with
  | Ok _ => s <> ""
  | Throw e => s = "" /\ e = out_of_range "basic_string::erase"
  end.
Proof.
  destruct s as [|c s]; [now split|].
  unfold string_erase.
  set (len := String.length (String c s)).
  assert (Hlen : 1 <= len) by (unfold len; simpl; lia).
  assert (Hle : ((Z.of_nat len - 1) mod 2 ^ 64 <= Z.of_nat len - 1)%Z)
    by (apply Z.mod_le; lia).
  destruct (Z.ltb_spec (Z.of_nat len) ((Z.of_nat len - 1) mod 2 ^ 64)) as [H|_];
    [lia | discriminate].
Qed.

(** What both calls make of a parameter text. *)
Lemma erase_parameter_throws (example : string) :
  match (example1 <-- string_erase example 0 6;
         string_erase example1
           ((Z.of_nat (String.length example1) - 1) mod 2 ^ 64)%Z size_max)%result with
  | Ok _ => Nat.leb (String.length example) 6 = false
  | Throw e => Nat.leb (String.length example) 6 = true /\
               e = out_of_range "basic_string::erase"
  end.
Proof.
  rewrite string_erase_front. cbn [rbind].
  set (example1 := substring 6 (String.length example - 6) example).
  assert (Hlen : String.length example1 = String.length example - 6)
    by (unfold example1; rewrite substring_length; lia).
  pose proof (string_erase_back_throws example1) as H.
  destruct (string_erase example1 _ size_max) as [v|e].
  - apply Nat.leb_gt. destruct example1; [congruence | simpl in Hlen; lia].
  - destruct H as [H ->]. split; [|reflexivity].
    apply Nat.leb_le. rewrite H in Hlen. simpl in Hlen. lia.
Qed.

Lemma print_option_result (option_to_plug : smap string)
    (od : bpo.option_description) (os : ostream) :
  fst (print_option option_to_plug od os) =
  if parameter_too_short od then Throw (out_of_range "basic_string::erase")
  else Ok tt.
Proof.
  unfold print_option, parameter_too_short, erased_parameter.
  destruct (bpo.apply_default (bpo.semantic od)) as [store|]; [|reflexivity].
  destruct (string_is_empty (bpo.format_parameter od)); [reflexivity|].
  destruct (type_index_eqb (boost.type store) ti_bool); [reflexivity|].
  cbn [negb andb].
  pose proof (erase_parameter_throws (bpo.format_parameter od)) as H.
  destruct (rbind (string_erase (bpo.format_parameter od) 0 6) _) as [v|e].
  - now rewrite H.
  - destruct H as [-> ->]. reflexivity.
Qed.

(** X8.  [print_default_config] throws exactly when the config options hold
    one with a default, a parameter text that is not empty and a type other
    than [bool], whose parameter text has six characters or fewer (such as
    the ["arg"] of a default with an empty textual form): then the second
    [erase] is called at position [size_t(-1)] and throws
    [std::out_of_range].  In every other case it returns. *)
Theorem print_default_config_throws (a : application) (os : ostream) :
  fst (print_default_config a os) =
  if existsb parameter_too_short (_cfg_options (my a))
  then Throw (out_of_range "basic_string::erase")
  else Ok tt.
Proof.
  unfold print_default_config.
  generalize (option_to_plug_of (plugins a)). intro otp.
  revert os. induction (_cfg_options (my a)) as [|od ods IH]; intro os; simpl.
  - reflexivity.
  - pose proof (print_option_result otp od os) as H.
    destruct (print_option otp od os) as [[[]|e] os']; cbn [fst] in *.
    + destruct (parameter_too_short od); [discriminate|]. apply IH.
    + destruct (parameter_too_short od); [|discriminate]. exact H.
Qed.

(** X9.  An option whose parameter text is ["arg (=text)"], the form a
    default with the textual form [text] gives it, is written as the
    commented line [# name = text] after the lines of its description, with
    an empty line after it: the value shown is the text of the default,
    character for character. *)
Theorem print_option_default_text (option_to_plug : smap string)
    (od : bpo.option_description) (text : string) (os : ostream) :
  erased_parameter od = true ->
  bpo.format_parameter od = ("arg (=" ++ text ++ ")")%string ->
  (Z.of_nat (String.length text) < 2 ^ 64 - 1)%Z ->
  print_option option_to_plug od os =
  (Ok tt,
   (os ++ description_lines option_to_plug od
       ++ "# " ++ bpo.long_name od ++ " = " ++ text ++ endl ++ endl)%string).
Proof.
  intros Her Hex Hsize. unfold print_option, description_lines.
  unfold erased_parameter in Her.
  destruct (bpo.apply_default (bpo.semantic od)) as [store|]; [|discriminate].
  rewrite Hex in *. cbn [append string_is_empty negb andb] in Her |- *.
  apply negb_true_iff in Her. rewrite Her.
  rewrite string_erase_front. cbn [rbind].
  assert (H1 : substring 6 (String.length ("arg (=" ++ text ++ ")") - 6)
                 ("arg (=" ++ text ++ ")") = (text ++ ")")%string).
  { cbn [append String.length Nat.sub substring].
    rewrite Nat.sub_0_r. apply substring_all. }
  cbn [append] in H1. rewrite H1.
  rewrite string_erase_back.
  - rewrite string_length_app. cbn [String.length].
    replace (String.length text + 1 - 1) with (String.length text) by lia.
    rewrite substring_prefix.
    destruct (string_is_empty (bpo.description od));
      rewrite ?string_app_assoc, ?string_app_nil_r; reflexivity.
  - destruct text; discriminate.
  - rewrite string_length_app. cbn [String.length]. lia.
Qed.

Lemma print_option_default_text_witness :
  print_option [("bar", "B")] option_bar "" =
  (Ok tt,
   ("" ++ description_lines [("bar", "B")] option_bar
       ++ "# " ++ bpo.long_name option_bar ++ " = " ++ "10" ++ endl ++ endl)%string).
Proof.
  apply (print_option_default_text [("bar", "B")] option_bar "10" "").
  - reflexivity.
  - reflexivity.
  - reflexivity.
Defined.

(** *** The plugin named next to an option *)

Lemma option_to_plug_inner (nm key : string) (opts : list bpo.option_description)
    (acc : smap string) :
  smap_find key
    (fold_left (fun acc' opt => smap_set (bpo.long_name opt) nm acc') opts acc)
  = if existsb (fun opt => String.eqb (bpo.long_name opt) key) opts
    then Some nm else smap_find key acc.
Proof.
  revert acc. induction opts as [|o opts IH]; intro acc; simpl; [reflexivity|].
  rewrite IH.
  destruct (existsb (fun opt => String.eqb (bpo.long_name opt) key) opts);
    [now rewrite orb_true_r|].
  rewrite orb_false_r.
  destruct (String.eqb_spec (bpo.long_name o) key) as [->|Hne].
  - apply smap_find_set_same.
  - apply smap_find_set_other. congruence.
Qed.

(** X10.  The plugin [print_default_config] names in parentheses after the
    description of an option is the last plugin of the registry, in registry
    order, that declares a config option of that long name; an option no
    plugin declares (such as [plugin] itself) gets no name. *)
Theorem option_owner (registry : smap abstract_plugin) (key : string) :
  match smap_find key (option_to_plug_of registry) with
  | Some plug =>
      exists before kv after,
        registry = before ++ kv :: after /\
        plug = name (snd kv) /\
        declares (snd kv) key = true /\
        forallb (fun kv' => negb (declares (snd kv') key)) after = true
  | None => forallb (fun kv => negb (declares (snd kv) key)) registry = true
  end.
Proof.
  induction registry as [|kv registry IH] using rev_ind; [reflexivity|].
  unfold option_to_plug_of. rewrite fold_left_app. cbn [fold_left].
  fold (option_to_plug_of registry). rewrite option_to_plug_inner.
  fold (declares (snd kv) key).
  destruct (declares (snd kv) key) eqn:Hkv.
  - exists registry, kv, []. auto.
  - destruct (smap_find key (option_to_plug_of registry)) as [plug|].
    + destruct IH as (before & kv0 & after & -> & -> & Hd & Hafter).
      exists before, kv0, (after ++ [kv]). rewrite <- app_assoc.
      repeat split; auto.
      rewrite forallb_app, Hafter. simpl. now rewrite Hkv.
    + rewrite forallb_app, IH. simpl. now rewrite Hkv.
Qed.

(** ** The options that only print *)

Lemma bind_run {A B} (c : M A) (k : A -> M B) (s s' : process) (a : A) :
  c s = (Ok a, s') -> bind c k s = k a s'.
Proof. intro H. unfold bind. now rewrite H. Qed.

(** X11.  When the command line holds [--help], [--version] or
    [--print-default-config], [initialize_impl] writes the help text, the
    version string or the config template to standard output, in this order
    of precedence, and returns false (or throws what rendering the template
    throws).  Apart from the option schema that [set_program_options] has
    built and the text on standard output, the process is as it was: the
    directories of the application are not set even when [--data-dir] or
    [--config-dir] is given as well, no file is read or written, and no
    plugin is initialized. *)
Theorem informational_options
    (parse_command_line :
       list string -> bpo.options_description -> result bpo.parsed_options)
    (print_options_description : bpo.options_description -> string)
    (appbase_version_string : string)
    (argv : list string) (autostart_plugins : list (option abstract_plugin))
    (s : process) (cmdline : bpo.parsed_options) (options : bpo.variables_map) :
  let s0 := snd (set_program_options s) in
  let app_options := _app_options (my (the_app s0)) in
  let help := Nat.ltb 0 (bpo.count options "help") in
  let version := Nat.ltb 0 (bpo.count options "version") in
  parse_command_line argv app_options = Ok cmdline ->
  bpo.store cmdline app_options bpo.empty_variables_map = Ok options ->
  help || version || Nat.ltb 0 (bpo.count options "print-default-config") = true ->
  initialize_impl parse_command_line print_options_description
    appbase_version_string argv autostart_plugins s =
  ((if help || version then Ok false
    else (_ <-- fst (print_default_config (the_app s0) ""); Ok false)%result),
   with_cout
     (fun os => os ++ (if help then print_options_description app_options ++ endl
                       else if version then appbase_version_string ++ endl
                       else snd (print_default_config (the_app s0) "")))%string
     s0).
Proof.
  intros s0 app_options help version Hparse Hstore Hany.
  unfold initialize_impl.
  rewrite (bind_run set_program_options _ s s0 tt eq_refl).
  rewrite (bind_run (gets _) _ s0 s0 app_options eq_refl).
  rewrite (bind_run (lift _) _ s0 s0 cmdline) by (unfold lift; now rewrite Hparse).
  rewrite (bind_run (lift _) _ s0 s0 options) by (unfold lift; now rewrite Hstore).
  fold help version.
  destruct help; [reflexivity|].
  destruct version; [reflexivity|].
  cbn [orb] in Hany |- *. rewrite Hany.
  unfold bind, print_default_config_cout, print_default_config.
  rewrite print_options_stream.
  destruct (print_options _ _ "") as [[[]|e] text]; reflexivity.
Qed.

Lemma informational_options_witness :
  run_initialize_impl version_argv [] (fresh_process [plugin_B] []) =
  (Ok false, with_cout (fun os => os ++ "appbase 1.0" ++ endl)%string bar_process).
Proof.
  exact (informational_options parse_long_options (fun _ => "") "appbase 1.0"
           version_argv [] (fresh_process [plugin_B] [])
           version_cmdline version_options eq_refl eq_refl eq_refl).
Defined.

(** ** The warning about values set to their default *)

(** X12.  As long as the names of the warning have 65 characters or fewer
    between them (separators not counted), they are written on one line,
    separated by a comma and a space, with nothing after the last. *)
Theorem warning_names_on_one_line (l : list string) (chars_on_line : nat) :
  chars_on_line + name_chars l <= 65 ->
  print_set_but_default l chars_on_line = String.concat ", " l.
Proof.
  revert chars_on_line. induction l as [|it rest IH]; intros c Hc; [reflexivity|].
  cbn [print_set_but_default name_chars fold_right] in *.
  fold (name_chars rest) in Hc.
  destruct (Nat.ltb_spec 65 (c + String.length it)) as [H|_]; [lia|].
  rewrite IH by lia.
  destruct rest; [now rewrite string_app_nil_r | reflexivity].
Qed.

Lemma warning_names_on_one_line_witness :
  print_set_but_default ["foo"; "bar"] 0 = String.concat ", " ["foo"; "bar"].
Proof.
  apply (warning_names_on_one_line ["foo"; "bar"] 0). simpl. lia.
Defined.

(** X13.  The name that brings the count of name characters on the line
    over 65 is followed by its separator (when it is not the last name), a
    line break and thirteen spaces, and the count starts again at zero; for
    the last name this leaves a line of spaces at the end of the list. *)
Theorem warning_line_break (pre : list string) (it : string)
    (rest : list string) (chars_on_line : nat) :
  chars_on_line + name_chars pre <= 65 ->
  65 < chars_on_line + name_chars pre + String.length it ->
  print_set_but_default (pre ++ it :: rest) chars_on_line =
  (String.concat ", " (pre ++ [it])
   ++ match rest with [] => "" | _ :: _ => ", " end
   ++ endl ++ "             " ++ print_set_but_default rest 0)%string.
Proof.
  revert chars_on_line. induction pre as [|x pre IH]; intros c Hle Hgt.
  - cbn [app print_set_but_default name_chars fold_right String.concat] in *.
    destruct (Nat.ltb_spec 65 (c + String.length it)) as [_|H]; [|lia].
    reflexivity.
  - cbn [name_chars fold_right] in Hle, Hgt. fold (name_chars pre) in Hle, Hgt.
    rewrite <- !app_comm_cons. cbn [print_set_but_default].
    destruct (Nat.ltb_spec 65 (c + String.length x)) as [H|_]; [lia|].
    rewrite IH by lia.
    destruct pre; cbn [app String.concat]; rewrite ?string_app_assoc; reflexivity.
Qed.

Lemma warning_line_break_witness :
  print_set_but_default
    (["foo"] ++ "a-name-of-more-than-sixty-five-characters-that-fills-the-line-alone"
             :: ["bar"]) 0 =
  (String.concat ", "
     (["foo"] ++ ["a-name-of-more-than-sixty-five-characters-that-fills-the-line-alone"])
   ++ ", " ++ endl ++ "             " ++ print_set_but_default ["bar"] 0)%string.
Proof.
  apply (warning_line_break ["foo"]
           "a-name-of-more-than-sixty-five-characters-that-fills-the-line-alone"
           ["bar"] 0); simpl; lia.
Defined.

(** ** The redundancy check: what it lets through and what it looks at *)

(** X14.  A turn of the loop of lines 201-221 throws [e] exactly when the
    option has a default, the config file sets it, and either parsing the
    first value given throws [e] (the call is outside the [try]), or the
    registered comparator throws [e] and [e] is not a [std::out_of_range]
    (the only exception the handler catches). *)
Theorem check_set_but_default_throws (opts : bpo.parsed_options)
    (acc : list string) (od : bpo.option_description) (s : process)
    (e : exception) :
  fst (check_set_but_default opts acc od s) = Throw e <->
  exists default_val opt,
    bpo.apply_default (bpo.semantic od) = Some default_val /\
    first_with_key (bpo.long_name od) (bpo.options opts) = Some opt /\
    (bpo.parse (bpo.semantic od) any_empty (bpo.value opt) = Throw e \/
     exists config_val cmp,
       bpo.parse (bpo.semantic od) any_empty (bpo.value opt) = Ok config_val /\
       compare_map_find (boost.type default_val)
         (_any_compare_map (my (the_app s))) = Some cmp /\
       cmp default_val config_val = Throw e /\
       match e with out_of_range _ => False | _ => True end).
Proof.
  unfold check_set_but_default.
  destruct (bpo.apply_default (bpo.semantic od)) as [default_val|].
  2: { split; [discriminate | intros (? & ? & [=] & _)]. }
  destruct (first_with_key (bpo.long_name od) (bpo.options opts)) as [opt|].
  2: { split; [discriminate | intros (? & ? & _ & [=] & _)]. }
  unfold bind, lift, gets, try_catch, compare_map_at, ret, throw, printf, modify.
  destruct (bpo.parse (bpo.semantic od) any_empty (bpo.value opt))
    as [config_val|e0] eqn:Hparse.
  2: { cbn [fst]. split.
       - intros [= ->]. exists default_val, opt.
         split; [reflexivity|]. split; [reflexivity|]. now left.
       - intros (d & o & [= <-] & [= <-] & [H|(c & cmp & H & _)]); congruence. }
  destruct (compare_map_find (boost.type default_val)
              (_any_compare_map (my (the_app s)))) as [cmp|] eqn:Hfind.
  2: { cbn [fst]. split; [discriminate|].
       intros (d & o & [= <-] & [= <-] & [H|(c & cmp & _ & H & _)]); congruence. }
  destruct (cmp default_val config_val) as [same|e1] eqn:Hcmp.
  { cbn [fst]. split; [discriminate|].
    intros (d & o & [= <-] & [= <-] & [H|(c & cmp' & H1 & H2 & H3 & _)]);
      [congruence|].
    rewrite Hparse in H1. injection H1 as <-.
    rewrite Hfind in H2. injection H2 as <-. congruence. }
  split.
  - intro H. exists default_val, opt. split; [reflexivity|].
    split; [reflexivity|]. right. exists config_val, cmp.
    destruct e1; cbn [fst] in H; try discriminate H;
      injection H as <-; auto.
  - intros (d & o & [= <-] & [= <-] & [H|(c & cmp' & H1 & H2 & H3 & He)]);
      [congruence|].
    rewrite Hparse in H1. injection H1 as <-.
    rewrite Hfind in H2. injection H2 as <-.
    rewrite Hcmp in H3. injection H3 as ->.
    destruct e; [reflexivity | contradiction | reflexivity ..].
Qed.

Lemma first_with_key_app (key : string) (os more : list bpo.basic_option) :
  first_with_key key (os ++ more) =
  match first_with_key key os with
  | Some o => Some o
  | None => first_with_key key more
  end.
Proof.
  induction os as [|o os IH]; simpl; [reflexivity|].
  now destruct (String.eqb (bpo.string_key o) key).
Qed.

Lemma first_with_key_none (key : string) (os : list bpo.basic_option) :
  first_with_key key os = None <->
  forall o, In o os -> bpo.string_key o <> key.
Proof.
  induction os as [|o os IH]; simpl.
  - split; [intros _ o [] | reflexivity].
  - destruct (String.eqb_spec (bpo.string_key o) key) as [Heq|Hne].
    + split; [discriminate|]. intro H. exfalso. apply (H o); auto.
    + rewrite IH. split.
      * intros H o' [<-|Ho']; auto.
      * intros H o' Ho'. apply H. now right.
Qed.

(** X15.  The check compares the first value the config file gives for a
    key and none of the later ones: lines added to the file for keys it
    already sets change neither the list of the warning nor what the check
    prints or throws. *)
Theorem later_occurrences_not_compared (opts : bpo.parsed_options)
    (more : list bpo.basic_option) (acc : list string)
    (ods : list bpo.option_description) (s : process) :
  (forall o, In o more ->
             exists o', In o' (bpo.options opts) /\
                        bpo.string_key o' = bpo.string_key o) ->
  collect_set_but_default {| bpo.options := bpo.options opts ++ more |} acc ods s
  = collect_set_but_default opts acc ods s.
Proof.
  intro Hmore.
  assert (Hfirst : forall key,
    first_with_key key (bpo.options opts ++ more)
    = first_with_key key (bpo.options opts)).
  { intro key. rewrite first_with_key_app.
    destruct (first_with_key key (bpo.options opts)) eqn:Hos; [reflexivity|].
    apply first_with_key_none. intros o Ho Hkey.
    destruct (Hmore o Ho) as (o' & Ho' & Heq).
    rewrite first_with_key_none in Hos. apply (Hos o' Ho'). congruence. }
  revert acc s. induction ods as [|od ods IH]; intros acc s; [reflexivity|].
  cbn [collect_set_but_default]. unfold bind.
  replace (check_set_but_default {| bpo.options := bpo.options opts ++ more |} acc od s)
    with (check_set_but_default opts acc od s).
  - destruct (check_set_but_default opts acc od s) as [[l|e] s1]; [apply IH | reflexivity].
  - unfold check_set_but_default. cbn [bpo.options]. now rewrite Hfirst.
Qed.

Lemma later_occurrences_not_compared_witness :
  collect_set_but_default
    {| bpo.options := bpo.options (bar_config "10") ++ [bar_line "20"] |} []
    (_cfg_options (my (the_app bar_process))) bar_process
  = collect_set_but_default (bar_config "10") []
      (_cfg_options (my (the_app bar_process))) bar_process.
Proof.
  apply (later_occurrences_not_compared (bar_config "10") [bar_line "20"] []
           (_cfg_options (my (the_app bar_process))) bar_process).
  intros o [<-|[]]. exists (bar_line "10"). split; [now left | reflexivity].
Defined.

(** ** The comparators of the compare map *)

Lemma string_compare_refl (x : string) : String.compare x x = Eq.
Proof.
  pose proof (String.compare_antisym x x) as H.
  destruct (String.compare x x); simpl in H; congruence.
Qed.

Lemma any_equal_returns (T : type_index) (a b : any) :
  registered_type T = true -> boost.type a = T -> boost.type b = T ->
  exists r, any_equal T a b = Ok r.
Proof.
  intros Hreg Ha Hb.
  destruct T; try discriminate Hreg; destruct a; try discriminate Ha;
    destruct b; try discriminate Hb; eexists; reflexivity.
Qed.

Lemma any_equal_types (T : type_index) (a b : any) (r : bool) :
  any_equal T a b = Ok r -> boost.type a = T /\ boost.type b = T.
Proof.
  destruct T, a, b; intro H; try discriminate H; split; reflexivity.
Qed.

Lemma any_equal_exception (T : type_index) (a b : any) (e : exception) :
  any_equal T a b = Throw e -> e = bad_any_cast.
Proof.
  destruct T, a, b; intro H; try discriminate H; now injection H.
Qed.

Lemma any_equal_true (T : type_index) (a b : any) :
  T <> ti_double -> T <> ti_path -> any_equal T a b = Ok true -> a = b.
Proof.
  intros Hd Hp.
  destruct T, a, b; intro H; try discriminate H; try congruence;
    injection H as H; f_equal.
  - now apply String.eqb_eq.
  - now apply Bool.eqb_prop.
  - now apply Z.eqb_eq.
  - now apply Z.eqb_eq.
  - now apply Z.eqb_eq.
  - now apply list_string_eqb_eq.
Qed.

Lemma any_equal_refl (T : type_index) (a : any) :
  registered_type T = true -> T <> ti_double -> T <> ti_path ->
  boost.type a = T -> any_equal T a a = Ok true.
Proof.
  intros Hreg Hd Hp Ha.
  destruct T; try discriminate Hreg; try congruence;
    destruct a; try discriminate Ha; cbn [any_equal]; f_equal.
  - apply String.eqb_refl.
  - apply Bool.eqb_reflx.
  - apply Z.eqb_refl.
  - apply Z.eqb_refl.
  - apply Z.eqb_refl.
  - now apply list_string_eqb_eq.
Qed.

Lemma registered_comparator_at (v : Z) (T : type_index) :
  registered_type T = true ->
  compare_map_at (_any_compare_map (new_application_impl v)) T = Ok (any_equal T).
Proof. destruct T; try discriminate; reflexivity. Qed.

(** X16.  For each of the eight types the constructor registers (string,
    bool, uint32, uint64, int, double, vector of strings, path) the compare
    map holds a comparator that throws, and then [boost::bad_any_cast],
    exactly when one of its operands is not of that type; for the types
    whose [==] is equality of values (all but double and path) it returns
    true exactly on two equal values of the type. *)
Theorem registered_comparators (v : Z) (T : type_index) (a b : any) :
  registered_type T = true ->
  exists cmp,
    compare_map_at (_any_compare_map (new_application_impl v)) T = Ok cmp /\
    ((exists e, cmp a b = Throw e) <-> boost.type a <> T \/ boost.type b <> T) /\
    (forall e, cmp a b = Throw e -> e = bad_any_cast) /\
    (T <> ti_double -> T <> ti_path ->
     (cmp a b = Ok true <-> boost.type a = T /\ a = b)).
Proof.
  intro Hreg. exists (any_equal T).
  split; [now apply registered_comparator_at|].
  split; [|split].
  - split.
    + intros [e He].
      destruct (type_index_eqb (boost.type a) T) eqn:Ha;
        [|left; intro H; apply type_index_eqb_eq in H; congruence].
      destruct (type_index_eqb (boost.type b) T) eqn:Hb;
        [|right; intro H; apply type_index_eqb_eq in H; congruence].
      apply type_index_eqb_eq in Ha, Hb.
      destruct (any_equal_returns T a b Hreg Ha Hb) as [r Hr]. congruence.
    + intro H. destruct (any_equal T a b) as [r|e] eqn:Hr; [|now exists e].
      apply any_equal_types in Hr. tauto.
  - apply any_equal_exception.
  - intros Hd Hp. split.
    + intro H. split; [now apply any_equal_types in H|].
      now apply (any_equal_true T).
    + intros [Ha <-]. now apply any_equal_refl.
Qed.

Lemma registered_comparators_witness :
  exists cmp,
    compare_map_at (_any_compare_map (new_application_impl 0)) ti_int = Ok cmp /\
    ((exists e, cmp (any_int 10) (any_string "10") = Throw e) <->
     boost.type (any_int 10) <> ti_int \/ boost.type (any_string "10") <> ti_int) /\
    (forall e, cmp (any_int 10) (any_string "10") = Throw e -> e = bad_any_cast) /\
    (ti_int <> ti_double -> ti_int <> ti_path ->
     (cmp (any_int 10) (any_string "10") = Ok true <->
      boost.type (any_int 10) = ti_int /\ any_int 10 = any_string "10")).
Proof.
  exact (registered_comparators 0 ti_int (any_int 10) (any_string "10") eq_refl).
Defined.

(** ** The directories and file names of the command line *)

Lemma directory_option_run (options : bpo.variables_map) (key : string)
    (current : bfs.path) (s : process) :
  directory_option options key current s =
  ((d <-- directory_given options key;
    Ok (directory_after d (current_path s) current))%result, s).
Proof.
  unfold directory_option, directory_given.
  destruct (Nat.ltb 0 (bpo.count options key)); [|reflexivity].
  unfold bind, lift, gets, ret.
  now destruct (bpo.as_string (bpo.get options key)).
Qed.

Lemma file_option_run (options : bpo.variables_map) (key : string) (s : process) :
  file_option options key s =
  ((w <-- bpo.as_string (bpo.get options key);
    Ok (against (_config_dir (my (the_app s))) w))%result, s).
Proof.
  unfold file_option, bind, lift, gets, ret.
  now destruct (bpo.as_string (bpo.get options key)).
Qed.

Lemma resolve_paths_run (options : bpo.variables_map) (s : process)
    (dd cd : option string) (l c : string) :
  directory_given options "data-dir" = Ok dd ->
  directory_given options "config-dir" = Ok cd ->
  bpo.as_string (bpo.get options "logconf") = Ok l ->
  bpo.as_string (bpo.get options "config") = Ok c ->
  resolve_paths options s =
  (Ok (against (directory_after cd (current_path s) (_config_dir (my (the_app s)))) c),
   with_app (with_my (set_dirs
     (directory_after dd (current_path s) (_data_dir (my (the_app s))))
     (directory_after cd (current_path s) (_config_dir (my (the_app s))))
     (against (directory_after cd (current_path s) (_config_dir (my (the_app s)))) l)))
     s).
Proof.
  intros Hdd Hcd Hl Hc. unfold resolve_paths.
  rewrite (bind_run (gets _) _ s s (my (the_app s)) eq_refl).
  erewrite (bind_run (directory_option _ _ _));
    [|rewrite directory_option_run, Hdd; reflexivity].
  erewrite (bind_run (modify _)); [|reflexivity].
  erewrite (bind_run (directory_option _ _ _));
    [|rewrite directory_option_run, Hcd; reflexivity].
  erewrite (bind_run (modify _)); [|reflexivity].
  erewrite (bind_run (file_option _ _));
    [|rewrite file_option_run, Hl; reflexivity].
  erewrite (bind_run (modify _)); [|reflexivity].
  rewrite file_option_run, Hc. reflexivity.
Qed.

(** X17.  Lines 156-185, given what the resolved options hold: a directory
    given with [--data-dir] or [--config-dir] replaces the one of the
    application, prefixed with the current directory when it is relative,
    and a directory not given stays; [logconf] and [config], when relative,
    are resolved against the config directory as just set, not against the
    one before; the accessors [data_dir], [config_dir] and
    [get_logging_conf] return these paths afterwards, and the resolved
    config file name is the result. *)
Theorem resolve_paths_result (options : bpo.variables_map) (s : process)
    (dd cd : option string) (l c : string) :
  directory_given options "data-dir" = Ok dd ->
  directory_given options "config-dir" = Ok cd ->
  bpo.as_string (bpo.get options "logconf") = Ok l ->
  bpo.as_string (bpo.get options "config") = Ok c ->
  let config_dir' :=
    directory_after cd (current_path s) (_config_dir (my (the_app s))) in
  exists s',
    resolve_paths options s = (Ok (against config_dir' c), s') /\
    data_dir s'
    = (Ok (directory_after dd (current_path s) (_data_dir (my (the_app s)))), s') /\
    config_dir s' = (Ok config_dir', s') /\
    get_logging_conf s' = (Ok (against config_dir' l), s') /\
    plugins (the_app s') = plugins (the_app s) /\
    filesystem s' = filesystem s.
Proof.
  intros Hdd Hcd Hl Hc config_dir'.
  eexists. split; [apply (resolve_paths_run options s dd cd l c); assumption|].
  repeat split.
Qed.

Lemma find_filter (desc : bpo.options_description) (key : string)
    (d : bpo.option_description) :
  bpo.find desc key = Ok d ->
  filter (fun d' => String.eqb (bpo.long_name d') key) desc = [d].
Proof.
  unfold bpo.find.
  destruct (filter _ desc) as [|d0 [|d1 l]]; intros [=]. now subst.
Qed.

Lemma declared_default_absent (desc : bpo.options_description) (key : string) :
  filter (fun d' => String.eqb (bpo.long_name d') key) desc = [] ->
  declared_default desc key = None.
Proof.
  induction desc as [|d0 desc IH]; simpl; [reflexivity|].
  destruct (String.eqb (bpo.long_name d0) key); [discriminate | exact IH].
Qed.

(** The default of a key that one option alone declares. *)
Lemma declared_default_unique (desc : bpo.options_description) (key : string)
    (d : bpo.option_description) :
  bpo.find desc key = Ok d ->
  declared_default desc key = bpo.apply_default (bpo.semantic d).
Proof.
  intro H. apply find_filter in H. revert H.
  induction desc as [|d0 desc IH]; simpl; [discriminate|].
  destruct (String.eqb (bpo.long_name d0) key).
  - intros [= -> Hrest]. rewrite (declared_default_absent _ _ Hrest).
    now destruct (bpo.apply_default (bpo.semantic d)).
  - exact IH.
Qed.

Lemma validate_string_value (x0 x : any) (tokens : list string) :
  bpo.validate_string x0 tokens = Ok x -> exists t, x = any_string t.
Proof.
  unfold bpo.validate_string.
  destruct (bpo.check_first_occurrence x0); [|discriminate].
  cbn [rbind]. destruct (bpo.get_single_string tokens false) as [t|]; [|discriminate].
  intros [= <-]. now exists t.
Qed.

Lemma parse_all_string (sem : bpo.value_semantic) (x0 x : any)
    (occurrences : list (list string)) :
  bpo.parse sem = bpo.validate_string ->
  occurrences <> [] ->
  parse_all sem x0 occurrences = Ok x ->
  exists t, x = any_string t.
Proof.
  intros Hsem. revert x0. induction occurrences as [|tokens rest IH];
    intros x0 Hne; [congruence|].
  cbn [parse_all]. rewrite Hsem.
  destruct (bpo.validate_string x0 tokens) as [x1|] eqn:H1; [|discriminate].
  cbn [rbind]. destruct rest as [|tokens' rest].
  - intros [= <-]. exact (validate_string_value _ _ _ H1).
  - apply IH. discriminate.
Qed.

(** After [store] of a command line, a key that one string option alone
    declares holds a string, or nothing when the option has no default and
    was not given. *)
Lemma store_string_valued (cmdline : bpo.parsed_options)
    (desc : bpo.options_description) (options : bpo.variables_map)
    (key : string) (d : bpo.option_description) :
  bpo.store cmdline desc bpo.empty_variables_map = Ok options ->
  key <> "" ->
  bpo.find desc key = Ok d ->
  bpo.parse (bpo.semantic d) = bpo.validate_string ->
  (forall def, bpo.apply_default (bpo.semantic d) = Some def ->
               exists t, def = any_string t) ->
  match smap_find key (bpo.m options) with
  | Some x => exists t, bpo.v x = any_string t
  | None => bpo.apply_default (bpo.semantic d) = None
  end.
Proof.
  intros Hstore Hkey Hfind Hparse Hdef.
  destruct (given cmdline key) as [|tokens rest] eqn:Hgiven.
  - destruct (store_absent_key _ _ _ _ _ Hstore Hkey eq_refl Hgiven) as (_ & H).
    cbn in H. rewrite (declared_default_unique _ _ _ Hfind) in H.
    destruct (smap_find key (bpo.m options)) as [x|]; [|exact H].
    destruct H as (_ & H). exact (Hdef _ H).
  - assert (Hne : given cmdline key <> []) by (rewrite Hgiven; discriminate).
    destruct (store_given_key _ _ _ _ _ Hstore Hkey eq_refl Hne)
      as (d' & x & Hfind' & Hall & Hval & _).
    rewrite Hfind in Hfind'. injection Hfind' as <-.
    rewrite Hval. cbn [bpo.v].
    exact (parse_all_string _ _ _ _ Hparse Hne Hall).
Qed.

Lemma directory_given_string (options : bpo.variables_map) (key : string) :
  match smap_find key (bpo.m options) with
  | Some x => exists t, bpo.v x = any_string t
  | None => True
  end ->
  exists dd, directory_given options key = Ok dd.
Proof.
  unfold directory_given, bpo.count, smap_count, bpo.get, bpo.as_string.
  destruct (smap_find key (bpo.m options)) as [x|]; [|now exists None].
  intros [t ->]. now exists (Some t).
Qed.

Lemma file_given_string (options : bpo.variables_map) (key : string) :
  (exists x, smap_find key (bpo.m options) = Some x /\
             exists t, bpo.v x = any_string t) ->
  exists t, bpo.as_string (bpo.get options key) = Ok t.
Proof.
  unfold bpo.get, bpo.as_string. intros (x & -> & t & ->). now exists t.
Qed.

(** X18.  When no plugin declares an option named [data-dir], [config-dir],
    [config] or [logconf], the four [as<std::string>()] casts of lines
    161-182 cannot throw: after [store] of any command line the first two
    keys hold a string or are absent, the last two hold a string (given, or
    their default), and resolving the paths returns. *)
Theorem paths_are_strings (app_options : bpo.options_description)
    (cmdline : bpo.parsed_options) (options : bpo.variables_map) (s : process) :
  (forall key, In key ["data-dir"; "config-dir"; "config"; "logconf"] ->
               bpo.find app_options key = bpo.find app_cli_opts key) ->
  bpo.store cmdline app_options bpo.empty_variables_map = Ok options ->
  exists dd cd l c,
    directory_given options "data-dir" = Ok dd /\
    directory_given options "config-dir" = Ok cd /\
    bpo.as_string (bpo.get options "logconf") = Ok l /\
    bpo.as_string (bpo.get options "config") = Ok c /\
    fst (resolve_paths options s)
    = Ok (against (directory_after cd (current_path s)
                     (_config_dir (my (the_app s)))) c).
Proof.
  intros Hfind Hstore.
  assert (Hdd := Hfind "data-dir" ltac:(simpl; auto)).
  assert (Hcd := Hfind "config-dir" ltac:(simpl; auto)).
  assert (Hc := Hfind "config" ltac:(simpl; auto)).
  assert (Hl := Hfind "logconf" ltac:(simpl; auto)).
  cbn in Hdd, Hcd, Hc, Hl.
  pose proof (store_string_valued _ _ _ "data-dir" _ Hstore ltac:(discriminate)
                Hdd eq_refl ltac:(discriminate)) as Vdd.
  pose proof (store_string_valued _ _ _ "config-dir" _ Hstore ltac:(discriminate)
                Hcd eq_refl ltac:(discriminate)) as Vcd.
  pose proof (store_string_valued _ _ _ "config" _ Hstore ltac:(discriminate)
                Hc eq_refl
                ltac:(intros def [= <-]; now exists "config.ini")) as Vc.
  pose proof (store_string_valued _ _ _ "logconf" _ Hstore ltac:(discriminate)
                Hl eq_refl
                ltac:(intros def [= <-]; now exists "logging.json")) as Vl.
  destruct (directory_given_string options "data-dir") as [dd Edd].
  { destruct (smap_find "data-dir" (bpo.m options)); auto. }
  destruct (directory_given_string options "config-dir") as [cd Ecd].
  { destruct (smap_find "config-dir" (bpo.m options)); auto. }
  destruct (file_given_string options "logconf") as [l El].
  { destruct (smap_find "logconf" (bpo.m options)) as [x|]; [eauto | discriminate Vl]. }
  destruct (file_given_string options "config") as [c Ec].
  { destruct (smap_find "config" (bpo.m options)) as [x|]; [eauto | discriminate Vc]. }
  exists dd, cd, l, c. repeat split; auto.
  now rewrite (resolve_paths_run options s dd cd l c).
Qed.

Lemma resolve_paths_result_witness :
  exists s',
    resolve_paths version_options bar_process
    = (Ok (against (directory_after None "/home/user" "config-dir") "config.ini"), s') /\
    data_dir s'
    = (Ok (directory_after (Some "elsewhere") "/home/user" "data-dir"), s') /\
    config_dir s' = (Ok (directory_after None "/home/user" "config-dir"), s') /\
    get_logging_conf s'
    = (Ok (against (directory_after None "/home/user" "config-dir") "logging.json"), s') /\
    plugins (the_app s') = plugins (the_app bar_process) /\
    filesystem s' = filesystem bar_process.
Proof.
  exact (resolve_paths_result version_options bar_process
           (Some "elsewhere") None "logging.json" "config.ini"
           eq_refl eq_refl eq_refl eq_refl).
Defined.

Lemma paths_are_strings_witness :
  exists dd cd l c,
    directory_given version_options "data-dir" = Ok dd /\
    directory_given version_options "config-dir" = Ok cd /\
    bpo.as_string (bpo.get version_options "logconf") = Ok l /\
    bpo.as_string (bpo.get version_options "config") = Ok c /\
    fst (resolve_paths version_options bar_process)
    = Ok (against (directory_after cd (current_path bar_process)
                     (_config_dir (my (the_app bar_process)))) c).
Proof.
  apply (paths_are_strings (_app_options (my (the_app bar_process)))
           version_cmdline version_options bar_process).
  - intros key [<-|[<-|[<-|[<-|[]]]]]; reflexivity.
  - reflexivity.
Defined.

(** ** What initialization leaves alone *)

Lemma bind_keeps {A B C} (f : process -> C) (c : M A) (k : A -> M B) :
  (forall s, f (snd (c s)) = f s) ->
  (forall a s, f (snd (k a s)) = f s) ->
  forall s, f (snd (bind c k s)) = f s.
Proof.
  intros Hc Hk s. unfold bind. specialize (Hc s).
  destruct (c s) as [[a|e] s1]; cbn [snd] in *; [now rewrite Hk | exact Hc].
Qed.

Lemma try_catch_keeps {A C} (f : process -> C) (c : M A)
    (handler : exception -> M A) :
  (forall s, f (snd (c s)) = f s) ->
  (forall e s, f (snd (handler e s)) = f s) ->
  forall s, f (snd (try_catch c handler s)) = f s.
Proof.
  intros Hc Hh s. unfold try_catch. specialize (Hc s).
  destruct (c s) as [[a|e] s1]; cbn [snd] in *; [exact Hc | now rewrite Hh].
Qed.

Lemma for_each_keeps {A C} (f : process -> C) (body : A -> M unit) (l : list A) :
  (forall x s, f (snd (body x s)) = f s) ->
  forall s, f (snd (for_each body l s)) = f s.
Proof.
  intro Hbody. induction l as [|x l IH]; intro s; [reflexivity|].
  cbn [for_each]. apply bind_keeps; auto.
Qed.

Lemma abstract_plugin_initialize_filesystem (options : bpo.variables_map)
    (p : abstract_plugin) (s : process) :
  filesystem (snd (abstract_plugin_initialize options p s)) = filesystem s.
Proof.
  unfold abstract_plugin_initialize. run_step.
  destruct (smap_find (name p) (plugin_states s)) as [[]|]; try reflexivity;
    simpl; now destruct (plugin_initialize p options).
Qed.

Lemma activate_plugins_filesystem (options : bpo.variables_map)
    (autostart_plugins : list (option abstract_plugin)) (s : process) :
  filesystem (snd (activate_plugins options autostart_plugins s)) = filesystem s.
Proof.
  revert s. unfold activate_plugins. apply bind_keeps.
  - unfold initialize_named_plugins.
    destruct (Nat.ltb 0 (bpo.count options "plugin")); [|reflexivity].
    apply bind_keeps; [reflexivity|]. intro x.
    apply bind_keeps; [reflexivity|]. intro plugin_args.
    apply for_each_keeps. intro arg. apply for_each_keeps. intro nm.
    apply bind_keeps.
    + intro s. unfold get_plugin, find_plugin, bind, gets.
      now destruct (smap_find nm (plugins (the_app s))).
    + apply abstract_plugin_initialize_filesystem.
  - intros _. unfold initialize_autostart_plugins. apply try_catch_keeps.
    + apply bind_keeps.
      * apply for_each_keeps. intros [p|] s; [|reflexivity].
        unfold initialize_if_registered. revert s. apply bind_keeps; [reflexivity|].
        intros [] s; try reflexivity. apply abstract_plugin_initialize_filesystem.
      * intros _. apply bind_keeps; reflexivity.
    + reflexivity.
Qed.

Lemma check_set_but_default_filesystem (opts : bpo.parsed_options)
    (acc : list string) (od : bpo.option_description) (s : process) :
  filesystem (snd (check_set_but_default opts acc od s)) = filesystem s.
Proof.
  unfold check_set_but_default.
  destruct (bpo.apply_default (bpo.semantic od)) as [default_val|]; [|reflexivity].
  destruct (first_with_key _ _) as [opt|]; [|reflexivity].
  unfold bind, lift, gets, try_catch, compare_map_at, ret, throw, printf, modify.
  destruct (bpo.parse _ _ _) as [config_val|]; [|reflexivity].
  destruct (compare_map_find _ _) as [cmp|]; [|reflexivity].
  destruct (cmp default_val config_val) as [same|[]]; reflexivity.
Qed.

Lemma configure_filesystem (options : bpo.variables_map)
    (config_file_name : bfs.path)
    (autostart_plugins : list (option abstract_plugin)) (s : process) :
  filesystem (snd (configure options config_file_name autostart_plugins s))
  = filesystem s.
Proof.
  revert s. unfold configure.
  apply bind_keeps; [reflexivity|]. intro cfg_options.
  apply bind_keeps; [reflexivity|]. intro fs.
  apply bind_keeps; [reflexivity|]. intro opts_from_config.
  apply bind_keeps; [reflexivity|]. intro options'.
  apply bind_keeps.
  - generalize (@nil string).
    induction cfg_options as [|od ods IH]; intros acc s; [reflexivity|].
    cbn [collect_set_but_default]. revert s. apply bind_keeps.
    + apply check_set_but_default_filesystem.
    + intro l. apply IH.
  - intro l. apply bind_keeps.
    + intro s. now destruct l.
    + intros _. apply activate_plugins_filesystem.
Qed.

Lemma resolve_paths_filesystem (options : bpo.variables_map) (s : process) :
  filesystem (snd (resolve_paths options s)) = filesystem s.
Proof.
  revert s. unfold resolve_paths.
  assert (Hdir : forall key cur s,
    filesystem (snd (directory_option options key cur s)) = filesystem s)
    by (intros; now rewrite directory_option_run).
  assert (Hfile : forall key s,
    filesystem (snd (file_option options key s)) = filesystem s)
    by (intros; now rewrite file_option_run).
  apply bind_keeps; [reflexivity|]. intro impl.
  apply bind_keeps; [apply Hdir|]. intro dd.
  apply bind_keeps; [reflexivity|]. intros _.
  apply bind_keeps; [apply Hdir|]. intro cd.
  apply bind_keeps; [reflexivity|]. intros _.
  apply bind_keeps; [apply Hfile|]. intro l.
  apply bind_keeps; [reflexivity|]. intros _. apply Hfile.
Qed.

(** X19.  When the config file the command line resolves to exists, the
    code of [initialize_impl] writes nothing: whatever the file holds,
    whichever plugins get initialized and whether initialization returns
    true, returns false or throws, the file system it leaves is the one it
    found.  (Its only write is the default config it writes where none
    exists.) *)
Theorem existing_config_file_is_kept (options : bpo.variables_map)
    (autostart_plugins : list (option abstract_plugin)) (s : process)
    (config_file_name : bfs.path) :
  fst (resolve_paths options s) = Ok config_file_name ->
  bfs.exists_ (filesystem s) config_file_name = true ->
  filesystem (snd (initialize_with_options options autostart_plugins s))
  = filesystem s.
Proof.
  intros Hpaths Hexists. unfold initialize_with_options.
  pose proof (resolve_paths_filesystem options s) as Hfs.
  unfold bind at 1.
  destruct (resolve_paths options s) as [[cfg|e] s1]; cbn [fst snd] in *;
    [|exact Hfs].
  injection Hpaths as ->.
  unfold bind at 1. unfold gets at 1. unfold bind at 1. unfold gets at 1.
  rewrite Hfs, Hexists. rewrite configure_filesystem. exact Hfs.
Qed.

Lemma existing_config_file_is_kept_witness :
  filesystem
    (snd (initialize_with_options (options_with_config "config.ini") []
            (fresh_process [plugin_B] [("config-dir/config.ini", "bar = 7")])))
  = filesystem (fresh_process [plugin_B] [("config-dir/config.ini", "bar = 7")]).
Proof.
  apply (existing_config_file_is_kept (options_with_config "config.ini") []
           (fresh_process [plugin_B] [("config-dir/config.ini", "bar = 7")])
           "config-dir/config.ini"); reflexivity.
Defined.

(** X20.  The directories set with [set_default_data_dir] and
    [set_default_config_dir] are the ones in force when the command line
    gives none, and they are used as they are: unlike a directory given on
    the command line, a relative default is not prefixed with the current
    directory, so the config file and the logging configuration are looked
    up under the default config directory as it was set. *)
Theorem default_directories_apply (options : bpo.variables_map) (s : process)
    (default_data_dir default_config_dir : bfs.path) (l c : string) :
  directory_given options "data-dir" = Ok None ->
  directory_given options "config-dir" = Ok None ->
  bpo.as_string (bpo.get options "logconf") = Ok l ->
  bpo.as_string (bpo.get options "config") = Ok c ->
  exists s',
    resolve_paths options
      (snd (set_default_config_dir default_config_dir
              (snd (set_default_data_dir default_data_dir s))))
    = (Ok (against default_config_dir c), s') /\
    data_dir s' = (Ok default_data_dir, s') /\
    config_dir s' = (Ok default_config_dir, s') /\
    get_logging_conf s' = (Ok (against default_config_dir l), s').
Proof.
  intros Hdd Hcd Hl Hc.
  rewrite (resolve_paths_run options _ None None l c) by assumption.
  eexists. split; [reflexivity|]. repeat split.
Qed.

Lemma default_directories_apply_witness :
  exists s',
    resolve_paths (options_with_config "custom.ini")
      (snd (set_default_config_dir "etc"
              (snd (set_default_data_dir "var" (fresh_process [plugin_A] [])))))
    = (Ok (against "etc" "custom.ini"), s') /\
    data_dir s' = (Ok "var", s') /\
    config_dir s' = (Ok "etc", s') /\
    get_logging_conf s' = (Ok (against "etc" "logging.json"), s').
Proof.
  exact (default_directories_apply (options_with_config "custom.ini")
           (fresh_process [plugin_A] []) "var" "etc" "logging.json" "custom.ini"
           eq_refl eq_refl eq_refl eq_refl).
Defined.

(** ** The names of one [--plugin] value *)

Lemma split_chars_length (seps current l : list ascii) :
  length (split_chars seps current l) = S (count_separators seps l).
Proof.
  unfold count_separators. revert current.
  induction l as [|c l IH]; intro current; simpl; [reflexivity|].
  destruct (existsb (Ascii.eqb c) seps); simpl; now rewrite IH.
Qed.

Lemma split_chars_tokens (seps current l : list ascii) :
  forallb (fun c => negb (existsb (Ascii.eqb c) seps)) current = true ->
  Forall (fun token =>
            forallb (fun c => negb (existsb (Ascii.eqb c) seps))
              (list_ascii_of_string token) = true)
    (split_chars seps current l).
Proof.
  assert (Hrev : forall cur,
    forallb (fun c => negb (existsb (Ascii.eqb c) seps)) cur = true ->
    forallb (fun c => negb (existsb (Ascii.eqb c) seps))
      (list_ascii_of_string (string_of_list_ascii (rev cur))) = true).
  { intros cur H. rewrite list_ascii_of_string_of_list_ascii.
    apply forallb_forall. intros c Hc. apply in_rev in Hc.
    revert c Hc. now apply forallb_forall. }
  revert current. induction l as [|c l IH]; intros current Hcur; simpl.
  - constructor; [now apply Hrev | constructor].
  - destruct (existsb (Ascii.eqb c) seps) eqn:Hc.
    + constructor; [now apply Hrev | now apply IH].
    + apply IH. simpl. now rewrite Hc.
Qed.

(** X21.  One value of [--plugin] names one plugin more than it holds
    separator characters (space, tab, comma), and no name holds a
    separator: adjacent separators are not merged, so the value ["A, B"]
    names three plugins, the second with the empty name, and the empty
    value names one. *)
Theorem plugin_value_names (arg : string) :
  length (split arg plugin_separators)
  = S (count_separators (list_ascii_of_string plugin_separators)
         (list_ascii_of_string arg)) /\
  Forall (fun nm =>
            forallb (fun c => negb (existsb (Ascii.eqb c)
                                      (list_ascii_of_string plugin_separators)))
              (list_ascii_of_string nm) = true)
    (split arg plugin_separators) /\
  split "A, B" plugin_separators = ["A"; ""; "B"] /\
  split "" plugin_separators = [""].
Proof.
  unfold split. split; [apply split_chars_length|].
  split; [now apply split_chars_tokens|]. split; reflexivity.
Qed.

(** ** A startup failure followed by a shutdown failure *)

(** X22.  When a startup hook throws [e] and, during the [shutdown] that
    the handler of [startup] runs, a shutdown hook throws [e'], it is [e']
    that leaves [startup] and [e] is lost; the plugins started before the
    one whose shutdown hook threw are not shut down, and the registry and
    the lists are not cleared. *)
Theorem startup_failure_masked (s : process)
    (pre post pre' post' : list abstract_plugin) (p q : abstract_plugin)
    (e e' : exception) :
  initialized_plugins (the_app s) = pre ++ p :: post ->
  NoDup (map name (pre ++ [p])) ->
  (forall r, In r (pre ++ [p]) ->
             smap_find (name r) (plugin_states s) = Some initialized) ->
  Forall (fun r => plugin_startup r = None) pre ->
  plugin_startup p = Some e ->
  running_plugins (the_app s) ++ pre = pre' ++ q :: post' ->
  Forall (fun r => plugin_shutdown r = None) post' ->
  plugin_shutdown q = Some e' ->
  exists s',
    startup s = (Throw e', s') /\
    trace s' = trace s
               ++ map ev_startup (map name (pre ++ [p]))
               ++ map ev_shutdown (rev (map name post'))
               ++ [ev_shutdown (name q)] /\
    running_plugins (the_app s') = running_plugins (the_app s) ++ pre /\
    initialized_plugins (the_app s') = initialized_plugins (the_app s) /\
    plugins (the_app s') = plugins (the_app s).
Proof.
  intros Hinit Hnd Hst Hpre Hp Hrun Hpost Hq.
  assert (Hnd_pre : NoDup (map name pre)).
  { rewrite map_app in Hnd. now apply NoDup_app_remove_r in Hnd. }
  destruct (startup_hooks_run pre s Hnd_pre)
    as (s1 & Hrun1 & Htr1 & Hr1 & Hi1 & Hpl1 & Hother1); auto.
  { intros r Hr. apply Hst. apply in_or_app. now left. }
  assert (Hp_state : smap_find (name p) (plugin_states s1) = Some initialized).
  { rewrite Hother1.
    - apply Hst. apply in_or_app. right. now left.
    - rewrite map_app in Hnd. simpl in Hnd.
      apply NoDup_remove_2 in Hnd. rewrite app_nil_r in Hnd. exact Hnd. }
  set (s2 := with_trace (fun t => t ++ [ev_startup (name p)]) s1).
  assert (Hrun2 : running_plugins (the_app s2) = pre' ++ q :: post').
  { simpl. now rewrite Hr1. }
  destruct (shutdown_stops_at_throw s2 pre' post' q e' Hrun2 Hpost Hq)
    as (s3 & Hrun3 & Htr3 & Happ3).
  exists s3. split.
  - unfold startup, try_catch. unfold bind at 1. unfold gets at 1.
    rewrite Hinit, for_each_app, Hrun1, for_each_cons.
    rewrite (abstract_plugin_startup_throw _ _ _ Hp_state Hp).
    fold s2. unfold bind at 1. now rewrite Hrun3.
  - rewrite Happ3. simpl. repeat split; auto.
    rewrite Htr3. simpl. rewrite Htr1, !map_app. simpl.
    now rewrite <- !app_assoc.
Qed.

Lemma startup_failure_masked_witness :
  exists s',
    startup (initialized_process [plugin_A; plugin_no_stop; plugin_no_start])
    = (Throw (plugin_error "no stop"), s') /\
    trace s' = [] ++ map ev_startup
                       (map name ([plugin_A; plugin_no_stop] ++ [plugin_no_start]))
                  ++ map ev_shutdown (rev (map name []))
                  ++ [ev_shutdown (name plugin_no_stop)] /\
    running_plugins (the_app s') = [] ++ [plugin_A; plugin_no_stop] /\
    initialized_plugins (the_app s')
    = [plugin_A; plugin_no_stop; plugin_no_start] /\
    plugins (the_app s')
    = plugins (the_app (initialized_process
                          [plugin_A; plugin_no_stop; plugin_no_start])).
Proof.
  apply (startup_failure_masked
           (initialized_process [plugin_A; plugin_no_stop; plugin_no_start])
           [plugin_A; plugin_no_stop] [] [plugin_A] [] plugin_no_start
           plugin_no_stop (plugin_error "no start") (plugin_error "no stop")).
  - reflexivity.
  - repeat constructor; simpl; intuition discriminate.
  - intros r [<-|[<-|[<-|[]]]]; reflexivity.
  - repeat constructor.
  - reflexivity.
  - reflexivity.
  - constructor.
  - reflexivity.
Defined.

(** ** Building the schema twice *)

(** X23.  [set_program_options] is not idempotent: a second call declares
    the options of the application (and of the plugins) once more, after
    which the lookup of any of the eight names of the application is
    ambiguous. *)
Theorem set_program_options_twice (s : process) (key : string) :
  In key ["plugin"; "help"; "version"; "print-default-config"; "data-dir";
          "config-dir"; "config"; "logconf"] ->
  bpo.find
    (_app_options
       (my (the_app (snd (set_program_options (snd (set_program_options s)))))))
    key
  = Throw (program_options_error ("option '" ++ key ++ "' is ambiguous")).
Proof.
  intro Hkey.
  assert (Hone : exists d,
    filter (fun d' => String.eqb (bpo.long_name d') key)
      (app_cfg_opts ++ app_cli_opts) = [d]).
  { destruct Hkey as [<-|[<-|[<-|[<-|[<-|[<-|[<-|[<-|[]]]]]]]]];
      eexists; reflexivity. }
  destruct Hone as [d Hd].
  unfold set_program_options, modify. cbn [snd with_app with_my the_app my plugins].
  rewrite !add_plugin_options_fold.
  cbn [set_options _app_options _cfg_options].
  unfold bpo.find. rewrite filter_app in Hd. rewrite !filter_app.
  destruct (filter _ app_cfg_opts) as [|x [|? ?]];
    destruct (filter _ app_cli_opts) as [|y [|? ?]]; try discriminate Hd;
    destruct (filter _ (_app_options (my (the_app s)))) as [|? [|? ?]];
    destruct (filter _ (plugin_app_options (plugins (the_app s)))) as [|? [|? ?]];
    reflexivity.
Qed.

Lemma set_program_options_twice_witness :
  bpo.find
    (_app_options
       (my (the_app (snd (set_program_options
                            (snd (set_program_options
                                    (fresh_process [plugin_B] []))))))))
    "config"
  = Throw (program_options_error ("option '" ++ "config" ++ "' is ambiguous")).
Proof.
  apply (set_program_options_twice (fresh_process [plugin_B] []) "config").
  simpl. tauto.
Defined.

(** A value the command line overrides is parsed by the check all the same:
    with [--bar=5] on the command line, [store] skips the line [bar = abc]
    of the config file and resolves [bar] to 5, and the redundancy check of
    [initialize_impl] then throws on that line. *)
Example overridden_value_is_still_parsed :
  option_map (fun vm => resolved vm "bar")
    (match merged (_app_options (my (the_app bar_process)))
             (_cfg_options (my (the_app bar_process)))
             (one_option "bar" "5") (one_option "bar" "abc") with
     | Ok vm => Some vm
     | Throw _ => None
     end)
  = Some (Some (any_int 5)) /\
  fst (run_initialize_impl ["--bar=5"] []
         (fresh_process [plugin_B] [("config-dir/config.ini", "bar = abc")]))
  = Throw (program_options_error "the argument ('abc') is invalid").
Proof. split; vm_compute; reflexivity. Qed.

(** ** Where the claims about shutdown and startup stop holding *)

(** The claim C1 fails when a shutdown hook throws: with [A], [Y] and [C]
    started in this order and the hook of [Y] throwing, [shutdown] calls the
    hooks of [C] and [Y] and leaves with the exception; the hook of [A],
    a started plugin, is never invoked, and neither the registry nor the
    started list is emptied. *)
Lemma shutdown_hook_throw_skips_started_plugin :
  map name (running_plugins
              (the_app (running_process [plugin_A; plugin_no_stop; plugin_C])))
  = ["A"; "Y"; "C"] /\
  fst (shutdown (running_process [plugin_A; plugin_no_stop; plugin_C]))
  = Throw (plugin_error "no stop") /\
  trace (snd (shutdown (running_process [plugin_A; plugin_no_stop; plugin_C])))
  = [ev_shutdown "C"; ev_shutdown "Y"] /\
  ~ In (ev_shutdown "A")
       (trace (snd (shutdown (running_process [plugin_A; plugin_no_stop; plugin_C])))) /\
  map name (running_plugins (the_app
    (snd (shutdown (running_process [plugin_A; plugin_no_stop; plugin_C])))))
  = ["A"; "Y"; "C"] /\
  map fst (plugins (the_app
    (snd (shutdown (running_process [plugin_A; plugin_no_stop; plugin_C])))))
  = ["A"; "C"; "Y"].
Proof.
  repeat split. simpl. intros [H|[H|[]]]; discriminate H.
Qed.

(** The claim C2 fails when a shutdown hook throws during the unwind: with
    [A], [Y] and [X] initialized in this order, the startup hook of [X]
    throwing "no start" and the shutdown hook of [Y] throwing "no stop",
    [startup] leaves with "no stop", not with the original exception; [A],
    started before the failing plugin, gets no shutdown call, and [A] and
    [Y] are left in the started list. *)
Lemma startup_unwind_stops_at_shutdown_throw :
  fst (startup (initialized_process [plugin_A; plugin_no_stop; plugin_no_start]))
  = Throw (plugin_error "no stop") /\
  plugin_startup plugin_no_start = Some (plugin_error "no start") /\
  plugin_error "no stop" <> plugin_error "no start" /\
  trace (snd (startup (initialized_process
                         [plugin_A; plugin_no_stop; plugin_no_start])))
  = [ev_startup "A"; ev_startup "Y"; ev_startup "X"; ev_shutdown "Y"] /\
  ~ In (ev_shutdown "A")
       (trace (snd (startup (initialized_process
                               [plugin_A; plugin_no_stop; plugin_no_start])))) /\
  map name (running_plugins (the_app
    (snd (startup (initialized_process
                     [plugin_A; plugin_no_stop; plugin_no_start])))))
  = ["A"; "Y"].
Proof.
  repeat split; try discriminate.
  simpl. intros [H|[H|[H|[H|[]]]]]; discriminate H.
Qed.

(** ** The default config that is not written through *)

Lemma print_options_result (option_to_plug : smap string)
    (ods : list bpo.option_description) (os : ostream) :
  fst (print_options option_to_plug ods os) =
  if existsb parameter_too_short ods
  then Throw (out_of_range "basic_string::erase")
  else Ok tt.
Proof.
  revert os. induction ods as [|od ods IH]; intro os; simpl; [reflexivity|].
  pose proof (print_option_result option_to_plug od os) as H.
  destruct (print_option option_to_plug od os) as [[[]|e] os']; cbn [fst] in *.
  - destruct (parameter_too_short od); [discriminate|]. apply IH.
  - destruct (parameter_too_short od); [|discriminate]. exact H.
Qed.

(** C5.  The claim fails where the default config cannot be rendered.  When
    the resolved config file does not exist, its path is [config.ini] under
    the config directory, and the config schema holds an option (with a
    default, of a type other than [bool]) whose parameter text has six
    characters or fewer, as the ["arg"] of [default_value("")] has:
    initialization does not proceed.  It throws the [std::out_of_range] of
    [example.erase(example.length()-1)], and the file is left at that path
    with the part of the template written before the option; the
    application, the plugins and their states are as they were after the
    paths were resolved. *)
Theorem default_config_is_not_written_through (options : bpo.variables_map)
    (autostart_plugins : list (option abstract_plugin)) (s s1 : process)
    (config_file_name : bfs.path) :
  resolve_paths options s = (Ok config_file_name, s1) ->
  bfs.exists_ (filesystem s1) config_file_name = false ->
  bfs.compare config_file_name
    (bfs.append (_config_dir (my (the_app s1))) "config.ini") = Eq ->
  existsb parameter_too_short (_cfg_options (my (the_app s1))) = true ->
  exists s2,
    initialize_with_options options autostart_plugins s
    = (Throw (out_of_range "basic_string::erase"), s2) /\
    bfs.read_file (filesystem s2) config_file_name
    = Some (snd (print_default_config (the_app s1) "")) /\
    the_app s2 = the_app s1 /\ trace s2 = trace s1 /\
    plugin_states s2 = plugin_states s1.
Proof.
  intros Hpaths Hmissing Hdefault Hshort.
  rewrite (initialize_with_options_missing _ _ _ _ _ Hpaths Hmissing), Hdefault.
  unfold bind. rewrite write_default_config_run.
  pose proof (print_options_result (option_to_plug_of (plugins (the_app s1)))
                (_cfg_options (my (the_app s1))) "") as Hr.
  rewrite Hshort in Hr. fold (print_default_config (the_app s1) "") in Hr.
  rewrite Hr. eexists. split; [reflexivity|].
  cbn [filesystem with_filesystem the_app trace plugin_states].
  split; [unfold bfs.read_file; cbn [bfs.write_file bfs.files];
          apply smap_find_set_same|].
  now destruct (bfs.exists_ (filesystem s1) (bfs.parent_path config_file_name)).
Qed.

Lemma default_config_is_not_written_through_witness :
  exists s2,
    initialize_with_options (options_with_config "config.ini") [] tag_process
    = (Throw (out_of_range "basic_string::erase"), s2) /\
    bfs.read_file (filesystem s2) "config-dir/config.ini"
    = Some (snd (print_default_config
                   (the_app (snd (resolve_paths (options_with_config "config.ini")
                                    tag_process))) "")) /\
    the_app s2
    = the_app (snd (resolve_paths (options_with_config "config.ini") tag_process)) /\
    trace s2
    = trace (snd (resolve_paths (options_with_config "config.ini") tag_process)) /\
    plugin_states s2
    = plugin_states (snd (resolve_paths (options_with_config "config.ini")
                            tag_process)).
Proof.
  apply (default_config_is_not_written_through
           (options_with_config "config.ini") [] tag_process
           (snd (resolve_paths (options_with_config "config.ini") tag_process))
           "config-dir/config.ini"); reflexivity.
Defined.

(** The file such a host is left with: the description of [tag] and no
    line for its value. *)
Example truncated_config_ini :
  bfs.read_file
    (filesystem (snd (run_initialize_impl [] []
                        (fresh_process [quiet_plugin "P" [option_tag]] []))))
    "config-dir/config.ini"
  = Some ("# Tag (P)" ++ endl)%string.
Proof. vm_compute. reflexivity. Qed.
